(** * batchglm: constraint reducer, bounds clipper, forward model,
      trust-region optimizer and convergence monitor

    A shallow embedding of
      - [batchglm/train/tf/nb_glm/model.py]
          ([param_bounds], [tf_clip_param], [np_clip_param],
           [apply_constraints], [BasicModelGraph.__init__],
           [ModelVars.__init__]),
      - [batchglm/train/tf/train.py]
          ([TimedRunHook], [StopAtLossHook], [MultiTrainer.__init__],
           [MultiTrainer.train_op_by_name],
           [MultiTrainer.gradient_by_variable],
           [MultiTrainer.plain_gradient_by_variable]),
      - [batchglm/train/tf2/base_glm/model.py]
          ([GLM.setMethod], [LossGLM]),
      - [batchglm/models/nb_glm/simulator.py]
          ([generate_sample_description]).

    Tensors are lists of rows.  The element type of a tensor (the
    [dtype] argument of the Python code) is a parameter: the operations
    that TensorFlow and NumPy provide on it are collected in the classes
    [TfArith], [TfMath], [TfCompare] and [DtypeLimits].  Statements that
    only depend on the shape of the computation are proved for every
    element type; statements about order or exact sums are proved for the
    exact rationals [Qc], which stand for the finite values of a float
    type computed without rounding.

    Python exceptions are values of [exn]; a call that can raise returns
    a [result]. *)

From Stdlib Require Import Arith Lia Bool String Ascii List.
From Stdlib Require Import ZArith QArith Qabs Qcanon Qminmax.
From Stdlib Require Import Permutation Sorted Ring.
From Stdlib Require Import DecimalString Lqa.
Import ListNotations.

Set Implicit Arguments.
Open Scope nat_scope.

(* ================================================================= *)
(** ** Exceptions and results *)

Inductive exn : Type :=
| ValueError (msg : string)
| UnboundLocalError (name : string)
| AttributeError (attr : string)
| TypeError (msg : string)
| ZeroDivisionError
| KeyError (key : string)
| InvalidArgumentError (msg : string).

Inductive result (A : Type) : Type :=
| Ok (a : A)
| Raise (e : exn).

Arguments Ok {A} a.
Arguments Raise {A} e.

Definition bind {A B : Type} (m : result A) (k : A -> result B) : result B :=
  match m with
  | Ok a => k a
  | Raise e => Raise e
  end.

Notation "x <- m ;; k" := (bind m (fun x => k))
  (at level 61, m at next level, right associativity).

Definition is_ok {A : Type} (m : result A) : bool :=
  match m with Ok _ => true | Raise _ => false end.

(* ================================================================= *)
(** ** Strings: [str.lower] on ASCII text *)

Definition lower_ascii (c : ascii) : ascii :=
  let n := nat_of_ascii c in
  if (65 <=? n) && (n <=? 90) then ascii_of_nat (n + 32) else c.

Fixpoint lower (s : string) : string :=
  match s with
  | EmptyString => EmptyString
  | String c s' => String (lower_ascii c) (lower s')
  end.

(* ================================================================= *)
(** ** [MultiTrainer.train_op_by_name] *)

Module Trainer.
Section WithOp.

(** The type of TensorFlow operations held by a trainer. *)
Variable Op : Type.

(** The [train_op_*] attributes that [MultiTrainer.__init__] sets at
    its end; [None] is Python's [None] (optimizer not provided).
    There is no [train_op_bfgs] attribute: its assignment is commented
    out in the source. *)
Record MultiTrainer : Type := {
  train_op_GD : option Op;
  train_op_Adam : option Op;
  train_op_Adagrad : option Op;
  train_op_RMSProp : option Op;
  train_op_nr : option Op;
  train_op_nr_tr : option Op;
  train_op_irls : option Op;
  train_op_irls_tr : option Op
}.

(** [if attr is None: raise ValueError(msg)] followed by [return attr]. *)
Definition provided (attr : option Op) (msg : string) : result Op :=
  match attr with
  | None => Raise (ValueError msg)
  | Some op => Ok op
  end.

Definition one_of (s : string) (names : list string) : bool :=
  existsb (String.eqb s) names.

Definition gd_names : list string := ["gradient_descent"; "gd"]%string.
Definition newton_names : list string :=
  ["newton"; "newton-raphson"; "newton_raphson"; "nr"]%string.
Definition newton_tr_names : list string :=
  ["newton-trust-region"; "newton_trust_region";
   "newton-raphson-trust-region"; "newton_raphson_trust_region";
   "newton_tr"; "nr_tr"]%string.
Definition irls_names : list string := ["irls"; "iwls"]%string.
Definition irls_tr_names : list string :=
  ["irls_tr"; "iwls_tr"; "irls_trust_region"; "iwls_trust_region";
   "irls-trust-region"; "iwls-trust-region"]%string.

Definition train_op_by_name (self : MultiTrainer) (name : string)
  : result Op :=
  let name_lower := lower name in
  if one_of name_lower gd_names then
    provided (train_op_GD self)
             "Gradient decent not provided in initialization."
  else if (name_lower =? "adam")%string then
    provided (train_op_Adam self) "Adam not provided in initialization."
  else if (name_lower =? "adagrad")%string then
    provided (train_op_Adagrad self)
             "Adagrad decent not provided in initialization."
  else if (name_lower =? "rmsprop")%string then
    provided (train_op_RMSProp self)
             "RMSProp decent not provided in initialization."
  else if (name_lower =? "bfgs")%string then
    Raise (AttributeError "train_op_bfgs")
  else if one_of (lower name_lower) newton_names then
    provided (train_op_nr self)
             "Newton-rhapson not provided in initialization."
  else if one_of (lower name_lower) newton_tr_names then
    provided (train_op_nr_tr self)
             "Newton-rhapson trust-region not provided in initialization."
  else if one_of (lower name_lower) irls_names then
    provided (train_op_irls self) "IRLS not provided in initialization."
  else if one_of (lower name_lower) irls_tr_names then
    provided (train_op_irls self) "IRLS not provided in initialization."
  else
    Raise (ValueError ("Unknown optimizer " ++ name)).

End WithOp.
End Trainer.

(* ================================================================= *)
(** ** [MultiTrainer.__init__]: the gradient set-up *)

Module TrainerInit.
Section WithTensors.

(** Tensors, variables and the finished trainer object. *)
Variables Tensor Variable_ Trainer_ : Type.

(** [tf.gradients(loss, variables)]: a library call, which may raise. *)
Variable tf_gradients :
  option Tensor -> list Variable_ -> result (list Tensor).

(** Everything [__init__] does after [plain_gradients_vars] is bound
    (lines 277 to 541 of train.py). *)
Variable build_train_ops :
  list (Tensor * list Variable_) -> result Trainer_.

(** The local variables of the constructor that the gradient set-up
    touches.  A local is unbound ([None]) until its first assignment. *)
Record locals : Type := {
  plain_gradients : option (list Tensor);
  plain_gradients_vars : option (list (Tensor * list Variable_))
}.

Definition fresh_locals : locals :=
  {| plain_gradients := None; plain_gradients_vars := None |}.

(** Reading a local name. *)
Definition load {A : Type} (name : string) (slot : option A) : result A :=
  match slot with
  | Some v => Ok v
  | None => Raise (UnboundLocalError name)
  end.

(** Lines 267 to 275. *)
Definition bind_plain_gradients_vars
    (loss : option Tensor) (variables : option (list Variable_))
    (gradients : option Tensor) (fr : locals) : result locals :=
  match gradients with
  | None =>
      match variables with
      | None =>
          Raise (ValueError
            "Either variables and loss or gradients have to be specified")
      | Some vs =>
          g <- tf_gradients loss vs ;;
          let fr1 := {| plain_gradients := Some g;
                        plain_gradients_vars := plain_gradients_vars fr |} in
          (* the iterable of the comprehension is evaluated first *)
          pgv <- load "plain_gradients_vars" (plain_gradients_vars fr1) ;;
          let zipped :=
            map (fun gv => (fst (fst gv), [snd gv])) (combine pgv vs) in
          Ok {| plain_gradients := plain_gradients fr1;
                plain_gradients_vars := Some zipped |}
      end
  | Some g =>
      let vs := match variables with Some vs => vs | None => [] end in
      Ok {| plain_gradients := plain_gradients fr;
            plain_gradients_vars := Some [(g, vs)] |}
  end.

Definition init (loss : option Tensor) (variables : option (list Variable_))
    (gradients : option Tensor) : result Trainer_ :=
  fr <- bind_plain_gradients_vars loss variables gradients fresh_locals ;;
  pgv <- load "plain_gradients_vars" (plain_gradients_vars fr) ;;
  build_train_ops pgv.

End WithTensors.
End TrainerInit.

(* ================================================================= *)
(** ** Element types of tensors *)

(** Scalar arithmetic of a dtype, as TensorFlow and NumPy apply it to
    each element. *)
Class TfArith (F : Type) : Type := {
  fzero : F;
  fone : F;
  fadd : F -> F -> F;
  fsub : F -> F -> F;
  fmul : F -> F -> F;
  fdiv : F -> F -> F;
  fneg : F -> F;
  fmin : F -> F -> F;
  fmax : F -> F -> F;
  (** the number of reduced elements, cast to the dtype by [reduce_mean] *)
  fcount : nat -> F
}.

(** Elementary functions used by the likelihood. *)
Class TfMath (F : Type) : Type := {
  fexp : F -> F;
  flog : F -> F;
  flgamma : F -> F
}.

(** Comparisons with a Python [bool] result. *)
Class TfCompare (F : Type) : Type := {
  fless : F -> F -> bool;
  fgreater : F -> F -> bool;
  fequal : F -> F -> bool
}.

Inductive direction : Type := pos_inf | neg_inf.

(** What [param_bounds] reads from the dtype and from [pkg_constants]:
    [dtype.max], [np.nextafter(x, +-inf, dtype=dtype)], [np.log] on
    scalars of the dtype and the constant
    [ACCURACY_MARGIN_RELATIVE_TO_LIMIT], which is defined outside the
    files at hand. *)
Class DtypeLimits (F : Type) : Type := {
  dmax : F;
  np_nextafter : F -> direction -> F;
  np_log : F -> F;
  ACCURACY_MARGIN_RELATIVE_TO_LIMIT : F
}.

(* ----------------------------------------------------------------- *)
(** *** Exact rationals *)

Definition Qc_min (x y : Qc) : Qc := if Qclt_le_dec y x then y else x.
Definition Qc_max (x y : Qc) : Qc := if Qclt_le_dec x y then y else x.
Definition Qc_ltb (x y : Qc) : bool := if Qclt_le_dec x y then true else false.

#[export] Instance Qc_arith : TfArith Qc := {|
  fzero := 0%Qc;
  fone := 1%Qc;
  fadd := Qcplus;
  fsub := Qcminus;
  fmul := Qcmult;
  fdiv := Qcdiv;
  fneg := Qcopp;
  fmin := Qc_min;
  fmax := Qc_max;
  fcount := fun n => Q2Qc (inject_Z (Z.of_nat n))
|}.

#[export] Instance Qc_compare : TfCompare Qc := {|
  fless := Qc_ltb;
  fgreater := fun x y => Qc_ltb y x;
  fequal := Qc_eq_bool
|}.

(** A float64-like description of the limits, in exact rationals: the
    smallest positive value and the largest finite value of the type.
    [approx_ln] is a rational stand-in for [np.log], within [ln 2] of the
    natural logarithm; [float64_nextafter] moves by one part in [2^52]. *)
Definition float64_tiny : Q := 1 # (2 ^ 1074).
Definition float64_max : Q := inject_Z (2 ^ 1024 - 2 ^ 971).

(** Modelled from the spec: [pkg_constants.ACCURACY_MARGIN_RELATIVE_TO_LIMIT]
    is defined in a module that is not at hand; the specification describes
    it as a safety margin, "a fraction < 1, e.g. 0.98". *)
Definition spec_accuracy_margin : Q := 98 # 100.

Definition approx_ln (q : Q) : Q :=
  inject_Z (Z.log2 (Qnum q) - Z.log2 (Zpos (Qden q))) * (693147 # 1000000).

Definition float64_nextafter (x : Q) (d : direction) : Q :=
  if Qeq_bool x 0 then
    match d with pos_inf => float64_tiny | neg_inf => - float64_tiny end
  else
    match d with
    | pos_inf => x + Qabs x * (1 # (2 ^ 52))
    | neg_inf => x - Qabs x * (1 # (2 ^ 52))
    end.

Definition float64_limits : DtypeLimits Qc := {|
  dmax := Q2Qc float64_max;
  np_nextafter := fun x d => Q2Qc (float64_nextafter (this x) d);
  np_log := fun x => Q2Qc (approx_ln (this x));
  ACCURACY_MARGIN_RELATIVE_TO_LIMIT := Q2Qc spec_accuracy_margin
|}.

(* ----------------------------------------------------------------- *)
(** *** Graph nodes *)

(** In graph mode every TensorFlow operation builds a node; the element
    type [node] computes the expression that each tensor entry denotes. *)
Inductive node : Type :=
| NConst (name : string)
| NCount (n : nat)
| NInput (tensor : string) (i j : nat)
| NAdd (x y : node)
| NSub (x y : node)
| NMul (x y : node)
| NDiv (x y : node)
| NNeg (x : node)
| NMinimum (x y : node)
| NMaximum (x y : node)
| NExp (x : node)
| NLog (x : node)
| NLgamma (x : node)
| NNextafter (x : node) (d : direction).

#[export] Instance node_arith : TfArith node := {|
  fzero := NConst "0";
  fone := NConst "1";
  fadd := NAdd;
  fsub := NSub;
  fmul := NMul;
  fdiv := NDiv;
  fneg := NNeg;
  fmin := NMinimum;
  fmax := NMaximum;
  fcount := NCount
|}.

#[export] Instance node_math : TfMath node := {|
  fexp := NExp;
  flog := NLog;
  flgamma := NLgamma
|}.

Definition node_limits : DtypeLimits node := {|
  dmax := NConst "dtype.max";
  np_nextafter := NNextafter;
  np_log := NLog;
  ACCURACY_MARGIN_RELATIVE_TO_LIMIT :=
    NConst "ACCURACY_MARGIN_RELATIVE_TO_LIMIT"
|}.

(* ================================================================= *)
(** ** Tensors *)

(** Rank 1 and rank 2 tensors; a rank 2 tensor is the list of its rows. *)
Definition vector (F : Type) : Type := list F.
Definition tensor (F : Type) : Type := list (list F).

Section Tensors.

Context {F : Type} {arith : TfArith F}.

Definition entry (t : tensor F) (i j : nat) : F := nth j (nth i t []) fzero.

(** [t[:, j]] *)
Definition column (t : tensor F) (j : nat) : vector F :=
  map (fun row => nth j row fzero) t.

(** All rows of [t] have [n] entries. *)
Definition has_cols (n : nat) (t : tensor F) : Prop :=
  Forall (fun row => length row = n) t.

Definition has_colsb (n : nat) (t : tensor F) : bool :=
  forallb (fun row => length row =? n) t.

Definition map2 {A B C : Type} (f : A -> B -> C) (u : list A) (v : list B)
  : list C :=
  map (fun p => f (fst p) (snd p)) (combine u v).

(** Elementwise operations on tensors of equal shape. *)
Definition tmap (f : F -> F) (t : tensor F) : tensor F := map (map f) t.
Definition tmap2 (f : F -> F -> F) (s t : tensor F) : tensor F :=
  map2 (map2 f) s t.

Definition tf_add : tensor F -> tensor F -> tensor F := tmap2 fadd.
Definition tf_subtract : tensor F -> tensor F -> tensor F := tmap2 fsub.
Definition tf_multiply : tensor F -> tensor F -> tensor F := tmap2 fmul.
Definition tf_square : tensor F -> tensor F := tmap (fun x => fmul x x).

(** Sum of a list, accumulated from the left. *)
Definition sum_list (l : list F) : F := fold_left fadd l fzero.

(** Sum of [g 0], ..., [g (n - 1)], accumulated from the left. *)
Definition sum_upto (n : nat) (g : nat -> F) : F :=
  sum_list (map g (seq 0 n)).

Definition dot (u v : vector F) : F := sum_list (map2 fmul u v).

(** [tf.matmul(s, t)] for [t] with [n] columns. *)
Definition tf_matmul (n : nat) (s t : tensor F) : tensor F :=
  map (fun srow => map (fun j => dot srow (column t j)) (seq 0 n)) s.

(** [tf.reduce_sum(t, axis=0)] for [t] with [n] columns. *)
Definition reduce_sum_axis0 (n : nat) (t : tensor F) : vector F :=
  map (fun j => sum_list (column t j)) (seq 0 n).

(** [tf.reduce_mean(t, axis=0)] for [t] with [n] columns. *)
Definition reduce_mean_axis0 (n : nat) (t : tensor F) : vector F :=
  map (fun s => fdiv s (fcount (length t))) (reduce_sum_axis0 n t).

(** [tf.gather(t, indices, axis=0)]; an index outside [t] is an
    error. *)
Fixpoint tf_gather (t : tensor F) (indices : list nat) : result (tensor F) :=
  match indices with
  | [] => Ok []
  | i :: rest =>
      match nth_error t i with
      | None => Raise (InvalidArgumentError "indices out of range")
      | Some row => rows <- tf_gather t rest ;; Ok (row :: rows)
      end
  end.

End Tensors.

(* ================================================================= *)
(** ** Parameter bounds and clipping *)

(** The keys of the two dictionaries of bounds: ["a"], ["b"], ["log_mu"],
    ["log_r"], ["mu"], ["r"], ["probs"] and ["log_probs"]. *)
Inductive param_name : Type :=
| name_a | name_b | name_log_mu | name_log_r
| name_mu | name_r | name_probs | name_log_probs.

Definition param_names : list param_name :=
  [name_a; name_b; name_log_mu; name_log_r;
   name_mu; name_r; name_probs; name_log_probs].

Section Bounds.

Context {F : Type} {arith : TfArith F} {limits : DtypeLimits F}.

Definition sf : F := ACCURACY_MARGIN_RELATIVE_TO_LIMIT.

(** The two dictionaries returned by [param_bounds(dtype)]. *)
Definition bounds_min (name : param_name) : F :=
  match name with
  | name_a | name_b | name_log_mu | name_log_r =>
      fdiv (np_log (np_nextafter fzero pos_inf)) sf
  | name_mu | name_r => np_nextafter fzero pos_inf
  | name_probs => fzero
  | name_log_probs => np_log (np_nextafter fzero pos_inf)
  end.

Definition bounds_max (name : param_name) : F :=
  match name with
  | name_a | name_b | name_log_mu | name_log_r =>
      fdiv (np_nextafter (np_log dmax) neg_inf) sf
  | name_mu | name_r => fdiv (np_nextafter dmax neg_inf) sf
  | name_probs => fone
  | name_log_probs => fzero
  end.

Definition param_bounds : (param_name -> F) * (param_name -> F) :=
  (bounds_min, bounds_max).

(** [tf.clip_by_value(t, lo, hi)] on one element:
    [maximum(minimum(t, hi), lo)]. *)
Definition clip_by_value (x lo hi : F) : F := fmax (fmin x hi) lo.


Definition tf_clip (name : param_name) (x : F) : F :=
  clip_by_value x (fst param_bounds name) (snd param_bounds name).


Definition tf_clip_param (param : tensor F) (name : param_name) : tensor F :=
  tmap (tf_clip name) param.


End Bounds.

(* ================================================================= *)
(** ** [apply_constraints] *)

(** [np.argsort] of a list of keys: the positions of the keys in
    increasing key order (insertion sort, equal keys keep their order). *)
Fixpoint insert_by_key (p : nat * nat) (l : list (nat * nat))
  : list (nat * nat) :=
  match l with
  | [] => [p]
  | q :: l' => if fst p <=? fst q then p :: l else q :: insert_by_key p l'
  end.

Definition sort_by_key (l : list (nat * nat)) : list (nat * nat) :=
  fold_right insert_by_key [] l.

Definition np_argsort (keys : list nat) : list nat :=
  map snd (sort_by_key (combine keys (seq 0 (length keys)))).

(** The order of the sort: pairs of a key and a position, by key. *)
Definition key_le (p q : nat * nat) : Prop := fst p <= fst q.

Section Constraints.

Context {F : Type} {arith : TfArith F} {cmp : TfCompare F}.

(** The number of features: the static second dimension of the
    parameter tensors. *)
Variable n_features : nat.

Definition minus_one : F := fneg fone.

(** [constraints.shape[1]] *)
Definition n_params (constraints : tensor F) : nat :=
  length (hd [] constraints).

(** [np.where(np.all(constraints != -1, axis=0))[0]] *)
Definition idx_indep (constraints : tensor F) : list nat :=
  filter (fun c =>
            forallb (fun constr => negb (fequal (nth c constr fzero) minus_one))
                    constraints)
         (seq 0 (n_params constraints)).

(** [np.where(constr == -1)[0]] *)
Definition where_minus_one (constr : vector F) : list nat :=
  filter (fun c => fequal (nth c constr fzero) minus_one)
         (seq 0 (length constr)).

(** [[np.where(constr == -1)[0] for constr in constraints]] *)
Definition idx_dep_rows (constraints : tensor F) : list (list nat) :=
  map where_minus_one constraints.

(** Lines 114 to 117: keep, in each row, the dependent columns that no
    earlier row names; [np.concatenate] refuses an empty list. *)
Definition idx_dep (constraints : tensor F) : result (list nat) :=
  let rows := idx_dep_rows constraints in
  match rows with
  | [] => Raise (ValueError "need at least one array to concatenate")
  | _ =>
      Ok (concat
            (map (fun ix =>
                    let i := fst ix in
                    let x := snd ix in
                    if 0 <? i then
                      filter (fun xx =>
                                negb (existsb (Nat.eqb xx)
                                              (concat (firstn i rows))))
                             x
                    else x)
                 (combine (seq 0 (length rows)) rows)))
  end.

(** Lines 124 to 129.  With neither tensor given, [x] is [None]. *)
Definition select_params (indep : list nat)
    (var_all var_indep : option (tensor F)) : result (option (tensor F)) :=
  match var_all with
  | None => Ok var_indep
  | Some va =>
      match var_indep with
      | None => x <- tf_gather va indep ;; Ok (Some x)
      | Some _ =>
          Raise (ValueError
                   "only give var_all or var_indep to apply_constraints.")
      end
  end.

(** [tf.matmul(constraint_model, x)] for a one-row [constraint_model]:
    [None] cannot be converted to a tensor, and the inner dimensions
    must agree. *)
Definition matmul_row (constraint_model : vector F) (x : option (tensor F))
  : result (tensor F) :=
  match x with
  | None => Raise (ValueError "None values not supported.")
  | Some xt =>
      if length constraint_model =? length xt then
        Ok (tf_matmul n_features [constraint_model] xt)
      else
        Raise (ValueError "Dimensions must be equal")
  end.

(** Lines 132 to 134: row [i] of the constraints, restricted to the
    columns resolved so far and negated. *)
Definition constraint_model (constraints : tensor F)
    (indep dep : list nat) (i : nat) : vector F :=
  let idx_var_i := indep ++ firstn i dep in
  let constraint_model :=
    map (fun c => entry constraints i c) idx_var_i in
  map fneg constraint_model.

(** One pass of the loop at lines 131 to 137. *)
Definition add_dependent (constraints : tensor F) (indep dep : list nat)
    (i : nat) (x : option (tensor F)) : result (option (tensor F)) :=
  row <- matmul_row (constraint_model constraints indep dep i) x ;;
  match x with
  | Some xt => Ok (Some (xt ++ row))
  | None => Raise (ValueError "None values not supported.")
  end.

Fixpoint add_dependents (constraints : tensor F) (indep dep : list nat)
    (steps : list nat) (x : option (tensor F)) : result (option (tensor F)) :=
  match steps with
  | [] => Ok x
  | i :: rest =>
      x' <- add_dependent constraints indep dep i x ;;
      add_dependents constraints indep dep rest x'
  end.

Definition apply_constraints (constraints : tensor F)
    (var_all var_indep : option (tensor F)) : result (tensor F) :=
  let indep := idx_indep constraints in
  dep <- idx_dep constraints ;;
  x <- select_params indep var_all var_indep ;;
  x <- add_dependents constraints indep dep
         (seq 0 (length constraints)) x ;;
  let idx_var := np_argsort (indep ++ dep) in
  match x with
  | Some xt => tf_gather xt idx_var
  | None => Raise (ValueError "None values not supported.")
  end.

(** The number of dependent rows that a run of [apply_constraints] has
    appended to the parameter tensor when it returns or raises. *)
Fixpoint reconstructed (constraints : tensor F) (indep dep : list nat)
    (steps : list nat) (x : option (tensor F)) : nat :=
  match steps with
  | [] => 0
  | i :: rest =>
      match add_dependent constraints indep dep i x with
      | Ok x' => S (reconstructed constraints indep dep rest x')
      | Raise _ => 0
      end
  end.

Definition rows_reconstructed (constraints : tensor F)
    (var_all var_indep : option (tensor F)) : nat :=
  let indep := idx_indep constraints in
  match idx_dep constraints with
  | Raise _ => 0
  | Ok dep =>
      match select_params indep var_all var_indep with
      | Raise _ => 0
      | Ok x =>
          reconstructed constraints indep dep
                        (seq 0 (length constraints)) x
      end
  end.

(** A constraint matrix is well formed when it has at least one row,
    its rows have equal length, every row has exactly one [-1] entry,
    no two rows have their [-1] in the same column, and no row has a
    non-zero entry in the dependent column of a later row. *)
Definition dep_col (constraints : tensor F) (i : nat) : nat :=
  hd 0 (where_minus_one (nth i constraints [])).

Definition nodupb (l : list nat) : bool :=
  (fix go (l : list nat) : bool :=
     match l with
     | [] => true
     | x :: l' => negb (existsb (Nat.eqb x) l') && go l'
     end) l.

Definition well_formed (constraints : tensor F) : bool :=
  let n := length constraints in
  (0 <? n)
  && has_colsb (n_params constraints) constraints
  && forallb (fun constr => length (where_minus_one constr) =? 1) constraints
  && nodupb (map (dep_col constraints) (seq 0 n))
  && forallb (fun i =>
                forallb (fun i' =>
                           fequal (entry constraints i (dep_col constraints i'))
                                  fzero)
                        (seq (S i) (n - S i)))
             (seq 0 n).




End Constraints.

(* ================================================================= *)
(** ** [BasicModelGraph] and [LossGLM] *)

Section ForwardModel.

Context {F : Type} {arith : TfArith F} {math : TfMath F}
        {limits : DtypeLimits F}.

Variable n_features : nat.

Record BasicModelGraph : Type := {
  X : tensor F;
  design_loc : tensor F;
  design_scale : tensor F;
  log_mu : tensor F;
  mu : tensor F;
  log_r : tensor F;
  r : tensor F;
  sigma2 : tensor F;
  probs : tensor F;
  log_probs : tensor F;
  log_likelihood : vector F;
  norm_log_likelihood : vector F;
  norm_neg_log_likelihood : vector F;
  loss : F
}.

(** [LossGLM] of the tf2 model. *)
Definition LossGLM_norm_log_likelihood (log_probs : tensor F) : vector F :=
  reduce_mean_axis0 n_features log_probs.

Definition LossGLM_norm_neg_log_likelihood (log_probs : tensor F) : vector F :=
  map fneg (LossGLM_norm_log_likelihood log_probs).

Definition LossGLM_call (log_probs : tensor F) : F :=
  sum_list (LossGLM_norm_neg_log_likelihood log_probs).

(** Lines 208 to 211: the location predictor in the name scope "mu". *)
Definition log_mu_of (design_loc a : tensor F)
    (size_factors : option (tensor F)) : tensor F :=
  let log_mu := tf_matmul n_features design_loc a in
  let log_mu :=
    match size_factors with
    | Some s => tf_add log_mu s
    | None => log_mu
    end in
  tf_clip_param log_mu name_log_mu.

(** Lines 207 to 249 of [BasicModelGraph.__init__], on the parameters
    [a] and [b] that the constraints have produced. *)
Definition model_graph (X design_loc design_scale a b : tensor F)
    (size_factors : option (tensor F)) : BasicModelGraph :=
  let log_mu := log_mu_of design_loc a size_factors in
  let mu := tmap fexp log_mu in
  let log_r := tf_matmul n_features design_scale b in
  let log_r := tf_clip_param log_r name_log_r in
  let r := tmap fexp log_r in
  let sigma2 := tf_add mu (tf_multiply (tf_square mu) r) in
  let log_r_plus_mu := tmap flog (tf_add r mu) in
  let log_probs :=
    tf_add
      (tf_add
         (tf_subtract
            (tf_subtract (tmap flgamma (tf_add r X))
                         (tmap flgamma (tmap (fun x => fadd x fone) X)))
            (tmap flgamma r))
         (tf_multiply X (tf_subtract log_mu log_r_plus_mu)))
      (tf_multiply r (tf_subtract log_r log_r_plus_mu)) in
  let log_probs := tf_clip_param log_probs name_log_probs in
  let probs := tmap fexp log_probs in
  let probs := tf_clip_param probs name_probs in
  let norm_log_likelihood := reduce_mean_axis0 n_features log_probs in
  let norm_neg_log_likelihood := map fneg norm_log_likelihood in
  {| X := X;
     design_loc := design_loc;
     design_scale := design_scale;
     log_mu := log_mu;
     mu := mu;
     log_r := log_r;
     r := r;
     sigma2 := sigma2;
     probs := probs;
     log_probs := log_probs;
     log_likelihood := reduce_sum_axis0 n_features log_probs;
     norm_log_likelihood := norm_log_likelihood;
     norm_neg_log_likelihood := norm_neg_log_likelihood;
     loss := sum_list norm_neg_log_likelihood |}.

(** [BasicModelGraph.__init__]: lines 201 to 205 rebuild [a] and [b]
    from the constraints, when there are any. *)
Definition BasicModelGraph_init {cmp : TfCompare F}
    (X design_loc design_scale : tensor F)
    (constraints_loc constraints_scale : option (tensor F))
    (a b : tensor F) (size_factors : option (tensor F))
  : result BasicModelGraph :=
  a <- match constraints_loc with
       | Some c => apply_constraints n_features c (Some a) None
       | None => Ok a
       end ;;
  b <- match constraints_scale with
       | Some c => apply_constraints n_features c (Some b) None
       | None => Ok b
       end ;;
  Ok (model_graph X design_loc design_scale a b size_factors).

(** The location predictor as the specification words it: clip the
    product first, then add the offset. *)
Definition log_mu_clip_then_offset (design_loc a : tensor F)
    (size_factors : option (tensor F)) : tensor F :=
  let clipped :=
    tf_clip_param (tf_matmul n_features design_loc a) name_log_mu in
  match size_factors with
  | Some s => tf_add clipped s
  | None => clipped
  end.

End ForwardModel.

Arguments BasicModelGraph F : clear implicits.

(* ================================================================= *)
(** ** [MultiTrainer.__init__]: the Newton-Raphson trust-region op *)

Section TrustRegion.

Context {F : Type} {arith : TfArith F} {cmp : TfCompare F}.

(** [newton_tr_delta.shape[1]], the number of features. *)
Variable n_features : nat.

(** [pkg_constants.TRUST_REGION_ETA0] and the like. *)
Variables eta0 eta1 eta2 t1 t2 upper_bound : F.

(** [model_vars_eval.new(params=theta_new)] followed by
    [model_eval.new(model_vars=model_vars_eval)] and the read of
    [model_eval.norm_log_likelihood]: the normalized log-likelihood,
    per feature, of the model rebuilt on the given parameters. *)
Variable norm_log_likelihood_at : tensor F -> vector F.

(** The variables that the train op assigns. *)
Record train_state : Type := {
  variables : tensor F;
  nr_tr_radius : vector F;
  features_updated : list bool;
  global_step : nat
}.

(** [tf.stack(columns, axis=1)] for columns of length [p]. *)
Definition tf_stack_axis1 (p : nat) (columns : list (vector F)) : tensor F :=
  map (fun k => map (fun col => nth k col fzero) columns) (seq 0 p).

(** [variables - tf.expand_dims(nr_tr_radius, axis=0) * newton_tr_delta] *)
Definition theta_new (st : train_state) (newton_tr_delta : tensor F)
  : tensor F :=
  tf_subtract (variables st)
              (map (fun drow => map2 fmul (nr_tr_radius st) drow)
                   newton_tr_delta).

Definition delta_f_actual (st : train_state) (model_ll : vector F)
    (newton_tr_delta : tensor F) : vector F :=
  let ll_eval := norm_log_likelihood_at (theta_new st newton_tr_delta) in
  map2 fsub ll_eval model_ll.

Definition delta_f_ratio (st : train_state) (model_ll : vector F)
    (newton_tr_delta : tensor F) (nr_tr_pred_cost_gain : vector F)
  : vector F :=
  let delta_f_pred := nr_tr_pred_cost_gain in
  map2 fdiv (delta_f_actual st model_ll newton_tr_delta) delta_f_pred.

Definition update_theta (st : train_state) (model_ll : vector F)
    (newton_tr_delta : tensor F) (nr_tr_pred_cost_gain : vector F)
  : list bool :=
  map2 andb
       (map (fun x => fgreater x eta0)
            (delta_f_actual st model_ll newton_tr_delta))
       (map (fun x => fgreater x eta1)
            (delta_f_ratio st model_ll newton_tr_delta nr_tr_pred_cost_gain)).

Definition theta_new_nr_tr (st : train_state) (model_ll : vector F)
    (newton_tr_delta : tensor F) (nr_tr_pred_cost_gain : vector F)
  : tensor F :=
  let upd := update_theta st model_ll newton_tr_delta nr_tr_pred_cost_gain in
  tf_stack_axis1 (length (variables st))
    (map (fun i =>
            if nth i upd false
            then column (theta_new st newton_tr_delta) i
            else column (variables st) i)
         (seq 0 n_features)).

Definition nr_tr_radius_new (st : train_state) (model_ll : vector F)
    (newton_tr_delta : tensor F) (nr_tr_pred_cost_gain : vector F)
  : vector F :=
  let ratio :=
    delta_f_ratio st model_ll newton_tr_delta nr_tr_pred_cost_gain in
  map (fun i =>
         if fless (nth i ratio fzero) eta1 then
           fmul (nth i (nr_tr_radius st) fzero) t1
         else if fgreater (nth i ratio fzero) eta2 then
           fmin (fmul (nth i (nr_tr_radius st) fzero) t2) upper_bound
         else
           nth i (nr_tr_radius st) fzero)
      (seq 0 n_features).

(** Running [train_op_nr_tr] once: the four grouped assignments. *)
Definition train_op_nr_tr (st : train_state) (model_ll : vector F)
    (newton_tr_delta : tensor F) (nr_tr_pred_cost_gain : vector F)
  : train_state :=
  {| variables :=
       theta_new_nr_tr st model_ll newton_tr_delta nr_tr_pred_cost_gain;
     nr_tr_radius :=
       nr_tr_radius_new st model_ll newton_tr_delta nr_tr_pred_cost_gain;
     features_updated :=
       update_theta st model_ll newton_tr_delta nr_tr_pred_cost_gain;
     global_step := global_step st + 1 |}.

End TrustRegion.

Arguments train_state F : clear implicits.

(* ================================================================= *)
(** ** [StopAtLossHook] *)

Module StopAtLoss.

(** NumPy floats with their special values; the finite ones are exact
    rationals. *)
Inductive npfloat : Type :=
| Finite (q : Qc)
| Inf
| NegInf
| NaN.

Definition np_neg (x : npfloat) : npfloat :=
  match x with
  | Finite q => Finite (- q)%Qc
  | Inf => NegInf
  | NegInf => Inf
  | NaN => NaN
  end.

Definition np_add (x y : npfloat) : npfloat :=
  match x, y with
  | NaN, _ | _, NaN => NaN
  | Finite p, Finite q => Finite (p + q)%Qc
  | Inf, NegInf | NegInf, Inf => NaN
  | Inf, _ | _, Inf => Inf
  | NegInf, _ | _, NegInf => NegInf
  end.

Definition np_sub (x y : npfloat) : npfloat := np_add x (np_neg y).

Definition np_abs (x : npfloat) : npfloat :=
  match x with
  | Finite q => Finite (if Qclt_le_dec q 0 then - q else q)%Qc
  | Inf | NegInf => Inf
  | NaN => NaN
  end.

(** Division by the size of an array. *)
Definition np_div_size (x : npfloat) (n : nat) : npfloat :=
  match n with
  | O => NaN
  | S _ =>
      match x with
      | Finite q => Finite (q / Q2Qc (inject_Z (Z.of_nat n)))%Qc
      | other => other
      end
  end.

Definition np_sum (l : list npfloat) : npfloat :=
  fold_left np_add l (Finite 0%Qc).

Definition np_mean (l : list npfloat) : npfloat :=
  np_div_size (np_sum l) (length l).

Definition np_isinf (x : npfloat) : bool :=
  match x with
  | Inf | NegInf => true
  | _ => false
  end.

(** [x < y] *)
Definition np_less (x y : npfloat) : bool :=
  match x, y with
  | NaN, _ | _, NaN => false
  | Finite p, Finite q => Qc_ltb p q
  | NegInf, NegInf => false
  | NegInf, _ => true
  | _, NegInf => false
  | Inf, _ => false
  | Finite _, Inf => true
  end.

(** [l[i] = v] for [i] inside [l]. *)
Fixpoint setitem (l : list npfloat) (i : nat) (v : npfloat) : list npfloat :=
  match l, i with
  | [], _ => []
  | _ :: l', O => v :: l'
  | x :: l', S i' => x :: setitem l' i' v
  end.

Record StopAtLossHook : Type := {
  _loss_history : list npfloat;
  _last_step : option nat;
  _last_loss : option npfloat;
  min_loss_change : npfloat
}.

Definition init (min_loss_change : npfloat) (loss_averaging_steps : nat)
  : StopAtLossHook :=
  {| _loss_history := repeat Inf loss_averaging_steps;
     _last_step := None;
     _last_loss := None;
     min_loss_change := min_loss_change |}.

(** [after_create_session], given the value of the global step. *)
Definition after_create_session (self : StopAtLossHook) (step : nat)
  : StopAtLossHook :=
  match _last_step self with
  | None =>
      {| _loss_history := _loss_history self;
         _last_step := Some step;
         _last_loss := _last_loss self;
         min_loss_change := min_loss_change self |}
  | Some _ => self
  end.

(** The property [loss_change]. *)
Definition loss_change (self : StopAtLossHook) : npfloat :=
  match _last_loss self with
  | None => Inf
  | Some last => np_abs (np_sub last (np_mean (_loss_history self)))
  end.

(** [step % self._loss_history.size] *)
Definition mod_size (self : StopAtLossHook) (step : nat) : result nat :=
  match length (_loss_history self) with
  | O => Raise ZeroDivisionError
  | S _ => Ok (step mod length (_loss_history self))
  end.

Definition _update_loss_change (self : StopAtLossHook) (step : nat)
    (loss_value : npfloat) : result StopAtLossHook :=
  m <- mod_size self step ;;
  let last :=
    if m =? 0 then Some (np_mean (_loss_history self))
    else _last_loss self in
  Ok {| _loss_history := setitem (_loss_history self) m loss_value;
        _last_step := _last_step self;
        _last_loss := last;
        min_loss_change := min_loss_change self |}.

(** Lines 193 to 202 of [after_run], on the fetched [global_step] and
    [loss]; the boolean tells whether [run_context.request_stop()] was
    called. *)
Definition after_run_body (self : StopAtLossHook) (global_step : nat)
    (loss : npfloat) : result (StopAtLossHook * bool) :=
  match _last_step self with
  | None =>
      Raise (TypeError
        "'>=' not supported between instances of 'int' and 'NoneType'")
  | Some last_step =>
      if last_step <=? global_step then
        let change := loss_change self in
        let stop := np_less change (min_loss_change self) in
        _ <- mod_size self global_step ;;
        let self1 :=
          {| _loss_history := _loss_history self;
             _last_step := Some global_step;
             _last_loss := _last_loss self;
             min_loss_change := min_loss_change self |} in
        self2 <- _update_loss_change self1 global_step loss ;;
        Ok (self2, stop)
      else
        Ok (self, false)
  end.

(** What a session run fetches for a hook. *)
Inductive fetched : Type :=
| FetchedStep (n : nat)
| FetchedLoss (x : npfloat).

(** [tf.train.SessionRunValues], the named tuple that a monitored session
    hands to [after_run].  Its fields are [results], [options] and
    [run_metadata]; [results] holds the values of what [before_run]
    requested, under the same keys. *)
Record SessionRunValues : Type := {
  results : list (string * fetched);
  options : option (list (string * fetched));
  run_metadata : option (list (string * fetched))
}.

(** [run_values.<name>] *)
Definition getattr (run_values : SessionRunValues) (name : string)
  : result (option (list (string * fetched))) :=
  if (name =? "results")%string then Ok (Some (results run_values))
  else if (name =? "options")%string then Ok (options run_values)
  else if (name =? "run_metadata")%string then Ok (run_metadata run_values)
  else Raise (AttributeError name).

(** [d[key]] *)
Definition getitem (d : option (list (string * fetched))) (key : string)
  : result fetched :=
  match d with
  | None => Raise (TypeError "'NoneType' object is not subscriptable")
  | Some items =>
      match find (fun kv => (fst kv =? key)%string) items with
      | Some kv => Ok (snd kv)
      | None => Raise (KeyError key)
      end
  end.

Definition as_step (v : fetched) : result nat :=
  match v with
  | FetchedStep n => Ok n
  | FetchedLoss _ => Raise (TypeError "global_step is not an integer")
  end.

Definition as_loss (v : fetched) : result npfloat :=
  match v with
  | FetchedLoss x => Ok x
  | FetchedStep n => Ok (Finite (Q2Qc (inject_Z (Z.of_nat n))))
  end.

(** [StopAtLossHook.after_run]: lines 190 and 191 read the fetched values
    from [run_values.summary]. *)
Definition after_run (self : StopAtLossHook) (run_values : SessionRunValues)
  : result (StopAtLossHook * bool) :=
  summary <- getattr run_values "summary" ;;
  global_step <- (v <- getitem summary "global_step" ;; as_step v) ;;
  loss <- (v <- getitem summary "loss" ;; as_loss v) ;;
  after_run_body self global_step loss.

(** [TimedRunHook.after_run], line 105: the same fetch in the sibling
    hook reads [run_values.results]. *)
Definition TimedRunHook_global_step (run_values : SessionRunValues)
  : result nat :=
  res <- getattr run_values "results" ;;
  v <- getitem res "global_step" ;;
  as_step v.

(** Feeding the body of the hook the losses of consecutive steps, starting
    at step [step]; stops at the first request. *)
Fixpoint run (self : StopAtLossHook) (step : nat) (losses : list npfloat)
  : result (StopAtLossHook * bool) :=
  match losses with
  | [] => Ok (self, false)
  | l :: rest =>
      r <- after_run_body self step l ;;
      if snd r then Ok r else run (fst r) (S step) rest
  end.

End StopAtLoss.

(* ================================================================= *)
(** ** Example inputs *)

Module Example.

Definition qc (z : Z) : Qc := Q2Qc (inject_Z z).

(** Modelled from the spec: the [TRUST_REGION_*] constants of
    [pkg_constants], a module that is not at hand, at the values that the
    specification recommends (eta0 = 0, eta1 = 0.25, eta2 = 0.75,
    t1 = 0.25, t2 = 2), with a small cap on the radius. *)
Definition eta0 : Qc := 0%Qc.
Definition eta1 : Qc := Q2Qc (1 # 4).
Definition eta2 : Qc := Q2Qc (3 # 4).
Definition t1 : Qc := Q2Qc (1 # 4).
Definition t2 : Qc := qc 2.
Definition upper_bound : Qc := qc 3.

(** One parameter row and three features, with a log-likelihood
    [-theta^2] per feature. *)
Definition ll_at (theta : tensor Qc) : vector Qc :=
  map (fun x => (- (x * x))%Qc) (nth 0 theta []).

Definition st : train_state Qc :=
  {| variables := [[qc 1; qc 2; qc 2]];
     nr_tr_radius := [qc 1; qc 1; qc 2];
     features_updated := [false; false; false];
     global_step := 0 |}.

Definition delta : tensor Qc := [[qc 1; qc (-1); qc 1]].
Definition model_ll : vector Qc := ll_at (variables st).
Definition pred_gain : vector Qc := [qc 1; qc 1; qc 4].

Definition step : train_state Qc :=
  train_op_nr_tr 3 eta0 eta1 eta2 t1 t2 upper_bound ll_at st model_ll
                 delta pred_gain.

(** One observation, one location coefficient, one feature, and an
    offset that brings a large linear predictor back to zero. *)
Definition design : tensor Qc := [[qc 1]].
Definition coef : tensor Qc := [[qc 2000]].
Definition offset : tensor Qc := [[qc (-2000)]].

(** The same model as a graph over named inputs: two observations, one
    coefficient for location and for scale, one feature. *)
Definition sym (name : string) (rows cols : nat) : tensor node :=
  map (fun i => map (fun j => NInput name i j) (seq 0 cols)) (seq 0 rows).

Definition graph : BasicModelGraph node :=
  model_graph (limits := node_limits) 1
              (sym "X" 2 1) (sym "design_loc" 2 1) (sym "design_scale" 2 1)
              (sym "a" 1 1) (sym "b" 1 1) (Some (sym "size_factors" 2 1)).

(** Two chained constraints on four parameters: the third is minus the
    first, the fourth is minus the sum of the second and the third. *)
Definition constraints : tensor Qc :=
  [[qc 1; qc 0; qc (-1); qc 0];
   [qc 0; qc 1; qc 1; qc (-1)]].

Definition var_indep : tensor Qc := [[qc 3; qc 5]; [qc 7; qc 11]].


(** A hook with a window of three steps and a threshold of 1/1000,
    after the session has been created at step 0 and the loss 5 has been
    seen at steps 0, 1, 2 and 3. *)
Definition hook_start : StopAtLoss.StopAtLossHook :=
  StopAtLoss.after_create_session
    (StopAtLoss.init (StopAtLoss.Finite (Q2Qc (1 # 1000))) 3) 0.

Definition hook : StopAtLoss.StopAtLossHook :=
  match StopAtLoss.run hook_start 0 (repeat (StopAtLoss.Finite (qc 5)) 4) with
  | Ok (h, _) => h
  | Raise _ => hook_start
  end.

End Example.

(* ================================================================= *)
(** ** [MultiTrainer.__init__]: the other custom ops *)

Section StepOps.

Context {F : Type} {arith : TfArith F} {cmp : TfCompare F}.

(** Lines 344 to 353: [variables - learning_rate * newton_delta], with
    the scalar [learning_rate] broadcast over the tensor, in a group
    with the increment of the step counter. *)
Definition theta_new_nr (learning_rate : F) (st : train_state F)
    (newton_delta : tensor F) : tensor F :=
  tf_subtract (variables st) (tmap (fmul learning_rate) newton_delta).

Definition train_op_nr (learning_rate : F) (st : train_state F)
    (newton_delta : tensor F) : train_state F :=
  {| variables := theta_new_nr learning_rate st newton_delta;
     nr_tr_radius := nr_tr_radius st;
     features_updated := features_updated st;
     global_step := global_step st + 1 |}.

(** Lines 458 to 467: the same update on [irls_delta]. *)
Definition theta_new_irls (learning_rate : F) (st : train_state F)
    (irls_delta : tensor F) : tensor F :=
  tf_subtract (variables st) (tmap (fmul learning_rate) irls_delta).

Definition train_op_irls (learning_rate : F) (st : train_state F)
    (irls_delta : tensor F) : train_state F :=
  {| variables := theta_new_irls learning_rate st irls_delta;
     nr_tr_radius := nr_tr_radius st;
     features_updated := features_updated st;
     global_step := global_step st + 1 |}.

(** Lines 469 to 523, the IRLS trust-region op.  Its statements are
    those of the Newton-Raphson trust-region op on [irls_tr_delta],
    [irls_tr_radius] (the radius field of the state) and
    [irls_tr_pred_cost_gain], but for the loop of the radius update at
    line 510, which ranges over [newton_tr_delta.shape[1]].  Building
    the op reads that attribute: on [None] the constructor raises.
    Otherwise the stacked radius has [newton_tr_delta.shape[1]] entries;
    TensorFlow's static shape checks refuse an index past the end of
    [delta_f_ratio] and an assignment of a vector of another length to
    [irls_tr_radius]. *)
Variable n_features : nat.
Variables eta0 eta1 eta2 t1 t2 upper_bound : F.
Variable norm_log_likelihood_at : tensor F -> vector F.



End StepOps.

(* ================================================================= *)
(** ** [MultiTrainer.__init__]: gradients and train ops *)

Module TrainerBuild.
Section WithTensors.

Variables Tensor Variable_ Op : Type.

(** [v is variable], identity of the objects given as [variables]. *)
Variable same_object : list Variable_ -> list Variable_ -> bool.

(** The [apply_gradients] argument: a callable, a dictionary from
    variables to callables, or anything else ([None] by default). *)
Inductive apply_gradients_arg : Type :=
| ApplyCallable (f : Tensor -> result Tensor)
| ApplyDict (d : list (list Variable_ * (Tensor -> result Tensor)))
| ApplyNone.

(** [apply_gradients[v]] for [v in apply_gradients]. *)
Definition dict_get (d : list (list Variable_ * (Tensor -> result Tensor)))
    (v : list Variable_) : option (Tensor -> result Tensor) :=
  match find (fun kv => same_object (fst kv) v) d with
  | Some kv => Some (snd kv)
  | None => None
  end.

Fixpoint map_result {A B : Type} (f : A -> result B) (l : list A)
  : result (list B) :=
  match l with
  | [] => Ok []
  | a :: rest => b <- f a ;; bs <- map_result f rest ;; Ok (b :: bs)
  end.

(** Lines 277 to 282. *)
Definition gradients_vars_of (apply_gradients : apply_gradients_arg)
    (plain_gradients_vars : list (Tensor * list Variable_))
  : result (list (Tensor * list Variable_)) :=
  match apply_gradients with
  | ApplyCallable f =>
      map_result (fun gv => g <- f (fst gv) ;; Ok (g, snd gv))
                 plain_gradients_vars
  | ApplyDict d =>
      map_result (fun gv =>
                    match dict_get d (snd gv) with
                    | Some f => g <- f (fst gv) ;; Ok (g, snd gv)
                    | None => Ok (fst gv, snd gv)
                    end)
                 plain_gradients_vars
  | ApplyNone => Ok plain_gradients_vars
  end.

(** The attributes that the constructor sets at lines 525 to 541. *)
Record MultiTrainer : Type := {
  plain_gradients : list (Tensor * list Variable_);
  gradients : list (Tensor * list Variable_);
  train_ops : Trainer.MultiTrainer Op
}.

(** [provide_optimizers[key]]; the argument is [None] by default. *)
Definition getitem (provide_optimizers : option (list (string * bool)))
    (key : string) : result bool :=
  match provide_optimizers with
  | None => Raise (TypeError "'NoneType' object is not subscriptable")
  | Some items =>
      match find (fun kv => (fst kv =? key)%string) items with
      | Some kv => Ok (snd kv)
      | None => Raise (KeyError key)
      end
  end.

Definition optimizer_keys : list string :=
  ["gd"; "adam"; "adagrad"; "rmsprop"; "nr"; "nr_tr"; "irls"; "irls_tr"]%string.

(** Library and graph-building calls, which may raise:
    [tf.train.<cls>(learning_rate).apply_gradients(gradients_vars,
    global_step)]; the group of [tf.assign(variables, variables -
    learning_rate * delta)] and [tf.assign_add(global_step, 1)]; lines 356
    to 404, the Newton-Raphson trust-region group; lines 470 to 497, the
    part of the IRLS trust-region branch before the radius update; and
    lines 500 to 519, the radius update over a range of the given length
    and the group. *)
Variable apply_gradients_op :
  string -> list (Tensor * list Variable_) -> result Op.
Variable assign_group : Tensor -> result Op.
Variable nr_tr_group : Tensor -> result Op.
Variable irls_tr_candidate : Tensor -> result Tensor.
Variable irls_tr_group : Tensor -> nat -> result Op.

(** [t.shape[1]] *)
Variable shape1 : Tensor -> nat.

Section Build.

Variable apply_gradients : apply_gradients_arg.
Variable provide_optimizers : option (list (string * bool)).
Variables newton_delta irls_delta newton_tr_delta irls_tr_delta
  : option Tensor.
Variable apply_train_ops : option (Op -> result Op).

(** [if apply_train_ops is not None: op = apply_train_ops(op)] *)
Definition wrap (op : Op) : result Op :=
  match apply_train_ops with
  | None => Ok op
  | Some f => f op
  end.

(** [if provide_optimizers[key]: ... else: train_op = None] *)
Definition standard (key cls : string)
    (gradients_vars : list (Tensor * list Variable_))
  : result (option Op) :=
  flag <- getitem provide_optimizers key ;;
  if flag then
    op <- apply_gradients_op cls gradients_vars ;;
    op <- wrap op ;;
    Ok (Some op)
  else Ok None.

(** [if provide_optimizers[key] and delta is not None: ... else:
    train_op = None] *)
Definition custom (key : string) (delta : option Tensor)
    (build : Tensor -> result Op) : result (option Op) :=
  flag <- getitem provide_optimizers key ;;
  match flag, delta with
  | true, Some d =>
      op <- build d ;;
      op <- wrap op ;;
      Ok (Some op)
  | _, _ => Ok None
  end.

(** [newton_tr_delta.shape[1]] at line 510. *)
Definition newton_tr_delta_shape1 : result nat :=
  match newton_tr_delta with
  | None => Raise (AttributeError "shape")
  | Some d => Ok (shape1 d)
  end.

Definition irls_tr_build (d : Tensor) : result Op :=
  cand <- irls_tr_candidate d ;;
  n <- newton_tr_delta_shape1 ;;
  irls_tr_group cand n.

(** Lines 277 to 541. *)
Definition build_train_ops
    (plain_gradients_vars : list (Tensor * list Variable_))
  : result MultiTrainer :=
  gradients_vars <- gradients_vars_of apply_gradients plain_gradients_vars ;;
  op_GD <- standard "gd" "GradientDescentOptimizer" gradients_vars ;;
  op_Adam <- standard "adam" "AdamOptimizer" gradients_vars ;;
  op_Adagrad <- standard "adagrad" "AdagradOptimizer" gradients_vars ;;
  op_RMSProp <- standard "rmsprop" "RMSPropOptimizer" gradients_vars ;;
  op_nr <- custom "nr" newton_delta assign_group ;;
  op_nr_tr <- custom "nr_tr" newton_tr_delta nr_tr_group ;;
  op_irls <- custom "irls" irls_delta assign_group ;;
  op_irls_tr <- custom "irls_tr" irls_tr_delta irls_tr_build ;;
  Ok {| plain_gradients := plain_gradients_vars;
        gradients := gradients_vars;
        train_ops :=
          {| Trainer.train_op_GD := op_GD;
             Trainer.train_op_Adam := op_Adam;
             Trainer.train_op_Adagrad := op_Adagrad;
             Trainer.train_op_RMSProp := op_RMSProp;
             Trainer.train_op_nr := op_nr;
             Trainer.train_op_nr_tr := op_nr_tr;
             Trainer.train_op_irls := op_irls;
             Trainer.train_op_irls_tr := op_irls_tr |} |}.

(** [tf.gradients(loss, variables)] *)
Variable tf_gradients :
  option Tensor -> list Variable_ -> result (list Tensor).

(** [MultiTrainer.__init__] *)
Definition init (loss : option Tensor) (variables : option (list Variable_))
    (gradients_ : option Tensor) : result MultiTrainer :=
  TrainerInit.init tf_gradients build_train_ops loss variables gradients_.

End Build.

(** [for g, v in pairs: if v is variable: return g], then
    [return None]. *)
Fixpoint lookup_gradient (pairs : list (Tensor * list Variable_))
    (variable : list Variable_) : option Tensor :=
  match pairs with
  | [] => None
  | (g, v) :: rest =>
      if same_object v variable then Some g
      else lookup_gradient rest variable
  end.

Definition gradient_by_variable (self : MultiTrainer)
    (variable : list Variable_) : option Tensor :=
  lookup_gradient (gradients self) variable.

Definition plain_gradient_by_variable (self : MultiTrainer)
    (variable : list Variable_) : option Tensor :=
  lookup_gradient (plain_gradients self) variable.

(** [self.train_op_by_name(name)] *)
Definition train_op_by_name (self : MultiTrainer) (name : string)
  : result Op :=
  Trainer.train_op_by_name (train_ops self) name.

End WithTensors.

Arguments ApplyCallable {Tensor Variable_} f.
Arguments ApplyDict {Tensor Variable_} d.
Arguments ApplyNone {Tensor Variable_}.

End TrainerBuild.

(** The lowercase names that [train_op_by_name] tests for. *)
Definition recognised_names : list string :=
  Trainer.gd_names ++ ["adam"; "adagrad"; "rmsprop"; "bfgs"]%string
  ++ Trainer.newton_names ++ Trainer.newton_tr_names
  ++ Trainer.irls_names ++ Trainer.irls_tr_names.

(* ================================================================= *)
(** ** Calls of [apply_constraints] and [ModelVars.__init__] *)

Module Vars.
Section ModelVarsInit.

Context {F : Type} {arith : TfArith F} {cmp : TfCompare F}
        {limits : DtypeLimits F}.

Variable n_features : nat.

(** The values that the callers pass to [apply_constraints]. *)
Inductive pyval : Type :=
| PyNone
| PyArray (t : tensor F)
| PyDtype (name : string).

Definition bound (name : string) (frame : list (string * pyval))
  : option pyval :=
  match find (fun kv => (fst kv =? name)%string) frame with
  | Some kv => Some (snd kv)
  | None => None
  end.

(** Python's binding of the positional and keyword arguments of a call
    to the parameters of a [def] that has no starred parameter:
    the positional arguments fill the first parameters; each keyword
    must name a parameter that is still empty; no positional argument
    may be left over; an empty parameter takes its default, if it has
    one. *)
Fixpoint bind_keywords (fname : string) (params : list string)
    (kwargs frame : list (string * pyval)) : result (list (string * pyval)) :=
  match kwargs with
  | [] => Ok frame
  | (k, v) :: rest =>
      if negb (existsb (String.eqb k) params) then
        Raise (TypeError
                 (fname ++ "() got an unexpected keyword argument '" ++ k
                        ++ "'"))
      else
        match bound k frame with
        | Some _ =>
            Raise (TypeError
                     (fname ++ "() got multiple values for argument '" ++ k
                            ++ "'"))
        | None => bind_keywords fname params rest (frame ++ [(k, v)])
        end
  end.

Fixpoint fill_defaults (fname : string) (params : list string)
    (defaults frame : list (string * pyval)) : result (list pyval) :=
  match params with
  | [] => Ok []
  | p :: rest =>
      v <- match bound p frame with
           | Some v => Ok v
           | None =>
               match bound p defaults with
               | Some v => Ok v
               | None =>
                   Raise (TypeError
                            (fname ++ "() missing required argument '" ++ p
                                   ++ "'"))
               end
           end ;;
      vs <- fill_defaults fname rest defaults frame ;;
      Ok (v :: vs)
  end.

Definition bind_call (fname : string) (params : list string)
    (defaults : list (string * pyval))
    (args : list pyval) (kwargs : list (string * pyval))
  : result (list pyval) :=
  frame <- bind_keywords fname params kwargs (combine params args) ;;
  if length params <? length args then
    Raise (TypeError (fname ++ "() takes too many positional arguments"))
  else
    fill_defaults fname params defaults frame.

(** [def apply_constraints(constraints, dtype, var_all=None,
    var_indep=None)] *)
Definition apply_constraints_params : list string :=
  ["constraints"; "dtype"; "var_all"; "var_indep"]%string.

Definition apply_constraints_defaults : list (string * pyval) :=
  [("var_all", PyNone); ("var_indep", PyNone)]%string.

Definition as_tensor_option (v : pyval) : result (option (tensor F)) :=
  match v with
  | PyNone => Ok None
  | PyArray t => Ok (Some t)
  | PyDtype _ => Raise (TypeError "expected a tensor")
  end.

(** A call of [apply_constraints] with the given positional and keyword
    arguments. *)
Definition call_apply_constraints (args : list pyval)
    (kwargs : list (string * pyval)) : result (tensor F) :=
  frame <- bind_call "apply_constraints" apply_constraints_params
                     apply_constraints_defaults args kwargs ;;
  match frame with
  | [PyArray constraints; _; var_all; var_indep] =>
      var_all <- as_tensor_option var_all ;;
      var_indep <- as_tensor_option var_indep ;;
      apply_constraints n_features constraints var_all var_indep
  | _ => Raise (TypeError "expected an array of constraints")
  end.

(** [np.any(constraints == -1, axis=0)] *)
Definition is_dep (constraints : tensor F) : list bool :=
  map (fun c =>
         existsb (fun constr => fequal (nth c constr fzero) minus_one)
                 constraints)
      (seq 0 (n_params constraints)).

(** [np.where(is_dep == False)[0]] *)
Definition where_false (l : list bool) : list nat :=
  filter (fun i => Bool.eqb (nth i l true) false) (seq 0 (length l)).

(** The attributes of a [ModelVars]. *)
Record ModelVars : Type := {
  a : tensor F;
  b : tensor F;
  a_var : tensor F;
  b_var : tensor F;
  params : tensor F;
  converged : list bool;
  mv_n_features : nat
}.

(** [tf.concat([s, t], axis=0)], for tensors of [n_features] columns. *)
Definition tf_concat_axis0 (s t : tensor F) : result (tensor F) :=
  if has_colsb n_features s && has_colsb n_features t then Ok (s ++ t)
  else Raise (ValueError "Dimension 1 in both shapes must be equal").

(** [ModelVars.__init__] *)
Definition ModelVars_init (dtype : string) (init_a init_b : tensor F)
    (constraints_loc constraints_scale : option (tensor F))
  : result ModelVars :=
  let init_a := tf_clip_param init_a name_a in
  let init_b := tf_clip_param init_b name_b in
  init_a <- match constraints_loc with
            | Some c => tf_gather init_a (where_false (is_dep c))
            | None => Ok init_a
            end ;;
  init_b <- match constraints_scale with
            | Some c => tf_gather init_b (where_false (is_dep c))
            | None => Ok init_b
            end ;;
  params <- tf_concat_axis0 init_a init_b ;;
  let a_var := firstn (length init_a) params in
  let b_var := skipn (length init_a) params in
  a <- match constraints_loc with
       | Some c =>
           call_apply_constraints [PyArray c; PyArray a_var]
                                  [("dtype"%string, PyDtype dtype)]
       | None => Ok a_var
       end ;;
  b <- match constraints_scale with
       | Some c =>
           call_apply_constraints [PyArray c; PyArray b_var]
                                  [("dtype"%string, PyDtype dtype)]
       | None => Ok b_var
       end ;;
  Ok {| a := tf_clip_param a name_a;
        b := tf_clip_param b name_b;
        a_var := a_var;
        b_var := b_var;
        params := params;
        converged := repeat false n_features;
        mv_n_features := n_features |}.

(** The calls at lines 202 and 205 of [BasicModelGraph.__init__]:
    [apply_constraints(constraints=c, var_all=a, dtype=dtype)]. *)
Definition BasicModelGraph_apply_constraints (dtype : string)
    (c var_all : tensor F) : result (tensor F) :=
  call_apply_constraints []
    [("constraints"%string, PyArray c); ("var_all"%string, PyArray var_all);
     ("dtype"%string, PyDtype dtype)].

End ModelVarsInit.
End Vars.

(* ================================================================= *)
(** ** States of a [StopAtLossHook] inside its first window *)

Module StopAtLossStates.

Import StopAtLoss.

(** A value that is infinite or not a number. *)
Definition unbounded (x : npfloat) : Prop := x = Inf \/ x = NaN.

(** The state of the hook after [k] evaluations from step [s], inside
    the first window: the entries of the history that have not been
    written are still infinite, and the mean of the last window, if
    there is one, is infinite or not a number. *)
Definition warming_up (W s k : nat) (self : StopAtLossHook) : Prop :=
  length (_loss_history self) = W
  /\ (exists last, _last_step self = Some last /\ last <= s + k)
  /\ (_last_loss self = None
      \/ exists x, _last_loss self = Some x /\ unbounded x)
  /\ forall j, k <= j < W -> nth ((s + j) mod W) (_loss_history self) NaN = Inf.


End StopAtLossStates.

(* ================================================================= *)
(** ** [TimedRunHook] *)

Module TimedRun.

Import StopAtLoss.

(** A call of [call_fn]: in the calling thread, with the time measures
    that the list holds at the call, or in a new thread, which is handed
    the list itself. *)
Inductive call : Type :=
| Called (global_step : Z) (time_measures : list Q)
         (request_data : list (string * fetched))
| Started (global_step : Z) (request_data : list (string * fetched)).

(** The attributes of the hook.  Times are exact rationals; each reading
    of [time.time()] is an argument of the method that reads the clock.
    [_next_step] is set by [begin] and [_start_time] by [before_run]: the
    outer [None] is an attribute that has not been set.  [call_fn] is
    [true] when a callable has been given. *)
Record TimedRunHook : Type := {
  _time_measures : list Q;
  _threads : list call;
  _step_offset : Z;
  call_request_tensors : option (list string);
  call_fn : bool;
  asynchronous : bool;
  run_secs : option Q;
  run_steps : option Z;
  _next_step : option (option Z);
  _start_time : option Q
}.

Definition init (run_steps : option Z) (step_offset : Z)
    (run_secs : option Q) (call_request_tensors : option (list string))
    (call_fn asynchronous : bool) : TimedRunHook :=
  {| _time_measures := [];
     _threads := [];
     _step_offset := step_offset;
     call_request_tensors := call_request_tensors;
     call_fn := call_fn;
     asynchronous := asynchronous;
     run_secs := run_secs;
     run_steps := run_steps;
     _next_step := None;
     _start_time := None |}.

Definition set_next_step (self : TimedRunHook) (v : option Z)
  : TimedRunHook :=
  {| _time_measures := _time_measures self;
     _threads := _threads self;
     _step_offset := _step_offset self;
     call_request_tensors := call_request_tensors self;
     call_fn := call_fn self;
     asynchronous := asynchronous self;
     run_secs := run_secs self;
     run_steps := run_steps self;
     _next_step := Some v;
     _start_time := _start_time self |}.

Definition set_start_time (self : TimedRunHook) (t : Q) : TimedRunHook :=
  {| _time_measures := _time_measures self;
     _threads := _threads self;
     _step_offset := _step_offset self;
     call_request_tensors := call_request_tensors self;
     call_fn := call_fn self;
     asynchronous := asynchronous self;
     run_secs := run_secs self;
     run_steps := run_steps self;
     _next_step := _next_step self;
     _start_time := Some t |}.

Definition set_measures (self : TimedRunHook) (measures : list Q)
    (threads : list call) : TimedRunHook :=
  {| _time_measures := measures;
     _threads := threads;
     _step_offset := _step_offset self;
     call_request_tensors := call_request_tensors self;
     call_fn := call_fn self;
     asynchronous := asynchronous self;
     run_secs := run_secs self;
     run_steps := run_steps self;
     _next_step := _next_step self;
     _start_time := _start_time self |}.

(** [begin]: [tf.train.get_or_create_global_step()] returns a tensor. *)
Definition begin (self : TimedRunHook) : TimedRunHook :=
  set_next_step self None.

(** [np.sum(self._time_measures)] *)
Definition np_sum (l : list Q) : Q := fold_left Qplus l 0%Q.

(** [x > y] *)
Definition Qgtb (x y : Q) : bool := negb (Qle_bool x y).

(** [shall_request], with the reading of the clock that its second test
    makes. *)
Definition shall_request (self : TimedRunHook) (now : Q) : result bool :=
  by_steps <-
    match run_steps self with
    | None => Ok false
    | Some n =>
        match _next_step self with
        | None => Raise (AttributeError "_next_step")
        | Some None =>
            Raise (TypeError
              "unsupported operand type(s) for -: 'NoneType' and 'int'")
        | Some (Some next) =>
            if (n =? 0)%Z then Raise ZeroDivisionError
            else Ok (((next - _step_offset self) mod n =? 0)%Z)
        end
    end ;;
  if by_steps then Ok true
  else
    match run_secs self with
    | None => Ok false
    | Some _ =>
        Ok ((0 <? length (_time_measures self))
            && Qgtb (np_sum (_time_measures self)) now)
    end.

(** [before_run], given the value of the global step in the session and
    two readings of the clock; returns the keys of the requested
    fetches. *)
Definition before_run (self : TimedRunHook) (session_step : Z)
    (now_request now_start : Q) : result (TimedRunHook * list string) :=
  match _next_step self with
  | None => Raise (AttributeError "_next_step")
  | Some next =>
      let self :=
        match next with
        | None => set_next_step self (Some (session_step + 1)%Z)
        | Some _ => self
        end in
      request <- shall_request self now_request ;;
      let requests :=
        "global_step"%string
        :: (if request then
              match call_request_tensors self with
              | Some keys =>
                  filter (fun k => negb (k =? "global_step")%string) keys
              | None => []
              end
            else []) in
      Ok (set_start_time self now_start, requests)
  end.

(** [after_run], given two readings of the clock; returns the call of
    [call_fn] that it makes, if any. *)
Definition after_run (self : TimedRunHook) (run_values : SessionRunValues)
    (now_end now_request : Q) : result (TimedRunHook * option call) :=
  match _start_time self with
  | None => Raise (AttributeError "_start_time")
  | Some start =>
      let time_delta := (now_end - start)%Q in
      step <- TimedRunHook_global_step run_values ;;
      let global_step := Z.of_nat step in
      match _next_step self with
      | None => Raise (AttributeError "_next_step")
      | Some None =>
          Raise (TypeError
            "'<' not supported between instances of 'int' and 'NoneType'")
      | Some (Some next) =>
          if (global_step <? next)%Z then Ok (self, None)
          else
            let measures := _time_measures self ++ [time_delta] in
            let self := set_measures self measures (_threads self) in
            request <- shall_request self now_request ;;
            let done :=
              if request then
                if call_fn self then
                  let request_data :=
                    filter (fun kv => negb (fst kv =? "global_step")%string)
                           (results run_values) in
                  if asynchronous self then
                    let thread := Started global_step request_data in
                    (set_measures self [] (_threads self ++ [thread]),
                     Some thread)
                  else
                    (set_measures self [] (_threads self),
                     Some (Called global_step measures request_data))
                else (set_measures self [] (_threads self), None)
              else (self, None) in
            Ok (set_next_step (fst done) (Some (global_step + 1)%Z),
                snd done)
      end
  end.

(** One monitored run: the step that the session is at, the values that
    the run fetches and the four readings of the clock, in the order in
    which the hook takes them. *)
Record session_run : Type := {
  session_step : Z;
  run_values : SessionRunValues;
  t_request : Q;
  t_start : Q;
  t_end : Q;
  t_call : Q
}.

Definition readings (r : session_run) : list Q :=
  [t_request r; t_start r; t_end r; t_call r].

(** A sequence of monitored runs; returns the calls of [call_fn], in
    order. *)
Fixpoint run_loop (self : TimedRunHook) (runs : list session_run)
  : result (TimedRunHook * list call) :=
  match runs with
  | [] => Ok (self, [])
  | r :: rest =>
      b <- before_run self (session_step r) (t_request r) (t_start r) ;;
      a <- after_run (fst b) (run_values r) (t_end r) (t_call r) ;;
      l <- run_loop (fst a) rest ;;
      Ok (fst l,
          match snd a with
          | Some c => c :: snd l
          | None => snd l
          end)
  end.


(** The readings of the clock never go back: each run takes its four
    readings in order, not before the time [t]. *)
Fixpoint chronological (t : Q) (runs : list session_run) : Prop :=
  match runs with
  | [] => True
  | r :: rest =>
      (t <= t_request r)%Q
      /\ (t_request r <= t_start r)%Q
      /\ (t_start r <= t_end r)%Q
      /\ (t_end r <= t_call r)%Q
      /\ chronological (t_call r) rest
  end.


End TimedRun.

(* ================================================================= *)
(** ** [generate_sample_description] of the simulators *)

Module Simulator.

(** What NumPy raises in this function. *)
Inductive np_exn : Type :=
| NegativeRepeats
| IndexError (msg : string).

Inductive outcome (A : Type) : Type :=
| Returns (a : A)
| Fails (e : np_exn).

Arguments Returns {A} a.
Arguments Fails {A} e.

Definition and_then {A B : Type} (m : outcome A) (k : A -> outcome B)
  : outcome B :=
  match m with
  | Returns a => k a
  | Fails e => Fails e
  end.

(** [math.ceil(n / d)] for a positive [d]; the float quotient is exact
    enough for this as long as [n] is below [2^53]. *)
Definition ceil_div (n d : nat) : nat := (n + d - 1) / d.

(** [np.repeat(range(k), reps)]: every element [reps] times, in order. *)
Definition np_repeat_range (k reps : nat) : list nat :=
  flat_map (fun x => repeat x reps) (seq 0 k).

(** [np.tile([np.arange(k)], reps)]: an array of one row, which holds
    the range [reps] times; the value is that row. *)
Definition np_tile_row (k reps : nat) : list nat :=
  concat (repeat (seq 0 k) reps).

(** An array of at most one dimension. *)
Inductive ndarray : Type :=
| Scalar0d (x : nat)
| Array1d (l : list nat).

(** [np.squeeze] of an array of one row: every axis of length one goes,
    so that a row of one element becomes an array without axes. *)
Definition np_squeeze (row : list nat) : ndarray :=
  match row with
  | [x] => Scalar0d x
  | _ => Array1d row
  end.

(** [arr[range(n)]] *)
Definition index_range (arr : ndarray) (n : nat) : outcome (list nat) :=
  match arr with
  | Scalar0d _ =>
      Fails (IndexError "too many indices for array")
  | Array1d l =>
      if n <=? length l then Returns (firstn n l)
      else Fails (IndexError "index out of bounds")
  end.

(** [x.astype(str)] on one non-negative integer. *)
Definition str (x : nat) : string := NilZero.string_of_uint (Nat.to_uint x).

(** The data variables and the [formula] attribute of the returned
    [xr.Dataset]; a missing column is [None]. *)
Record sample_description : Type := {
  intercept : list Z;
  batch : option (list string);
  condition : option (list string);
  formula : string
}.

Definition generate_sample_description
    (num_observations num_batches num_conditions : Z)
  : outcome sample_description :=
  let var_list := ["~ 1"%string] in
  if (num_observations <? 0)%Z then Fails NegativeRepeats
  else
    let n := Z.to_nat num_observations in
    let intercept := repeat 1%Z n in
    and_then
      (if (0 <? num_batches)%Z then
         let reps_batches := ceil_div n (Z.to_nat num_batches) in
         let batches := np_repeat_range (Z.to_nat num_batches) reps_batches in
         and_then (index_range (Array1d batches) n)
                  (fun batches =>
                     Returns (Some (map str batches),
                              var_list ++ ["batch"%string]))
       else Returns (None, var_list))
      (fun bv =>
         let var_list := snd bv in
         and_then
           (if (0 <? num_conditions)%Z then
              let reps_conditions := ceil_div n (Z.to_nat num_conditions) in
              let conditions :=
                np_squeeze (np_tile_row (Z.to_nat num_conditions)
                                        reps_conditions) in
              and_then (index_range conditions n)
                       (fun conditions =>
                          Returns (Some (map str conditions),
                                   var_list ++ ["condition"%string]))
            else Returns (None, var_list))
           (fun cv =>
              Returns {| intercept := intercept;
                         batch := fst bv;
                         condition := fst cv;
                         formula := String.concat " + " (snd cv) |})).

End Simulator.

(* ================================================================= *)
(** ** [GLM.setMethod] of the tf2 model *)

Module GLMModel.

(** The bound methods that [setMethod] stores in [self._calc]. *)
Inductive calc_method : Type :=
| return_jacobians
| calc_hessians
| calc_fim.

Definition jacobian_optimizers : list string :=
  ["gd"; "adam"; "adagrad"; "rmsprop"]%string.
Definition hessian_optimizers : list string := ["nr"; "nr_tr"]%string.
Definition fim_optimizers : list string :=
  ["irls"; "irls_tr"; "irls_gd"; "irls_gd_tr"]%string.

(** [setMethod] as a function of the [_calc] attribute: [None] when the
    attribute has not been set.  The chain of tests has no [else]. *)
Definition setMethod (_calc : option calc_method) (optimizer : string)
  : option calc_method :=
  let optimizer := lower optimizer in
  if Trainer.one_of optimizer jacobian_optimizers then Some return_jacobians
  else if Trainer.one_of optimizer hessian_optimizers then Some calc_hessians
  else if Trainer.one_of optimizer fim_optimizers then Some calc_fim
  else _calc.

End GLMModel.

(* ================================================================= *)
(** ** More example inputs *)

Module Sample.

Definition qc := Example.qc.

(** Two full parameter tensors for [Example.constraints]: the rows of the
    independent columns 0 and 1 are those of [Example.var_indep], the
    rows of the dependent columns 2 and 3 differ. *)
Definition full_a : tensor Qc :=
  Example.var_indep ++ [[qc 0; qc 0]; [qc 0; qc 0]].
Definition full_b : tensor Qc :=
  Example.var_indep ++ [[qc 1; qc 2]; [qc 3; qc 4]].

(** One independent row where [Example.constraints] needs two. *)
Definition short_indep : tensor Qc := [[qc 3; qc 5]].


Definition design : tensor Qc := [[qc 1]; [qc 1]].

(** A trust-region state whose radius is 1 for every feature, and a
    proposal that every feature accepts under [Example.ll_at]. *)
Definition unit_state : train_state Qc :=
  {| variables := [[qc 1; qc 2; qc 2]];
     nr_tr_radius := repeat (qc 1) 3;
     features_updated := [false; false; false];
     global_step := 0 |}.
Definition unit_delta : tensor Qc := [[qc 1; qc 1; qc 1]].
Definition unit_gain : vector Qc := [qc 1; qc 1; qc 1].

(** A trainer over named tensors and ops: every optimizer is asked for
    and every update is given. *)
Definition all_optimizers : option (list (string * bool)) :=
  Some (map (fun key => (key, true)) TrainerBuild.optimizer_keys).

Definition same_variables (u v : list nat) : bool :=
  if list_eq_dec Nat.eq_dec u v then true else false.

Definition trainer : result (TrainerBuild.MultiTrainer string nat string) :=
  TrainerBuild.init
    same_variables
    (fun cls _ => Ok cls)
    (fun delta => Ok ("assign " ++ delta)%string)
    (fun delta => Ok ("nr_tr " ++ delta)%string)
    (fun delta => Ok delta)
    (fun cand _ => Ok ("irls_tr " ++ cand)%string)
    (fun _ => 3)
    (TrainerBuild.ApplyCallable (fun g => Ok ("clipped " ++ g)%string))
    all_optimizers
    (Some "newton_delta"%string) (Some "irls_delta"%string)
    (Some "newton_tr_delta"%string) (Some "irls_tr_delta"%string)
    None
    (fun _ _ => Ok [])
    None (Some [0]) (Some "gradients"%string).

(** Three monitored runs of one second each, one step per run, with a
    clock that starts at 100. *)
Definition fetch (step : nat) : StopAtLoss.SessionRunValues :=
  {| StopAtLoss.results :=
       [("global_step"%string, StopAtLoss.FetchedStep step)];
     StopAtLoss.options := None;
     StopAtLoss.run_metadata := None |}.

Definition three_runs : list TimedRun.session_run :=
  map (fun i =>
         {| TimedRun.session_step := Z.of_nat i;
            TimedRun.run_values := fetch (S i);
            TimedRun.t_request := inject_Z (100 + 2 * Z.of_nat i);
            TimedRun.t_start := inject_Z (100 + 2 * Z.of_nat i);
            TimedRun.t_end := inject_Z (101 + 2 * Z.of_nat i);
            TimedRun.t_call := inject_Z (101 + 2 * Z.of_nat i) |})
      [0; 1; 2].


End Sample.

(* ================================================================= *)
(** * Theorems *)

(** C4.  [train_op_by_name] dispatches each of the six IRLS trust-region
    names, in any letter case handled by [lower], to the plain IRLS train
    op ([train_op_irls]) and never to [train_op_irls_tr]: on a trainer
    holding two different ops the name ["IRLS_TR"] returns the plain IRLS
    op.  The documented result for these names is the IRLS trust-region
    op. *)
Theorem train_op_by_name_irls_tr_returns_plain_irls :
  (forall (Op : Type) (self : Trainer.MultiTrainer Op),
      Forall (fun name =>
                Trainer.train_op_by_name self name
                = Trainer.provided (Trainer.train_op_irls self)
                    "IRLS not provided in initialization.")
             (Trainer.irls_tr_names ++ ["IRLS_TR"; "Irls-Trust-Region"]%string))
  /\ (let self :=
        {| Trainer.train_op_GD := None; Trainer.train_op_Adam := None;
           Trainer.train_op_Adagrad := None; Trainer.train_op_RMSProp := None;
           Trainer.train_op_nr := None; Trainer.train_op_nr_tr := None;
           Trainer.train_op_irls := Some "op_irls"%string;
           Trainer.train_op_irls_tr := Some "op_irls_tr"%string |} in
      Trainer.train_op_by_name self "irls_tr" = Ok "op_irls"%string
      /\ Trainer.train_op_by_name self "irls_tr"
         <> Trainer.provided (Trainer.train_op_irls_tr self)
              "IRLS trust-region not provided in initialization.").
Proof.
  split.
  - intros Op self.
    repeat (apply Forall_cons; [reflexivity|]).
    apply Forall_nil.
  - cbv zeta. split; [reflexivity|].
    intro H. vm_compute in H. discriminate H.
Qed.

(** C10.  With [gradients=None] and [variables] given, the constructor
    never returns: once [tf.gradients] has returned, the comprehension
    reads the local [plain_gradients_vars] before any assignment to it,
    which raises the unbound-name error; an exception of [tf.gradients]
    itself is the only other outcome. *)
Theorem init_without_gradients_raises_unbound_local :
  forall (Tensor Variable_ Trainer_ : Type)
         (tf_gradients :
            option Tensor -> list Variable_ -> result (list Tensor))
         (build_train_ops : list (Tensor * list Variable_) -> result Trainer_)
         (loss : option Tensor) (vs : list Variable_),
    TrainerInit.init tf_gradients build_train_ops loss (Some vs) None
    = (_ <- tf_gradients loss vs ;;
       Raise (UnboundLocalError "plain_gradients_vars"))
    /\ is_ok (TrainerInit.init tf_gradients build_train_ops loss (Some vs) None)
       = false.
Proof.
  intros Tensor Variable_ Trainer_ tfg build loss vs.
  unfold TrainerInit.init, TrainerInit.bind_plain_gradients_vars.
  destruct (tfg loss vs) as [g|e]; simpl; split; reflexivity.
Qed.

(* ----------------------------------------------------------------- *)
(** ** Lists and tensors *)

Lemma length_map2 : forall (A B C : Type) (f : A -> B -> C) u v,
    length (map2 f u v) = Nat.min (length u) (length v).
Proof.
  intros. unfold map2. now rewrite length_map, length_combine.
Qed.

Lemma nth_map2 : forall (A B C : Type) (f : A -> B -> C) u v i da db dc,
    i < length u -> i < length v ->
    nth i (map2 f u v) dc = f (nth i u da) (nth i v db).
Proof.
  intros A B C f u. unfold map2.
  induction u as [|x u IH]; intros v i da db dc Hu Hv; simpl in *.
  - lia.
  - destruct v as [|y v]; simpl in *; [lia|].
    destruct i as [|i]; [reflexivity|].
    apply IH; lia.
Qed.

Lemma nth_map_lt : forall (A B : Type) (f : A -> B) l i d d',
    i < length l -> nth i (map f l) d' = f (nth i l d).
Proof.
  intros A B f l. induction l as [|x l IH]; intros i d d' Hi; simpl in *.
  - lia.
  - destruct i as [|i]; [reflexivity|]. apply IH. lia.
Qed.

Lemma nth_map_seq : forall (A : Type) (g : nat -> A) n i d,
    i < n -> nth i (map g (seq 0 n)) d = g i.
Proof.
  intros A g n i d Hi.
  rewrite (nth_indep _ d (g 0)) by (rewrite length_map, length_seq; lia).
  rewrite map_nth, seq_nth by lia. reflexivity.
Qed.

Lemma map_nth_seq_id : forall (A : Type) (l : list A) d,
    map (fun k => nth k l d) (seq 0 (length l)) = l.
Proof.
  intros A l d. apply (nth_ext _ _ d d).
  - now rewrite length_map, length_seq.
  - intros k Hk. rewrite length_map, length_seq in Hk.
    now rewrite nth_map_seq.
Qed.

Section TensorFacts.

Context {F : Type} {arith : TfArith F}.

Lemma length_column : forall (t : tensor F) j,
    length (column t j) = length t.
Proof. intros. unfold column. apply length_map. Qed.

Lemma nth_column : forall (t : tensor F) j i,
    nth i (column t j) fzero = entry t i j.
Proof.
  intros t j i. unfold column, entry.
  destruct (Nat.lt_ge_cases i (length t)) as [Hi|Hi].
  - now rewrite (nth_map_lt _ _ []).
  - rewrite (nth_overflow (map _ t)) by now rewrite length_map.
    rewrite (nth_overflow t) by assumption.
    now destruct j.
Qed.

Lemma length_tmap2 : forall (f : F -> F -> F) (s t : tensor F),
    length (tmap2 f s t) = Nat.min (length s) (length t).
Proof. intros. apply length_map2. Qed.

Lemma entry_tmap2 : forall (f : F -> F -> F) (s t : tensor F) n i j,
    has_cols n s -> has_cols n t ->
    i < length s -> i < length t -> j < n ->
    entry (tmap2 f s t) i j = f (entry s i j) (entry t i j).
Proof.
  intros f s t n i j Hs Ht His Hit Hj. unfold entry, tmap2.
  rewrite (nth_map2 _ _ _ [] [] []) by assumption.
  unfold has_cols in *. rewrite Forall_forall in Hs, Ht.
  apply nth_map2.
  - rewrite (Hs (nth i s [])); [assumption | now apply nth_In].
  - rewrite (Ht (nth i t [])); [assumption | now apply nth_In].
Qed.

Lemma has_cols_tmap2 : forall (f : F -> F -> F) (s t : tensor F) n,
    has_cols n s -> has_cols n t -> has_cols n (tmap2 f s t).
Proof.
  intros f s. unfold has_cols, tmap2, map2.
  induction s as [|x s IH]; intros t n Hs Ht; simpl.
  - constructor.
  - destruct t as [|y t]; simpl; [constructor|].
    inversion Hs; inversion Ht; subst.
    constructor.
    + rewrite length_map, length_combine. lia.
    + now apply IH.
Qed.

Lemma entry_tmap : forall (f : F -> F) (t : tensor F) n i j,
    has_cols n t -> i < length t -> j < n ->
    entry (tmap f t) i j = f (entry t i j).
Proof.
  intros f t n i j Ht Hi Hj. unfold entry, tmap.
  rewrite (nth_map_lt _ _ []) by assumption.
  unfold has_cols in Ht. rewrite Forall_forall in Ht.
  apply nth_map_lt.
  rewrite (Ht (nth i t [])); [assumption | now apply nth_In].
Qed.

Lemma has_cols_tmap : forall (f : F -> F) (t : tensor F) n,
    has_cols n t -> has_cols n (tmap f t).
Proof.
  intros f t n Ht. unfold has_cols, tmap in *.
  rewrite Forall_forall in *. intros row Hrow.
  apply in_map_iff in Hrow. destruct Hrow as [row' [<- Hin]].
  rewrite length_map. now apply Ht.
Qed.

Lemma has_colsb_spec : forall n (t : tensor F),
    has_colsb n t = true <-> has_cols n t.
Proof.
  intros n t. unfold has_colsb, has_cols.
  rewrite forallb_forall, Forall_forall.
  split; intros H row Hrow; specialize (H row Hrow).
  - now apply Nat.eqb_eq.
  - now apply Nat.eqb_eq.
Qed.

Lemma length_tf_matmul : forall n (s t : tensor F),
    length (tf_matmul n s t) = length s.
Proof. intros. unfold tf_matmul. apply length_map. Qed.

Lemma has_cols_tf_matmul : forall n (s t : tensor F),
    has_cols n (tf_matmul n s t).
Proof.
  intros n s t. unfold has_cols, tf_matmul. rewrite Forall_forall.
  intros row Hrow. apply in_map_iff in Hrow. destruct Hrow as [srow [<- _]].
  now rewrite length_map, length_seq.
Qed.

Lemma entry_tf_matmul : forall n (s t : tensor F) i j,
    i < length s -> j < n ->
    entry (tf_matmul n s t) i j = dot (nth i s []) (column t j).
Proof.
  intros n s t i j Hi Hj. unfold entry, tf_matmul.
  rewrite (nth_map_lt _ _ []) by assumption.
  now rewrite nth_map_seq.
Qed.

Lemma column_tf_stack_axis1 : forall p (columns : list (vector F)) i,
    i < length columns -> length (nth i columns []) = p ->
    column (tf_stack_axis1 p columns) i = nth i columns [].
Proof.
  intros p columns i Hi Hp. unfold column, tf_stack_axis1.
  rewrite map_map. rewrite <- Hp.
  rewrite <- (map_nth_seq_id (nth i columns []) fzero) at 2.
  apply map_ext. intro k.
  now rewrite (nth_map_lt _ _ []).
Qed.

End TensorFacts.

(** C6.  With both [var_all] and [var_indep] given, [apply_constraints]
    raises a [ValueError] (that of the guard, or NumPy's for a matrix
    without rows, which is raised even earlier); with neither given it
    raises as well, on the first TensorFlow operation applied to the
    absent parameters.  In both cases no dependent row has been computed
    when the error is raised. *)
Theorem apply_constraints_both_or_neither_fails :
  forall (F : Type) (arith : TfArith F) (cmp : TfCompare F) (n_features : nat)
         (constraints var_all var_indep : tensor F),
    apply_constraints n_features constraints (Some var_all) (Some var_indep)
    = Raise (ValueError
               match constraints with
               | [] => "need at least one array to concatenate"
               | _ => "only give var_all or var_indep to apply_constraints."
               end)
    /\ rows_reconstructed n_features constraints (Some var_all) (Some var_indep)
       = 0
    /\ apply_constraints n_features constraints None None
       = Raise (ValueError
                  match constraints with
                  | [] => "need at least one array to concatenate"
                  | _ => "None values not supported."
                  end)
    /\ rows_reconstructed n_features constraints None None = 0.
Proof.
  intros F arith cmp n_features constraints var_all var_indep.
  unfold apply_constraints, rows_reconstructed, idx_dep, idx_dep_rows.
  destruct constraints as [|row rest]; simpl; repeat split; reflexivity.
Qed.

(** C1.  Running the Newton-Raphson trust-region op: for every feature
    [i], with [actual_gain = ll(theta_candidate)[i] - ll(theta)[i]] and
    [ratio = actual_gain / pred_gain[i]], the flag [features_updated[i]]
    becomes [actual_gain > eta0 and ratio > eta1]; column [i] of the
    parameters becomes column [i] of the candidate when the flag is true
    and is unchanged otherwise; and the candidate is
    [theta - radius[i] * delta] in every row of column [i]. *)
Theorem nr_tr_commits_candidate_iff_accepted :
  forall (F : Type) (arith : TfArith F) (cmp : TfCompare F) (n_features : nat)
         (eta0 eta1 eta2 t1 t2 upper_bound : F)
         (norm_log_likelihood_at : tensor F -> vector F)
         (st : train_state F) (model_ll : vector F)
         (newton_tr_delta : tensor F) (nr_tr_pred_cost_gain : vector F)
         (i : nat),
    i < n_features ->
    has_cols n_features (variables st) ->
    has_cols n_features newton_tr_delta ->
    length newton_tr_delta = length (variables st) ->
    length (nr_tr_radius st) = n_features ->
    length model_ll = n_features ->
    length nr_tr_pred_cost_gain = n_features ->
    length (norm_log_likelihood_at (theta_new st newton_tr_delta))
    = n_features ->
    let st' :=
      train_op_nr_tr n_features eta0 eta1 eta2 t1 t2 upper_bound
                     norm_log_likelihood_at st model_ll newton_tr_delta
                     nr_tr_pred_cost_gain in
    let theta_candidate := theta_new st newton_tr_delta in
    let actual_gain :=
      fsub (nth i (norm_log_likelihood_at theta_candidate) fzero)
           (nth i model_ll fzero) in
    let ratio := fdiv actual_gain (nth i nr_tr_pred_cost_gain fzero) in
    let accepted := fgreater actual_gain eta0 && fgreater ratio eta1 in
    nth i (features_updated st') false = accepted
    /\ (nth i (features_updated st') false = true
        <-> fgreater actual_gain eta0 = true /\ fgreater ratio eta1 = true)
    /\ column (variables st') i
       = (if accepted then column theta_candidate i
          else column (variables st) i)
    /\ (forall k, k < length (variables st) ->
          entry theta_candidate k i
          = fsub (entry (variables st) k i)
                 (fmul (nth i (nr_tr_radius st) fzero)
                       (entry newton_tr_delta k i)))
    /\ global_step st' = global_step st + 1.
Proof.
  intros F arith cmp n eta0 eta1 eta2 t1 t2 ub ll_at st model_ll delta pred i
         Hi Hvars Hdelta Hrows Hrad Hll Hpred Heval.
  cbv zeta.
  assert (Hactual :
            nth i (delta_f_actual ll_at st model_ll delta) fzero
            = fsub (nth i (ll_at (theta_new st delta)) fzero)
                   (nth i model_ll fzero)).
  { unfold delta_f_actual. apply nth_map2; lia. }
  assert (Hlen_actual : length (delta_f_actual ll_at st model_ll delta) = n).
  { unfold delta_f_actual. rewrite length_map2. lia. }
  assert (Hratio :
            nth i (delta_f_ratio ll_at st model_ll delta pred) fzero
            = fdiv (nth i (delta_f_actual ll_at st model_ll delta) fzero)
                   (nth i pred fzero)).
  { unfold delta_f_ratio. apply nth_map2; lia. }
  assert (Hlen_ratio : length (delta_f_ratio ll_at st model_ll delta pred) = n).
  { unfold delta_f_ratio. rewrite length_map2. lia. }
  assert (Hupd :
            nth i (update_theta eta0 eta1 ll_at st model_ll delta pred) false
            = fgreater (fsub (nth i (ll_at (theta_new st delta)) fzero)
                             (nth i model_ll fzero)) eta0
              && fgreater
                   (fdiv (fsub (nth i (ll_at (theta_new st delta)) fzero)
                               (nth i model_ll fzero))
                         (nth i pred fzero)) eta1).
  { unfold update_theta.
    rewrite (nth_map2 _ _ _ false false false)
      by (rewrite length_map; lia).
    rewrite (nth_map_lt _ _ fzero) by lia.
    rewrite (nth_map_lt _ _ fzero) by lia.
    rewrite Hratio, Hactual. reflexivity. }
  assert (Hlen_theta : length (theta_new st delta) = length (variables st)).
  { unfold theta_new, tf_subtract. rewrite length_tmap2, length_map. lia. }
  split; [exact Hupd|].
  split.
  { simpl features_updated. rewrite Hupd. apply andb_true_iff. }
  split.
  { simpl variables. unfold theta_new_nr_tr.
    rewrite column_tf_stack_axis1.
    - rewrite nth_map_seq by assumption. rewrite Hupd. reflexivity.
    - now rewrite length_map, length_seq.
    - rewrite nth_map_seq by assumption.
      destruct (nth i _ false); rewrite length_column; congruence. }
  split; [|reflexivity].
  intros k Hk. unfold theta_new, tf_subtract.
  assert (Hscaled :
            has_cols n (map (fun drow => map2 fmul (nr_tr_radius st) drow)
                            delta)).
  { unfold has_cols in *. rewrite Forall_forall in *.
    intros row Hrow. apply in_map_iff in Hrow.
    destruct Hrow as [drow [<- Hin]].
    rewrite length_map2, (Hdelta drow Hin). lia. }
  rewrite entry_tmap2 with (n := n); try assumption;
    try (rewrite length_map; lia).
  f_equal. unfold entry.
  rewrite (nth_map_lt _ _ []) by lia.
  apply nth_map2; [lia|].
  unfold has_cols in Hdelta. rewrite Forall_forall in Hdelta.
  rewrite (Hdelta (nth k delta [])); [assumption|apply nth_In; lia].
Qed.

Lemma nr_tr_commits_candidate_iff_accepted_witness :
  nth 0 (features_updated Example.step) false = true
  /\ nth 1 (features_updated Example.step) false = false
  /\ column (variables Example.step) 1 = column (variables Example.st) 1.
Proof.
  assert (H : forall i, i < 3 ->
            nth i (features_updated Example.step) false
            = nth i [true; false; true] false
            /\ column (variables Example.step) i
               = if nth i [true; false; true] false
                 then column (theta_new Example.st Example.delta) i
                 else column (variables Example.st) i).
  { intros i Hi.
    assert (Hshape : has_cols 3 (variables Example.st))
      by (repeat constructor).
    assert (Hdelta : has_cols 3 Example.delta) by (repeat constructor).
    pose proof (@nr_tr_commits_candidate_iff_accepted
                  Qc _ _ 3 Example.eta0 Example.eta1 Example.eta2 Example.t1
                  Example.t2 Example.upper_bound Example.ll_at Example.st
                  Example.model_ll Example.delta Example.pred_gain i Hi
                  Hshape Hdelta eq_refl eq_refl eq_refl eq_refl eq_refl)
      as Hthm.
    cbv zeta in Hthm. destruct Hthm as (Hflag & _ & Hcol & _).
    unfold Example.step. rewrite Hcol, Hflag.
    destruct i as [|[|[|i]]]; try lia; split; reflexivity. }
  destruct (H 0) as [H0 _]; [lia|].
  destruct (H 1) as [H1 H1c]; [lia|].
  repeat split; assumption.
Defined.

(* ----------------------------------------------------------------- *)
(** ** Order on the exact rationals *)



Lemma Qc_min_le_r : forall x y : Qc, (Qc_min x y <= y)%Qc.
Proof.
  intros x y. unfold Qc_min. destruct (Qclt_le_dec y x) as [H|H].
  - apply Qcle_refl.
  - exact H.
Qed.

Lemma Qc_max_le_r : forall x y : Qc, (y <= Qc_max x y)%Qc.
Proof.
  intros x y. unfold Qc_max. destruct (Qclt_le_dec x y) as [H|H].
  - apply Qcle_refl.
  - exact H.
Qed.

Lemma Qc_min_id : forall x y : Qc, (x <= y)%Qc -> Qc_min x y = x.
Proof.
  intros x y H. unfold Qc_min. destruct (Qclt_le_dec y x) as [H'|H'].
  - now apply Qcle_not_lt in H.
  - reflexivity.
Qed.

Lemma Qc_max_id : forall x y : Qc, (y <= x)%Qc -> Qc_max x y = x.
Proof.
  intros x y H. unfold Qc_max. destruct (Qclt_le_dec x y) as [H'|H'].
  - now apply Qcle_not_lt in H.
  - reflexivity.
Qed.


Lemma Qc_inv_nonneg : forall s : Qc, (0 < s)%Qc -> (0 <= / s)%Qc.
Proof.
  intros s Hs. unfold Qcle, Qclt, Qcinv in *. simpl in *.
  rewrite Qred_correct. apply Qlt_le_weak. now apply Qinv_lt_0_compat.
Qed.

Lemma Qc_div_nonpos : forall x s : Qc,
    (x <= 0)%Qc -> (0 < s)%Qc -> (x / s <= 0)%Qc.
Proof.
  intros x s Hx Hs. unfold Qcdiv.
  rewrite <- (Qcmult_0_l (/ s)).
  apply Qcmult_le_compat_r; [assumption | now apply Qc_inv_nonneg].
Qed.

Lemma Qc_div_nonneg : forall x s : Qc,
    (0 <= x)%Qc -> (0 < s)%Qc -> (0 <= x / s)%Qc.
Proof.
  intros x s Hx Hs. unfold Qcdiv.
  rewrite <- (Qcmult_0_l (/ s)).
  apply Qcmult_le_compat_r; [assumption | now apply Qc_inv_nonneg].
Qed.



(* ----------------------------------------------------------------- *)
(** ** The bounds clipper *)

Section ClipFacts.

Lemma clip_by_value_id : forall x lo hi : Qc,
    (lo <= x)%Qc -> (x <= hi)%Qc -> clip_by_value x lo hi = x.
Proof.
  intros x lo hi Hlo Hhi. unfold clip_by_value. simpl.
  rewrite (Qc_min_id Hhi). now apply Qc_max_id.
Qed.

Lemma clip_by_value_bounds : forall x lo hi : Qc,
    (lo <= hi)%Qc -> (lo <= clip_by_value x lo hi <= hi)%Qc.
Proof.
  intros x lo hi H. unfold clip_by_value. simpl. split.
  - apply Qc_max_le_r.
  - unfold Qc_max. destruct (Qclt_le_dec (Qc_min x hi) lo); [assumption|].
    apply Qc_min_le_r.
Qed.



Lemma tmap_idempotent : forall (F : Type) (f : F -> F) (t : tensor F),
    (forall x, f (f x) = f x) -> tmap f (tmap f t) = tmap f t.
Proof.
  intros F f t Hf. unfold tmap. rewrite map_map.
  apply map_ext. intro row. rewrite map_map. now apply map_ext.
Qed.


(** The limits of the dtype: the margin is positive, the logarithm of
    the smallest positive value is not positive, the value just below
    the logarithm of the largest value is not negative, and the smallest
    positive value does not exceed the upper bound of [mu] and [r]. *)
Context {limits : DtypeLimits Qc}.
Hypothesis margin_positive : (0 < ACCURACY_MARGIN_RELATIVE_TO_LIMIT)%Qc.
Hypothesis log_tiny_nonpos : (np_log (np_nextafter 0%Qc pos_inf) <= 0)%Qc.
Hypothesis log_max_nonneg : (0 <= np_nextafter (np_log dmax) neg_inf)%Qc.
Hypothesis tiny_le_max :
  (np_nextafter 0%Qc pos_inf
   <= np_nextafter dmax neg_inf / ACCURACY_MARGIN_RELATIVE_TO_LIMIT)%Qc.

Lemma bounds_ordered : forall name, (bounds_min name <= bounds_max name)%Qc.
Proof.
  intros name. destruct name; simpl; unfold sf;
    try (apply Qcle_trans with 0%Qc;
         [now apply Qc_div_nonpos | now apply Qc_div_nonneg]);
    try assumption.
  unfold Qcle. simpl. discriminate.
Qed.

End ClipFacts.



(* ----------------------------------------------------------------- *)
(** ** The forward model *)

Section ReduceFacts.
Context {F : Type} {arith : TfArith F}.

Lemma length_tmap : forall (f : F -> F) (t : tensor F),
    length (tmap f t) = length t.
Proof. intros. unfold tmap. apply length_map. Qed.

Lemma column_as_map : forall (t : tensor F) j,
    column t j = map (fun o => entry t o j) (seq 0 (length t)).
Proof.
  intros t j. apply (nth_ext _ _ fzero fzero).
  - now rewrite length_column, length_map, length_seq.
  - intros o Ho. rewrite length_column in Ho.
    now rewrite nth_column, nth_map_seq.
Qed.

Lemma entry_reduce_sum_axis0 : forall n (t : tensor F) j,
    j < n ->
    nth j (reduce_sum_axis0 n t) fzero
    = sum_upto (length t) (fun o => entry t o j).
Proof.
  intros n t j Hj. unfold reduce_sum_axis0, sum_upto.
  rewrite nth_map_seq by assumption. now rewrite column_as_map.
Qed.

Lemma length_reduce_sum_axis0 : forall n (t : tensor F),
    length (reduce_sum_axis0 n t) = n.
Proof. intros. unfold reduce_sum_axis0. now rewrite length_map, length_seq. Qed.

Lemma entry_reduce_mean_axis0 : forall n (t : tensor F) j,
    j < n ->
    nth j (reduce_mean_axis0 n t) fzero
    = fdiv (sum_upto (length t) (fun o => entry t o j)) (fcount (length t)).
Proof.
  intros n t j Hj. unfold reduce_mean_axis0.
  rewrite (nth_map_lt _ _ fzero) by now rewrite length_reduce_sum_axis0.
  now rewrite entry_reduce_sum_axis0.
Qed.

Lemma length_reduce_mean_axis0 : forall n (t : tensor F),
    length (reduce_mean_axis0 n t) = n.
Proof.
  intros. unfold reduce_mean_axis0.
  now rewrite length_map, length_reduce_sum_axis0.
Qed.

Lemma sum_list_map_as_sum_upto : forall (g : F -> F) (l : list F),
    sum_list (map g l) = sum_upto (length l) (fun j => g (nth j l fzero)).
Proof.
  intros g l. unfold sum_upto. f_equal.
  rewrite <- (map_nth_seq_id l fzero) at 1. now rewrite map_map.
Qed.
End ReduceFacts.

Ltac shape :=
  repeat first
    [ assumption
    | apply has_cols_tmap2
    | apply has_cols_tmap
    | apply has_cols_tf_matmul ].

Ltac rows :=
  unfold tf_add, tf_subtract, tf_multiply, tf_square, tf_clip_param;
  repeat rewrite ?length_tmap2, ?length_tmap, ?length_tf_matmul;
  lia.

(** C3, as the code has it.  For every element type: the size-factor
    offset, when there is one, is added to [design_loc . a] before the
    clip, so that entry [(o, f)] of [log_mu] is the clipped value of the
    linear predictor plus the offset (of the linear predictor alone
    without offset), and [mu] is [exp(log_mu)] entry by entry. *)
Theorem log_mu_clips_predictor_plus_offset :
  forall (F : Type) (arith : TfArith F) (math : TfMath F)
         (limits : DtypeLimits F) (n_features : nat)
         (X design_loc design_scale a b : tensor F)
         (size_factors : option (tensor F)) (o f : nat),
    o < length design_loc ->
    f < n_features ->
    (forall s, size_factors = Some s ->
               has_cols n_features s /\ length s = length design_loc) ->
    let g := model_graph n_features X design_loc design_scale a b
                         size_factors in
    let eta := dot (nth o design_loc []) (column a f) in
    entry (log_mu g) o f
    = tf_clip name_log_mu
        match size_factors with
        | Some s => fadd eta (entry s o f)
        | None => eta
        end
    /\ entry (mu g) o f = fexp (entry (log_mu g) o f).
Proof.
  intros F arith math limits n X dl ds a b sfs o f Ho Hf Hsf. cbv zeta.
  simpl log_mu. simpl mu.
  assert (Hshape : has_cols n (log_mu_of n dl a sfs)
                   /\ length (log_mu_of n dl a sfs) = length dl).
  { unfold log_mu_of. destruct sfs as [s|].
    - destruct (Hsf s eq_refl) as [Hs Hl]. split.
      + unfold tf_clip_param, tf_add. shape.
      + rows.
    - split.
      + unfold tf_clip_param. shape.
      + rows. }
  destruct Hshape as [Hcols Hrows].
  split.
  - unfold log_mu_of, tf_clip_param.
    destruct sfs as [s|].
    + destruct (Hsf s eq_refl) as [Hs Hl].
      rewrite entry_tmap with (n := n);
        [| unfold tf_add; shape | rows | assumption].
      f_equal. unfold tf_add.
      rewrite entry_tmap2 with (n := n); try assumption; try rows; shape.
      now rewrite entry_tf_matmul.
    + rewrite entry_tmap with (n := n); [| shape | rows | assumption].
      now rewrite entry_tf_matmul.
  - rewrite entry_tmap with (n := n); try assumption; try lia. reflexivity.
Qed.

(** C7.  For every element type and every count matrix [X]: with
    [mu = exp(log_mu)] and [r = exp(log_r)] entry by entry, the
    log-probability of observation [o] and feature [f] is the clipped
    value of
    [lgamma(r+x) - lgamma(x+1) - lgamma(r) + x*(log_mu - log(r+mu))
     + r*(log_r - log(r+mu))];
    the log-likelihood of a feature is the sum of its log-probabilities
    over the observations, the normalized log-likelihood is that sum
    divided by the number of observations, and the loss is the sum over
    the features of the negated normalized log-likelihood; [LossGLM]
    computes the same normalized log-likelihood and loss. *)
Theorem negative_binomial_log_likelihood_and_loss :
  forall (F : Type) (arith : TfArith F) (math : TfMath F)
         (limits : DtypeLimits F) (n_features : nat)
         (X design_loc design_scale a b : tensor F)
         (size_factors : option (tensor F)),
    has_cols n_features X ->
    length design_loc = length X ->
    length design_scale = length X ->
    (forall s, size_factors = Some s ->
               has_cols n_features s /\ length s = length X) ->
    let g := model_graph n_features X design_loc design_scale a b
                         size_factors in
    (forall o f, o < length X -> f < n_features ->
       let x := entry X o f in
       let log_mu := entry (log_mu g) o f in
       let log_r := entry (log_r g) o f in
       let mu := entry (mu g) o f in
       let r := entry (r g) o f in
       mu = fexp log_mu
       /\ r = fexp log_r
       /\ entry (log_probs g) o f
          = tf_clip name_log_probs
              (fadd
                 (fadd
                    (fsub (fsub (flgamma (fadd r x)) (flgamma (fadd x fone)))
                          (flgamma r))
                    (fmul x (fsub log_mu (flog (fadd r mu)))))
                 (fmul r (fsub log_r (flog (fadd r mu))))))
    /\ (forall f, f < n_features ->
          nth f (log_likelihood g) fzero
          = sum_upto (length X) (fun o => entry (log_probs g) o f)
          /\ nth f (norm_log_likelihood g) fzero
             = fdiv (sum_upto (length X) (fun o => entry (log_probs g) o f))
                    (fcount (length X)))
    /\ loss g
       = sum_upto n_features
                  (fun f => fneg (nth f (norm_log_likelihood g) fzero))
    /\ LossGLM_norm_log_likelihood n_features (log_probs g)
       = norm_log_likelihood g
    /\ LossGLM_call n_features (log_probs g) = loss g.
Proof.
  intros F arith math limits n X dl ds a b sfs HX Hdl Hds Hsf. cbv zeta.
  set (g := model_graph n X dl ds a b sfs).
  assert (Hlmu : has_cols n (log_mu g) /\ length (log_mu g) = length X).
  { simpl. unfold log_mu_of. destruct sfs as [s|].
    - destruct (Hsf s eq_refl) as [Hs Hl]. split.
      + unfold tf_clip_param, tf_add. shape.
      + rows.
    - split; [unfold tf_clip_param; shape | rows]. }
  destruct Hlmu as [Hlmu_c Hlmu_r].
  assert (Hlr_c : has_cols n (log_r g)) by (simpl; unfold tf_clip_param; shape).
  assert (Hlr_r : length (log_r g) = length X) by (simpl; rows).
  assert (Hmu_c : has_cols n (mu g)) by (simpl; shape).
  assert (Hmu_r : length (mu g) = length X)
    by (simpl; rewrite length_tmap; exact Hlmu_r).
  assert (Hr_c : has_cols n (r g)) by (simpl; shape).
  assert (Hr_r : length (r g) = length X)
    by (simpl; rewrite length_tmap; exact Hlr_r).
  assert (Hmu_e : forall o f, o < length X -> f < n ->
                    entry (mu g) o f = fexp (entry (log_mu g) o f)).
  { intros o f Ho Hf. change (mu g) with (tmap fexp (log_mu g)).
    rewrite entry_tmap with (n := n); try assumption; try lia. reflexivity. }
  assert (Hr_e : forall o f, o < length X -> f < n ->
                   entry (r g) o f = fexp (entry (log_r g) o f)).
  { intros o f Ho Hf. change (r g) with (tmap fexp (log_r g)).
    rewrite entry_tmap with (n := n); try assumption; try lia. reflexivity. }
  assert (Hlp_r : length (log_probs g) = length X).
  { simpl log_probs.
    change (log_mu_of n dl a sfs) with (log_mu g).
    change (tf_clip_param (tf_matmul n ds b) name_log_r) with (log_r g).
    change (tmap fexp (log_mu g)) with (mu g).
    change (tmap fexp (log_r g)) with (r g).
    unfold tf_clip_param, tf_add, tf_subtract, tf_multiply.
    repeat rewrite ?length_tmap2, ?length_tmap. lia. }
  split; [|split; [|split; [|split]]].
  - intros o f Ho Hf. split; [now apply Hmu_e|]. split; [now apply Hr_e|].
    simpl log_probs.
    change (log_mu_of n dl a sfs) with (log_mu g).
    change (tf_clip_param (tf_matmul n ds b) name_log_r) with (log_r g).
    change (tmap fexp (log_mu g)) with (mu g).
    change (tmap fexp (log_r g)) with (r g).
    unfold tf_clip_param at 1.
    unfold tf_add, tf_subtract, tf_multiply.
    assert (Hx1 : has_cols n (tmap (fun x => fadd x fone) X)) by shape.
    repeat first
      [ rewrite entry_tmap2 with (n := n)
      | rewrite entry_tmap with (n := n) ];
      try assumption; try lia; shape;
      repeat rewrite ?length_tmap2, ?length_tmap; try lia.
    reflexivity.
  - intros f Hf.
    change (log_likelihood g) with (reduce_sum_axis0 n (log_probs g)).
    change (norm_log_likelihood g) with (reduce_mean_axis0 n (log_probs g)).
    rewrite entry_reduce_sum_axis0, entry_reduce_mean_axis0 by assumption.
    rewrite Hlp_r. split; reflexivity.
  - change (loss g) with (sum_list (map fneg (norm_log_likelihood g))).
    rewrite sum_list_map_as_sum_upto.
    change (norm_log_likelihood g) with (reduce_mean_axis0 n (log_probs g)).
    now rewrite length_reduce_mean_axis0.
  - reflexivity.
  - reflexivity.
Qed.

Lemma log_mu_clips_predictor_plus_offset_witness :
  entry (mu Example.graph) 1 0 = NExp (entry (log_mu Example.graph) 1 0).
Proof.
  refine (proj2 (@log_mu_clips_predictor_plus_offset
                   node _ _ node_limits 1
                   (Example.sym "X" 2 1) (Example.sym "design_loc" 2 1)
                   (Example.sym "design_scale" 2 1) (Example.sym "a" 1 1)
                   (Example.sym "b" 1 1)
                   (Some (Example.sym "size_factors" 2 1)) 1 0 _ _ _)).
  - simpl. lia.
  - lia.
  - intros s Hs. injection Hs as <-. split; [repeat constructor | reflexivity].
Defined.

(** C3 as stated fails: with a linear predictor of 2000 and an offset of
    -2000 the code clips their sum, 0, which is inside the bounds, and
    returns 0; clipping the predictor first and adding the offset
    afterwards gives a negative value. *)
Lemma log_mu_clip_then_offset_counterexample :
  let code :=
    log_mu_of (limits := float64_limits) 1
              Example.design Example.coef (Some Example.offset) in
  let claimed :=
    log_mu_clip_then_offset (limits := float64_limits) 1
              Example.design Example.coef (Some Example.offset) in
  entry code 0 0 = 0%Qc
  /\ (entry claimed 0 0 < 0)%Qc
  /\ code <> claimed.
Proof.
  cbv zeta.
  assert (H1 : entry (log_mu_of (limits := float64_limits) 1
              Example.design Example.coef (Some Example.offset)) 0 0 = 0%Qc).
  { apply Qc_is_canon. vm_compute. reflexivity. }
  assert (H2 : (entry (log_mu_clip_then_offset (limits := float64_limits) 1
              Example.design Example.coef (Some Example.offset)) 0 0 < 0)%Qc).
  { vm_compute. reflexivity. }
  repeat split; try assumption.
  intro H. rewrite <- H, H1 in H2. revert H2. vm_compute. discriminate.
Qed.

Lemma negative_binomial_log_likelihood_and_loss_witness :
  loss Example.graph
  = sum_upto 1 (fun f => NNeg (nth f (norm_log_likelihood Example.graph)
                                   (NConst "0")))
  /\ nth 0 (log_likelihood Example.graph) (NConst "0")
     = sum_upto 2 (fun o => entry (log_probs Example.graph) o 0).
Proof.
  pose proof (@negative_binomial_log_likelihood_and_loss
                   node _ _ node_limits 1
                   (Example.sym "X" 2 1) (Example.sym "design_loc" 2 1)
                   (Example.sym "design_scale" 2 1) (Example.sym "a" 1 1)
                   (Example.sym "b" 1 1)
                   (Some (Example.sym "size_factors" 2 1))) as H.
  cbv zeta in H.
  destruct H as (_ & Hll & Hloss & _).
  - repeat constructor.
  - reflexivity.
  - reflexivity.
  - intros s Hs. injection Hs as <-. split; [repeat constructor | reflexivity].
  - split; [exact Hloss|]. destruct (Hll 0) as [H0 _]; [lia|]. exact H0.
Defined.

(* ----------------------------------------------------------------- *)
(** ** The convergence monitor *)

Import StopAtLoss.

Lemma count_succ : forall n : nat,
    Q2Qc (inject_Z (Z.of_nat (S n))) = (Q2Qc (inject_Z (Z.of_nat n)) + 1)%Qc.
Proof.
  intro n. apply Qc_is_canon.
  unfold Qcplus, Q2Qc. cbn [this]. rewrite !Qred_correct.
  rewrite Nat2Z.inj_succ. unfold Qeq, Qplus, inject_Z. cbn [Qnum Qden].
  lia.
Qed.

Lemma count_nonzero : forall n : nat,
    0 < n -> Q2Qc (inject_Z (Z.of_nat n)) <> 0%Qc.
Proof.
  intros n Hn H. apply (f_equal this) in H.
  unfold Q2Qc in H. cbn [this] in H. apply Qred_eq_iff in H.
  unfold Qeq, inject_Z in H. cbn [Qnum Qden] in H. lia.
Qed.

Lemma np_sum_repeat : forall (c acc : Qc) (n : nat),
    fold_left np_add (repeat (Finite c) n) (Finite acc)
    = Finite (acc + Q2Qc (inject_Z (Z.of_nat n)) * c)%Qc.
Proof.
  intros c acc n. revert acc. induction n as [|n IH]; intro acc.
  - simpl. f_equal. change (Q2Qc (inject_Z 0)) with 0%Qc. ring.
  - simpl repeat. simpl fold_left. rewrite IH. f_equal.
    rewrite count_succ. ring.
Qed.

Lemma np_mean_repeat : forall (c : Qc) (n : nat),
    0 < n -> np_mean (repeat (Finite c) n) = Finite c.
Proof.
  intros c n Hn. unfold np_mean, np_sum.
  rewrite np_sum_repeat, repeat_length.
  destruct n as [|n]; [lia|]. unfold np_div_size. f_equal.
  pose proof (@count_nonzero (S n) Hn) as Hnz.
  field. exact Hnz.
Qed.

Lemma np_abs_sub_self : forall c : Qc,
    np_abs (np_sub (Finite c) (Finite c)) = Finite 0%Qc.
Proof.
  intro c. unfold np_sub. simpl. rewrite Qcplus_opp_r.
  destruct (Qclt_le_dec 0 0); [|reflexivity].
  f_equal; try ring.
Qed.

(** Exact rationals.  When the loss history holds [W] equal values [c]
    (with [W > 0]), the mean recorded at the last window boundary is [c],
    and the hook has been entered at a step not after the current one,
    the loss change is exactly 0; 0 lies below every positive threshold,
    so lines 193 to 202 of [after_run] request the stop. *)
Lemma equal_window_body_requests_stop :
  forall (self : StopAtLossHook) (c : Qc) (W global_step last_step : nat)
         (loss : npfloat),
    0 < W ->
    _loss_history self = repeat (Finite c) W ->
    _last_loss self = Some (Finite c) ->
    np_less (Finite 0%Qc) (min_loss_change self) = true ->
    _last_step self = Some last_step ->
    last_step <= global_step ->
    loss_change self = Finite 0%Qc
    /\ exists self', after_run_body self global_step loss = Ok (self', true).
Proof.
  intros self c W step last_step loss HW Hhist Hlast Hmin Hstep Hle.
  assert (Hchange : loss_change self = Finite 0%Qc).
  { unfold loss_change. rewrite Hlast, Hhist.
    rewrite np_mean_repeat by assumption. apply np_abs_sub_self. }
  split; [exact Hchange|].
  unfold after_run_body. rewrite Hstep.
  apply Nat.leb_le in Hle. rewrite Hle.
  rewrite Hchange, Hmin.
  unfold _update_loss_change, mod_size. simpl _loss_history.
  rewrite Hhist, repeat_length.
  destruct W as [|W]; [lia|]. simpl bind.
  eexists. reflexivity.
Qed.

(** The example hook, which has seen the loss 5 at the steps 0 to 3 of a
    window of three, is in such a state. *)
Lemma example_hook_body_requests_stop :
  loss_change Example.hook = Finite 0%Qc
  /\ exists self',
       after_run_body Example.hook 4 (Finite (Example.qc 5))
       = Ok (self', true).
Proof.
  apply (@equal_window_body_requests_stop Example.hook (Example.qc 5) 3 4 3
           (Finite (Example.qc 5))).
  - lia.
  - vm_compute. reflexivity.
  - assert (H : exists q, _last_loss Example.hook = Some (Finite q)
                          /\ this q = this (Example.qc 5)).
    { eexists. split; [reflexivity|]. vm_compute. reflexivity. }
    destruct H as (q & Hq & Hthis). rewrite Hq. do 2 f_equal.
    now apply Qc_decomp.
  - vm_compute. reflexivity.
  - vm_compute. reflexivity.
  - lia.
Qed.

(** C9.  On the run values that a monitored session passes, [after_run]
    raises before it looks at the loss: it reads [run_values.summary], and
    [SessionRunValues] has no such field (the sibling [TimedRunHook] reads
    [run_values.results]).  So for the example hook, whose window holds
    three equal losses and whose loss change is exactly 0, the next
    evaluation requests no stop, although the body of [after_run] would
    request it on the same fetched values. *)
Theorem after_run_raises_before_stop_request :
  (forall (self : StopAtLossHook) (run_values : SessionRunValues),
      after_run self run_values = Raise (AttributeError "summary"))
  /\ (let run_values :=
        {| results := [("global_step"%string, FetchedStep 4);
                       ("loss"%string, FetchedLoss (Finite (Example.qc 5)))];
           options := None;
           run_metadata := None |} in
      loss_change Example.hook = Finite 0%Qc
      /\ (exists self',
            after_run_body Example.hook 4 (Finite (Example.qc 5))
            = Ok (self', true))
      /\ after_run Example.hook run_values = Raise (AttributeError "summary")
      /\ TimedRunHook_global_step run_values = Ok 4).
Proof.
  split.
  - intros self run_values. reflexivity.
  - cbv zeta. destruct example_hook_body_requests_stop as [Hchange Hstop].
    repeat split; try assumption; reflexivity.
Qed.

(* ----------------------------------------------------------------- *)
(** ** The constraint reducer *)

Lemma insert_by_key_perm : forall p l,
    Permutation (insert_by_key p l) (p :: l).
Proof.
  intros p l. induction l as [|q l IH]; simpl.
  - apply Permutation_refl.
  - destruct (fst p <=? fst q).
    + apply Permutation_refl.
    + apply Permutation_trans with (q :: p :: l).
      * now apply perm_skip.
      * apply perm_swap.
Qed.

Lemma sort_by_key_perm : forall l, Permutation (sort_by_key l) l.
Proof.
  induction l as [|p l IH]; simpl.
  - apply Permutation_refl.
  - apply Permutation_trans with (p :: sort_by_key l).
    + apply insert_by_key_perm.
    + now apply perm_skip.
Qed.

Lemma insert_by_key_sorted : forall p l,
    StronglySorted key_le l -> StronglySorted key_le (insert_by_key p l).
Proof.
  intros p l Hs. induction Hs as [|q l Hs IH Hq]; simpl.
  - repeat constructor.
  - destruct (fst p <=? fst q) eqn:Hpq.
    + apply Nat.leb_le in Hpq. constructor.
      * now constructor.
      * constructor; [exact Hpq|].
        rewrite Forall_forall in *. intros z Hz.
        unfold key_le in *. specialize (Hq z Hz). lia.
    + apply Nat.leb_gt in Hpq. constructor; [exact IH|].
      rewrite Forall_forall in *. intros z Hz.
      apply (Permutation_in _ (insert_by_key_perm p l)) in Hz.
      destruct Hz as [<-|Hz].
      * unfold key_le. lia.
      * now apply Hq.
Qed.

Lemma sort_by_key_sorted : forall l, StronglySorted key_le (sort_by_key l).
Proof.
  induction l as [|p l IH]; simpl.
  - constructor.
  - now apply insert_by_key_sorted.
Qed.

Lemma sorted_keys : forall l,
    StronglySorted key_le l -> StronglySorted le (map fst l).
Proof.
  intros l Hs. induction Hs as [|q l Hs IH Hq]; simpl.
  - constructor.
  - constructor; [exact IH|].
    rewrite Forall_forall in *. intros k Hk.
    apply in_map_iff in Hk. destruct Hk as [z [<- Hz]]. now apply Hq.
Qed.

(** A sorted arrangement of [start, ..., start + n - 1] is that list. *)
Lemma sorted_perm_seq : forall n start l,
    StronglySorted le l -> Permutation l (seq start n) -> l = seq start n.
Proof.
  induction n as [|n IH]; intros start l Hs Hp.
  - simpl in *. now apply Permutation_sym, Permutation_nil in Hp.
  - destruct l as [|x l].
    + apply Permutation_nil in Hp. discriminate.
    + inversion Hs as [|? ? Hs' Hx]; subst.
      assert (Hin : In start (x :: l)).
      { apply (Permutation_in _ (Permutation_sym Hp)). simpl. now left. }
      assert (Hge : start <= x).
      { assert (Hx' : In x (seq start (S n)))
          by (apply (Permutation_in _ Hp); now left).
        apply in_seq in Hx'. lia. }
      assert (Hxs : x = start).
      { destruct Hin as [Heq|Hin]; [assumption|].
        rewrite Forall_forall in Hx. specialize (Hx start Hin). lia. }
      subst x. simpl. f_equal.
      apply IH; [assumption|].
      simpl in Hp. now apply Permutation_cons_inv in Hp.
Qed.

Lemma in_combine_seq : forall (l : list nat) start a j,
    In (a, j) (combine l (seq start (length l))) ->
    start <= j < start + length l /\ nth (j - start) l 0 = a.
Proof.
  induction l as [|x l IH]; intros start a j Hin; simpl in *.
  - contradiction.
  - destruct Hin as [Heq|Hin].
    + injection Heq as <- <-. rewrite Nat.sub_diag. split; [lia|reflexivity].
    + apply IH in Hin. destruct Hin as [Hj Hnth]. split; [lia|].
      replace (j - start) with (S (j - S start)) by lia. exact Hnth.
Qed.

Lemma map_fst_combine_seq : forall (l : list nat) start,
    map fst (combine l (seq start (length l))) = l.
Proof.
  induction l as [|x l IH]; intro start; simpl.
  - reflexivity.
  - now rewrite IH.
Qed.

Lemma np_argsort_length : forall keys, length (np_argsort keys) = length keys.
Proof.
  intro keys. unfold np_argsort. rewrite length_map.
  rewrite (Permutation_length (sort_by_key_perm _)).
  rewrite length_combine, length_seq. lia.
Qed.

Lemma np_argsort_inverse : forall n keys k,
    Permutation keys (seq 0 n) -> k < n ->
    nth k (np_argsort keys) 0 < n /\ nth (nth k (np_argsort keys) 0) keys 0 = k.
Proof.
  intros n keys k Hp Hk.
  assert (Hlen : length keys = n).
  { rewrite (Permutation_length Hp). apply length_seq. }
  set (S := sort_by_key (combine keys (seq 0 (length keys)))).
  assert (HS : Permutation S (combine keys (seq 0 (length keys))))
    by apply sort_by_key_perm.
  assert (Hkeys : map fst S = seq 0 n).
  { apply sorted_perm_seq.
    - apply sorted_keys. apply sort_by_key_sorted.
    - apply Permutation_trans with keys; [|assumption].
      rewrite <- (map_fst_combine_seq keys 0) at 1.
      now apply Permutation_map. }
  assert (HlenS : length S = n).
  { rewrite <- (length_map fst S), Hkeys. apply length_seq. }
  assert (Hin : In (nth k S (0, 0)) S) by (apply nth_In; lia).
  destruct (nth k S (0, 0)) as [a j] eqn:Hp'.
  assert (Ha : a = k).
  { change a with (fst (a, j)). rewrite <- Hp'.
    rewrite <- (nth_map_lt fst S (0, 0) 0) by lia.
    rewrite Hkeys. apply seq_nth. assumption. }
  assert (Hj : nth k (np_argsort keys) 0 = j).
  { unfold np_argsort. fold S.
    rewrite (nth_map_lt snd S (0, 0) 0) by lia. now rewrite Hp'. }
  apply (Permutation_in _ HS) in Hin.
  apply in_combine_seq in Hin. destruct Hin as [Hrange Hnth].
  rewrite Hj. rewrite Nat.sub_0_r in Hnth. subst a. split; [lia|assumption].
Qed.

Lemma tf_gather_ok : forall (F : Type) (t : tensor F) (indices : list nat),
    Forall (fun j => j < length t) indices ->
    tf_gather t indices = Ok (map (fun j => nth j t []) indices).
Proof.
  intros F t indices H. induction H as [|j l Hj Hl IH]; simpl.
  - reflexivity.
  - rewrite (nth_error_nth' t [] Hj). rewrite IH. reflexivity.
Qed.

Lemma nodupb_spec : forall l, nodupb l = true -> NoDup l.
Proof.
  induction l as [|x l IH]; simpl; intro H.
  - constructor.
  - apply andb_true_iff in H. destruct H as [Hx Hl].
    constructor; [|now apply IH].
    intro Hin. apply negb_true_iff in Hx.
    assert (Hex : existsb (Nat.eqb x) l = true).
    { apply existsb_exists. exists x. split; [assumption|apply Nat.eqb_refl]. }
    congruence.
Qed.

Lemma concat_map_singleton : forall (A : Type) (g : nat -> A) l,
    concat (map (fun i => [g i]) l) = map g l.
Proof.
  intros A g l. induction l as [|x l IH]; simpl; [reflexivity|now rewrite IH].
Qed.

Lemma combine_seq_map : forall (A : Type) (g : nat -> A) start len,
    combine (seq start len) (map g (seq start len))
    = map (fun i => (i, g i)) (seq start len).
Proof.
  intros A g start len. revert start.
  induction len as [|len IH]; intro start; simpl; [reflexivity|now rewrite IH].
Qed.

Lemma firstn_map_seq : forall (A : Type) (g : nat -> A) i m,
    i <= m -> firstn i (map g (seq 0 m)) = map g (seq 0 i).
Proof.
  intros A g i m Hi. rewrite firstn_map. f_equal.
  replace m with (i + (m - i)) by lia.
  rewrite seq_app, firstn_app, length_seq, Nat.sub_diag. simpl.
  rewrite app_nil_r. apply firstn_all2. rewrite length_seq. lia.
Qed.


Section Sums.
Context {F : Type} {arith : TfArith F}.
Hypothesis Fring : ring_theory fzero fone fadd fmul fsub fneg (@eq F).
Add Ring Fr : Fring.









End Sums.

Section WellFormed.
Context {F : Type} {arith : TfArith F} {cmp : TfCompare F}.
Hypothesis fequal_spec : forall x y : F, fequal x y = true <-> x = y.

Variable C : tensor F.
Hypothesis Hwf : well_formed C = true.

Let m := length C.
Let n := n_params C.
Let d := dep_col C.
Let deps := map d (seq 0 m).

Lemma wf_parts :
  0 < m
  /\ has_cols n C
  /\ (forall i, i < m -> length (where_minus_one (nth i C [])) = 1)
  /\ NoDup deps
  /\ (forall i i', i < i' < m -> entry C i (d i') = fzero).
Proof.
  unfold well_formed in Hwf. fold m n in Hwf.
  repeat (apply andb_true_iff in Hwf; destruct Hwf as [Hwf ?]).
  split; [now apply Nat.ltb_lt|].
  split; [now apply has_colsb_spec|].
  split.
  { intros i Hi. rewrite forallb_forall in H1.
    apply Nat.eqb_eq. apply H1. apply nth_In. exact Hi. }
  split; [now apply nodupb_spec|].
  intros i i' Hii. rewrite forallb_forall in H.
  assert (Hi : In i (seq 0 m)) by (apply in_seq; lia).
  specialize (H i Hi). rewrite forallb_forall in H.
  apply fequal_spec. apply H. apply in_seq. lia.
Qed.

Lemma wf_row_length : forall i, i < m -> length (nth i C []) = n.
Proof.
  intros i Hi. destruct wf_parts as (_ & Hc & _).
  unfold has_cols in Hc. rewrite Forall_forall in Hc.
  apply Hc. now apply nth_In.
Qed.

Lemma wf_where : forall i, i < m -> where_minus_one (nth i C []) = [d i].
Proof.
  intros i Hi. destruct wf_parts as (_ & _ & Hw & _).
  specialize (Hw i Hi). unfold d, dep_col.
  destruct (where_minus_one (nth i C [])) as [|x [|y l]]; simpl in *;
    try discriminate. reflexivity.
Qed.

Lemma wf_dep : forall i, i < m ->
    d i < n
    /\ entry C i (d i) = minus_one
    /\ (forall c, c < n -> entry C i c = minus_one -> c = d i).
Proof.
  intros i Hi. pose proof (wf_where Hi) as Hw.
  pose proof (wf_row_length Hi) as Hl.
  assert (Hin : forall c, In c (where_minus_one (nth i C []))
                          <-> c < n /\ entry C i c = minus_one).
  { intro c. unfold where_minus_one. rewrite filter_In, in_seq, Hl.
    rewrite fequal_spec. unfold entry. split.
    - intros [H1 H2]. split; [lia|assumption].
    - intros [H1 H2]. split; [lia|assumption]. }
  rewrite Hw in Hin.
  destruct (proj1 (Hin (d i))) as [H1 H2]; [now left|].
  repeat split; try assumption.
  intros c Hc Hm. destruct (proj2 (Hin c)) as [H|[]]; [now split|now symmetry].
Qed.

Lemma idx_dep_rows_spec :
  idx_dep_rows C = map (fun i => [d i]) (seq 0 m).
Proof.
  unfold idx_dep_rows.
  rewrite <- (map_nth_seq_id C []) at 1. fold m. rewrite map_map.
  apply map_ext_in. intros i Hi. apply in_seq in Hi.
  apply wf_where. lia.
Qed.

Lemma idx_dep_ok : idx_dep C = Ok deps.
Proof.
  destruct wf_parts as (Hm & _ & _ & Hnd & _).
  unfold idx_dep. rewrite idx_dep_rows_spec.
  destruct (map (fun i => [d i]) (seq 0 m)) as [|r0 rs] eqn:Hrows.
  { apply (f_equal (@length _)) in Hrows.
    rewrite length_map, length_seq in Hrows. simpl in Hrows. lia. }
  rewrite <- Hrows. f_equal.
  rewrite length_map, length_seq, combine_seq_map, map_map.
  unfold deps. rewrite <- (concat_map_singleton d (seq 0 m)). f_equal.
  apply map_ext_in. intros i Hi. apply in_seq in Hi. cbn [fst snd].
  destruct (0 <? i) eqn:Hpos; [|reflexivity].
  rewrite firstn_map_seq by lia. rewrite concat_map_singleton.
  simpl filter.
  destruct (existsb (Nat.eqb (d i)) (map d (seq 0 i))) eqn:Hex;
    [|reflexivity].
  exfalso. apply existsb_exists in Hex. destruct Hex as [x [Hx Hdx]].
  apply Nat.eqb_eq in Hdx. apply in_map_iff in Hx.
  destruct Hx as [i' [Hi' Hin']]. apply in_seq in Hin'.
  unfold deps in Hnd.
  assert (Heq : i = i').
  { apply (proj1 (NoDup_nth (map d (seq 0 m)) 0) Hnd);
      rewrite ?length_map, ?length_seq; try lia.
    rewrite !(nth_map_lt d (seq 0 m) 0 0), !seq_nth
      by (rewrite ?length_seq; lia).
    simpl. congruence. }
  lia.
Qed.

Lemma idx_indep_spec : forall c,
    In c (idx_indep C)
    <-> c < n /\ forall i, i < m -> entry C i c <> minus_one.
Proof.
  intro c. unfold idx_indep. fold n. rewrite filter_In, in_seq.
  rewrite forallb_forall. split.
  - intros [Hc H]. split; [lia|]. intros i Hi Heq.
    specialize (H (nth i C []) (nth_In _ _ Hi)).
    apply negb_true_iff in H.
    unfold entry in Heq. apply fequal_spec in Heq. congruence.
  - intros [Hc H]. split; [lia|]. intros row Hrow.
    apply (In_nth _ _ []) in Hrow. destruct Hrow as [i [Hi <-]].
    apply negb_true_iff. specialize (H i Hi).
    destruct (fequal (nth c (nth i C []) fzero) minus_one) eqn:E;
      [|reflexivity].
    apply fequal_spec in E. contradiction.
Qed.

Lemma idx_perm : Permutation (idx_indep C ++ deps) (seq 0 n).
Proof.
  destruct wf_parts as (Hm & _ & _ & Hnd & _).
  assert (Hdeps : forall c, In c deps <-> exists i, i < m /\ c = d i).
  { intro c. unfold deps. rewrite in_map_iff. split.
    - intros [i [<- Hi]]. apply in_seq in Hi. exists i.
      split; [lia|reflexivity].
    - intros [i [Hi ->]]. exists i. split; [reflexivity|apply in_seq; lia]. }
  apply NoDup_Permutation.
  - apply NoDup_app.
    + unfold idx_indep. apply NoDup_filter, seq_NoDup.
    + exact Hnd.
    + intros c Hc Hc'. apply idx_indep_spec in Hc. destruct Hc as [_ Hc].
      apply Hdeps in Hc'. destruct Hc' as [i [Hi ->]].
      apply (Hc i Hi). now apply wf_dep.
  - apply seq_NoDup.
  - intro c. rewrite in_app_iff, in_seq. split.
    + intros [Hc|Hc].
      * apply idx_indep_spec in Hc. lia.
      * apply Hdeps in Hc. destruct Hc as [i [Hi ->]].
        pose proof (wf_dep Hi). lia.
    + intros [_ Hc]. simpl in Hc.
      destruct (forallb (fun constr =>
                  negb (fequal (nth c constr fzero) minus_one)) C) eqn:E.
      * left. unfold idx_indep. apply filter_In. split; [|exact E].
        apply in_seq. fold n. lia.
      * right. apply Hdeps.
        assert (Hex : exists row, In row C
                  /\ fequal (nth c row fzero) minus_one = true).
        { clear -E. induction C as [|row rest IH]; simpl in E.
          - discriminate.
          - apply andb_false_iff in E. destruct E as [E|E].
            + exists row. split; [now left|].
              now apply negb_false_iff in E.
            + destruct (IH E) as [row' [Hin Hrow']].
              exists row'. split; [now right|assumption]. }
        destruct Hex as [row [Hin Hrow]].
        apply (In_nth _ _ []) in Hin. destruct Hin as [i [Hi <-]].
        exists i. split; [exact Hi|].
        apply wf_dep; [exact Hi|exact Hc|].
        apply fequal_spec. exact Hrow.
Qed.

Lemma deps_length : length deps = m.
Proof. unfold deps. now rewrite length_map, length_seq. Qed.

Lemma idx_length : length (idx_indep C) + m = n.
Proof.
  pose proof (Permutation_length idx_perm) as H.
  now rewrite length_app, deps_length, length_seq in H.
Qed.

(** The loop. *)
Variable n_features : nat.

Let indep := idx_indep C.
Let ni := length indep.

Lemma add_dependents_spec : forall k i0 (x : tensor F),
    length x = ni + i0 -> i0 + k <= m ->
    exists X,
      add_dependents n_features C indep deps (seq i0 k) (Some x)
      = Ok (Some X)
      /\ length X = ni + i0 + k
      /\ firstn (ni + i0) X = x
      /\ forall i, i0 <= i < i0 + k ->
           nth (ni + i) X []
           = map (fun f => dot (constraint_model C indep deps i)
                               (column (firstn (ni + i) X) f))
                 (seq 0 n_features).
Proof.
  induction k as [|k IH]; intros i0 x Hx Hk.
  - exists x. simpl. repeat split.
    + lia.
    + apply firstn_all2. lia.
    + intros i Hi. lia.
  - simpl seq. simpl add_dependents.
    unfold add_dependent at 1. unfold matmul_row.
    assert (Hcm : length (constraint_model C indep deps i0) = length x).
    { unfold constraint_model.
      rewrite !length_map, length_app, length_firstn, deps_length.
      fold ni. lia. }
    apply Nat.eqb_eq in Hcm. rewrite Hcm. simpl bind.
    set (row := map (fun j => dot (constraint_model C indep deps i0)
                                 (column x j)) (seq 0 n_features)).
    destruct (IH (S i0) (x ++ [row])) as (X & Hrun & Hlen & Hfirst & Hrows).
    { rewrite length_app. simpl. lia. }
    { lia. }
    exists X.
    assert (Hx' : firstn (ni + i0) X = x).
    { replace (ni + i0) with (Nat.min (ni + i0) (ni + S i0)) by lia.
      rewrite <- firstn_firstn, Hfirst.
      rewrite firstn_app, firstn_all2 by lia.
      replace (ni + i0 - length x) with 0 by lia. simpl.
      apply app_nil_r. }
    repeat split.
    + exact Hrun.
    + lia.
    + exact Hx'.
    + intros i Hi. destruct (Nat.eq_dec i i0) as [->|Hne].
      * rewrite Hx'.
        assert (Hnth : nth (ni + i0) X [] = nth (ni + i0) (x ++ [row]) []).
        { rewrite <- Hfirst. rewrite nth_firstn.
          destruct (ni + i0 <? ni + S i0) eqn:E; [reflexivity|].
          apply Nat.ltb_ge in E. lia. }
        rewrite Hnth, app_nth2 by lia.
        replace (ni + i0 - length x) with 0 by lia. reflexivity.
      * apply Hrows. lia.
Qed.
End WellFormed.

Section Reconstruction.
Context {F : Type} {arith : TfArith F} {cmp : TfCompare F}.
Hypothesis Fring : ring_theory fzero fone fadd fmul fsub fneg (@eq F).
Hypothesis fequal_spec : forall x y : F, fequal x y = true <-> x = y.
Add Ring Fr2 : Fring.



End Reconstruction.

Lemma Qc_fequal_spec : forall x y : Qc, Qc_eq_bool x y = true <-> x = y.
Proof.
  intros x y. split.
  - apply Qc_eq_bool_correct.
  - intros ->. unfold Qc_eq_bool. destruct (Qc_eq_dec y y) as [_|H].
    + reflexivity.
    + now contradiction H.
Qed.



(* ================================================================= *)
(** * More of the code *)

(* ----------------------------------------------------------------- *)
(** ** [apply_constraints]: projection and errors *)

Lemma tf_gather_ext : forall (F : Type) (t t' : tensor F) (indices : list nat),
    (forall c, In c indices -> nth_error t c = nth_error t' c) ->
    tf_gather t indices = tf_gather t' indices.
Proof.
  intros F t t' indices H. induction indices as [|c rest IH]; simpl.
  - reflexivity.
  - rewrite <- (H c) by now left.
    rewrite IH; [reflexivity|]. intros c' Hc'. apply H. now right.
Qed.

(** X1.  On the [var_all] path the rows of the dependent columns are
    never read: two full parameter tensors that agree on the rows of the
    independent columns give the same outcome, whatever their other rows
    hold (and whether or not the call succeeds). *)
Theorem apply_constraints_ignores_dependent_rows :
  forall (F : Type) (arith : TfArith F) (cmp : TfCompare F) (n_features : nat)
         (constraints var_all var_all' : tensor F),
    (forall c, In c (idx_indep constraints) ->
               nth_error var_all c = nth_error var_all' c) ->
    apply_constraints n_features constraints (Some var_all) None
    = apply_constraints n_features constraints (Some var_all') None.
Proof.
  intros F arith cmp nf C va va' H.
  unfold apply_constraints, select_params.
  now rewrite (tf_gather_ext va va' _ H).
Qed.

Lemma apply_constraints_ignores_dependent_rows_witness :
  apply_constraints 2 Example.constraints (Some Sample.full_a) None
  = apply_constraints 2 Example.constraints (Some Sample.full_b) None.
Proof.
  apply (@apply_constraints_ignores_dependent_rows
           Qc Qc_arith Qc_compare 2 Example.constraints
           Sample.full_a Sample.full_b).
  intros c Hc. vm_compute in Hc.
  destruct Hc as [<-|[<-|[]]]; reflexivity.
Defined.

Lemma apply_constraints_from_selected :
  forall (F : Type) (arith : TfArith F) (cmp : TfCompare F) (n_features : nat)
         (constraints : tensor F) (var_all var_indep : option (tensor F))
         (x0 : tensor F),
    select_params (idx_indep constraints) var_all var_indep = Ok (Some x0) ->
    apply_constraints n_features constraints var_all var_indep
    = apply_constraints n_features constraints None (Some x0).
Proof.
  intros F arith cmp nf C va vi x0 H. unfold apply_constraints.
  destruct (idx_dep C) as [dep|e]; simpl; [|reflexivity].
  now rewrite H.
Qed.

(** X2.  For a constraint matrix with at least one row, independent
    parameters whose number of rows is not the number of independent
    columns are refused in the first pass of the loop: the inner
    dimensions of the matrix product differ. *)
Theorem apply_constraints_wrong_height :
  forall (F : Type) (arith : TfArith F) (cmp : TfCompare F) (n_features : nat)
         (constraints var_indep : tensor F),
    constraints <> [] ->
    length var_indep <> length (idx_indep constraints) ->
    apply_constraints n_features constraints None (Some var_indep)
    = Raise (ValueError "Dimensions must be equal").
Proof.
  intros F arith cmp nf C vi HC Hlen.
  unfold apply_constraints, idx_dep, idx_dep_rows.
  destruct C as [|row rest]; [contradiction|].
  simpl map. cbv iota. simpl bind. simpl length. simpl seq.
  simpl add_dependents. unfold add_dependent at 1. unfold matmul_row.
  unfold constraint_model. simpl firstn. rewrite app_nil_r, !length_map.
  destruct (length (idx_indep (row :: rest)) =? length vi) eqn:E.
  - apply Nat.eqb_eq in E. congruence.
  - reflexivity.
Qed.

Lemma apply_constraints_wrong_height_witness :
  apply_constraints 2 Example.constraints None (Some Sample.short_indep)
  = Raise (ValueError "Dimensions must be equal").
Proof.
  apply (@apply_constraints_wrong_height
           Qc Qc_arith Qc_compare 2 Example.constraints Sample.short_indep).
  - discriminate.
  - vm_compute. discriminate.
Defined.

Section Projection.
Context {F : Type} {arith : TfArith F} {cmp : TfCompare F}.
Hypothesis fequal_spec : forall x y : F, fequal x y = true <-> x = y.

Lemma apply_constraints_result :
  forall (n_features : nat) (constraints : tensor F) (x0 : tensor F),
    well_formed constraints = true ->
    length x0 = length (idx_indep constraints) ->
    exists p,
      apply_constraints n_features constraints None (Some x0) = Ok p
      /\ length p = n_params constraints
      /\ tf_gather p (idx_indep constraints) = Ok x0
      /\ (has_cols n_features x0 -> has_cols n_features p).
Proof.
  intros nf C x0 Hwf Hx0.
  set (m := length C) in *. set (n := n_params C) in *.
  set (d := dep_col C) in *.
  set (indep := idx_indep C) in *. set (ni := length indep) in *.
  set (deps := map d (seq 0 m)) in *. set (idx := indep ++ deps) in *.
  pose proof (idx_perm fequal_spec C Hwf) as Hperm.
  fold m d deps indep idx n in Hperm.
  pose proof (idx_length fequal_spec C Hwf) as Hn. fold m indep ni n in Hn.
  assert (Hidx_nd : NoDup idx).
  { apply (Permutation_NoDup (Permutation_sym Hperm)). apply seq_NoDup. }
  assert (Hidx_lt : forall j, j < n -> nth j idx 0 < n).
  { intros j Hj.
    assert (Hin : In (nth j idx 0) (seq 0 n)).
    { apply (Permutation_in _ Hperm). apply nth_In.
      rewrite (Permutation_length Hperm), length_seq. exact Hj. }
    apply in_seq in Hin. lia. }
  unfold apply_constraints. fold indep.
  rewrite (idx_dep_ok fequal_spec C Hwf). fold m d deps. simpl bind.
  destruct (@add_dependents_spec F arith cmp C nf m 0 x0)
    as (X & Hrun & Hlen & Hfirst & Hrows).
  { fold indep ni. lia. }
  { lia. }
  fold m d deps indep ni in Hrun, Hlen, Hfirst, Hrows.
  rewrite Hrun. simpl bind.
  fold idx. set (sigma := np_argsort idx).
  assert (Hsig_len : length sigma = n).
  { unfold sigma. rewrite np_argsort_length.
    rewrite (Permutation_length Hperm). apply length_seq. }
  assert (Hsig : forall k, k < n ->
                   nth k sigma 0 < n /\ nth (nth k sigma 0) idx 0 = k).
  { intros k Hk. now apply np_argsort_inverse. }
  assert (HlenX : length X = n) by lia.
  rewrite tf_gather_ok.
  2:{ apply Forall_forall. intros j Hj.
      apply (In_nth _ _ 0) in Hj. destruct Hj as [k [Hk <-]].
      rewrite HlenX. apply Hsig. lia. }
  set (p := map (fun j => nth j X []) sigma).
  assert (Hp : forall j, j < n -> nth (nth j idx 0) p [] = nth j X []).
  { intros j Hj. unfold p.
    rewrite (nth_map_lt (fun j => nth j X []) sigma 0 [])
      by (rewrite Hsig_len; now apply Hidx_lt).
    f_equal.
    destruct (Hsig (nth j idx 0) (Hidx_lt j Hj)) as [Hlt Heq].
    apply (proj1 (NoDup_nth idx 0) Hidx_nd);
      rewrite ?(Permutation_length Hperm), ?length_seq; lia. }
  assert (Hplen : length p = n) by (unfold p; now rewrite length_map).
  exists p. split; [reflexivity|]. split; [exact Hplen|]. split.
  - rewrite tf_gather_ok.
    + f_equal. apply (nth_ext _ _ [] []).
      * rewrite length_map. fold ni. lia.
      * intros j Hj. rewrite length_map in Hj. fold ni in Hj.
        rewrite (nth_map_lt (fun c => nth c p []) indep 0 []) by exact Hj.
        replace (nth j indep 0) with (nth j idx 0)
          by (unfold idx; apply app_nth1; exact Hj).
        rewrite Hp by lia. rewrite <- Hfirst.
        rewrite nth_firstn. replace (ni + 0) with ni by lia.
        apply Nat.ltb_lt in Hj. now rewrite Hj.
    + apply Forall_forall. intros c Hc. rewrite Hplen.
      apply (idx_indep_spec fequal_spec C) in Hc. fold n in Hc. lia.
  - intro Hcols. unfold has_cols in *. rewrite Forall_forall in *.
    intros row Hrow. unfold p in Hrow. apply in_map_iff in Hrow.
    destruct Hrow as [j [<- Hj]].
    apply (In_nth _ _ 0) in Hj. destruct Hj as [k [Hk <-]].
    rewrite Hsig_len in Hk. destruct (Hsig k Hk) as [Hlt _].
    set (j := nth k sigma 0) in *.
    destruct (Nat.lt_ge_cases j ni) as [Hj|Hj].
    + apply Hcols.
      assert (E : nth j X [] = nth j x0 []).
      { rewrite <- Hfirst. rewrite nth_firstn.
        replace (ni + 0) with ni by lia.
        apply Nat.ltb_lt in Hj. now rewrite Hj. }
      rewrite E. apply nth_In. lia.
    + replace j with (ni + (j - ni)) by lia.
      rewrite Hrows by lia. now rewrite length_map, length_seq.
Qed.
End Projection.

Section ProjectionTheorems.
Context {F : Type} {arith : TfArith F} {cmp : TfCompare F}.
Hypothesis fequal_spec : forall x y : F, fequal x y = true <-> x = y.

(** X3.  Exact comparison.  For a well-formed constraint matrix and
    independent parameters of the right height, [apply_constraints]
    returns a tensor [p] from which the independent rows can be read back
    unchanged, and which it maps to itself when [p] is passed as
    [var_all]: rebuilding the dependent rows of an already rebuilt tensor
    changes nothing.  [p] has [n_features] entries in every row when the
    independent rows have. *)
Theorem apply_constraints_round_trip :
  forall (n_features : nat) (constraints : tensor F)
         (var_all var_indep : option (tensor F)) (x0 : tensor F),
    well_formed constraints = true ->
    select_params (idx_indep constraints) var_all var_indep = Ok (Some x0) ->
    length x0 = length (idx_indep constraints) ->
    exists p,
      apply_constraints n_features constraints var_all var_indep = Ok p
      /\ tf_gather p (idx_indep constraints) = Ok x0
      /\ apply_constraints n_features constraints (Some p) None = Ok p
      /\ (has_cols n_features x0 -> has_cols n_features p).
Proof.
  intros nf C va vi x0 Hwf Hsel Hlen.
  destruct (apply_constraints_result fequal_spec nf C x0 Hwf Hlen)
    as (p & Hrun & Hp & Hback & Hcols).
  exists p.
  rewrite (@apply_constraints_from_selected F arith cmp nf C va vi x0 Hsel).
  split; [exact Hrun|]. split; [exact Hback|]. split; [|exact Hcols].
  rewrite <- Hrun.
  apply (@apply_constraints_from_selected F arith cmp nf C (Some p) None x0).
  unfold select_params. now rewrite Hback.
Qed.

End ProjectionTheorems.

Lemma apply_constraints_round_trip_witness :
  exists p,
    apply_constraints 2 Example.constraints None (Some Example.var_indep)
    = Ok p
    /\ apply_constraints 2 Example.constraints (Some p) None = Ok p.
Proof.
  destruct (@apply_constraints_round_trip
              Qc Qc_arith Qc_compare Qc_fequal_spec 2 Example.constraints
              None (Some Example.var_indep) Example.var_indep)
    as (p & Hrun & _ & Hagain & _).
  - vm_compute. reflexivity.
  - reflexivity.
  - reflexivity.
  - exists p. split; assumption.
Defined.

(* ----------------------------------------------------------------- *)
(** ** The two clippers *)





Lemma float64_margin_positive :
  (0 < @ACCURACY_MARGIN_RELATIVE_TO_LIMIT _ float64_limits)%Qc.
Proof. reflexivity. Qed.

Lemma float64_log_tiny_nonpos :
  (@np_log _ float64_limits (@np_nextafter _ float64_limits 0%Qc pos_inf)
   <= 0)%Qc.
Proof. vm_compute. discriminate. Qed.

Lemma float64_log_max_nonneg :
  (0 <= @np_nextafter _ float64_limits
          (@np_log _ float64_limits (@dmax _ float64_limits)) neg_inf)%Qc.
Proof. vm_compute. discriminate. Qed.

Lemma float64_tiny_le_max :
  (@np_nextafter _ float64_limits 0%Qc pos_inf
   <= @np_nextafter _ float64_limits (@dmax _ float64_limits) neg_inf
      / @ACCURACY_MARGIN_RELATIVE_TO_LIMIT _ float64_limits)%Qc.
Proof. vm_compute. discriminate. Qed.


(* ----------------------------------------------------------------- *)
(** ** [BasicModelGraph]: shapes and ranges *)

(** X5.  For every element type: when [X] has [n_features] columns and
    the design matrices (and the size factors, if any) have one row per
    observation, each of [log_mu], [mu], [log_r], [r], [sigma2],
    [log_probs] and [probs] has the shape of [X], and the three
    likelihood vectors have one entry per feature. *)
Theorem model_graph_output_shapes :
  forall (F : Type) (arith : TfArith F) (math : TfMath F)
         (limits : DtypeLimits F) (n_features : nat)
         (X design_loc design_scale a b : tensor F)
         (size_factors : option (tensor F)),
    has_cols n_features X ->
    length design_loc = length X ->
    length design_scale = length X ->
    (forall s, size_factors = Some s ->
               has_cols n_features s /\ length s = length X) ->
    let g := model_graph n_features X design_loc design_scale a b
                         size_factors in
    Forall (fun t => length t = length X /\ has_cols n_features t)
           [log_mu g; mu g; log_r g; r g; sigma2 g; log_probs g; probs g]
    /\ Forall (fun v => length v = n_features)
              [log_likelihood g; norm_log_likelihood g;
               norm_neg_log_likelihood g].
Proof.
  intros F arith math limits n X dl ds a b sfs HX Hdl Hds Hsf. cbv zeta.
  set (g := model_graph n X dl ds a b sfs).
  assert (Hlmu : has_cols n (log_mu g) /\ length (log_mu g) = length X).
  { simpl. unfold log_mu_of. destruct sfs as [s|].
    - destruct (Hsf s eq_refl) as [Hs Hl]. split.
      + unfold tf_clip_param, tf_add. shape.
      + rows.
    - split; [unfold tf_clip_param; shape | rows]. }
  destruct Hlmu as [Hlmu_c Hlmu_r].
  assert (Hlr_c : has_cols n (log_r g)) by (simpl; unfold tf_clip_param; shape).
  assert (Hlr_r : length (log_r g) = length X) by (simpl; rows).
  assert (Hmu_c : has_cols n (mu g)).
  { change (mu g) with (tmap fexp (log_mu g)). shape. }
  assert (Hmu_r : length (mu g) = length X).
  { change (mu g) with (tmap fexp (log_mu g)). rows. }
  assert (Hr_c : has_cols n (r g)).
  { change (r g) with (tmap fexp (log_r g)). shape. }
  assert (Hr_r : length (r g) = length X).
  { change (r g) with (tmap fexp (log_r g)). rows. }
  assert (Hs2 : length (sigma2 g) = length X /\ has_cols n (sigma2 g)).
  { change (sigma2 g)
      with (tf_add (mu g) (tf_multiply (tf_square (mu g)) (r g))).
    split; [rows|]. unfold tf_add, tf_multiply, tf_square. shape. }
  assert (Hlp : length (log_probs g) = length X /\ has_cols n (log_probs g)).
  { change (log_probs g)
      with (tf_clip_param
              (tf_add
                 (tf_add
                    (tf_subtract
                       (tf_subtract
                          (tmap flgamma (tf_add (r g) X))
                          (tmap flgamma (tmap (fun x => fadd x fone) X)))
                       (tmap flgamma (r g)))
                    (tf_multiply X
                       (tf_subtract (log_mu g)
                                    (tmap flog (tf_add (r g) (mu g))))))
                 (tf_multiply (r g)
                    (tf_subtract (log_r g)
                                 (tmap flog (tf_add (r g) (mu g))))))
              name_log_probs).
    split; [rows|].
    unfold tf_clip_param, tf_add, tf_subtract, tf_multiply. shape. }
  destruct Hlp as [Hlp_r Hlp_c].
  assert (Hp : length (probs g) = length X /\ has_cols n (probs g)).
  { change (probs g)
      with (tf_clip_param (tmap fexp (log_probs g)) name_probs).
    split; [rows|]. unfold tf_clip_param. shape. }
  split.
  - repeat constructor; tauto.
  - repeat constructor; simpl;
      rewrite ?length_map, ?length_reduce_mean_axis0,
              ?length_reduce_sum_axis0; reflexivity.
Qed.

Lemma model_graph_output_shapes_witness :
  length (log_probs Example.graph) = 2
  /\ has_cols 1 (log_probs Example.graph)
  /\ length (log_likelihood Example.graph) = 1.
Proof.
  destruct (@model_graph_output_shapes
              node _ _ node_limits 1
              (Example.sym "X" 2 1) (Example.sym "design_loc" 2 1)
              (Example.sym "design_scale" 2 1) (Example.sym "a" 1 1)
              (Example.sym "b" 1 1)
              (Some (Example.sym "size_factors" 2 1))) as (Ht & Hv).
  - repeat constructor.
  - reflexivity.
  - reflexivity.
  - intros s Hs. injection Hs as <-. split; [repeat constructor|reflexivity].
  - cbv zeta in Ht, Hv.
    rewrite Forall_forall in Ht, Hv.
    destruct (Ht (log_probs Example.graph)) as [H1 H2].
    { simpl. tauto. }
    split; [exact H1|]. split; [exact H2|].
    apply Hv. simpl. tauto.
Defined.







(* ----------------------------------------------------------------- *)
(** ** The custom train ops *)

Section TrustRegionFacts.
Context {F : Type} {arith : TfArith F} {cmp : TfCompare F}.

Lemma tf_stack_axis1_columns : forall n (t : tensor F),
    has_cols n t ->
    tf_stack_axis1 (length t) (map (fun i => column t i) (seq 0 n)) = t.
Proof.
  intros n t Ht. unfold tf_stack_axis1.
  apply (nth_ext _ _ [] []).
  - now rewrite length_map, length_seq.
  - intros k Hk. rewrite length_map, length_seq in Hk.
    rewrite nth_map_seq by exact Hk. rewrite map_map.
    assert (Hrow : length (nth k t []) = n).
    { unfold has_cols in Ht. rewrite Forall_forall in Ht.
      apply Ht. now apply nth_In. }
    apply (nth_ext _ _ fzero fzero).
    + now rewrite length_map, length_seq.
    + intros i Hi. rewrite length_map, length_seq in Hi.
      rewrite nth_map_seq by exact Hi. unfold column.
      now rewrite (nth_map_lt _ _ []) by lia.
Qed.

Lemma length_tf_stack_axis1 : forall p (columns : list (vector F)),
    length (tf_stack_axis1 p columns) = p.
Proof. intros. unfold tf_stack_axis1. now rewrite length_map, length_seq. Qed.

Lemma has_cols_tf_stack_axis1 : forall p (columns : list (vector F)),
    has_cols (length columns) (tf_stack_axis1 p columns).
Proof.
  intros p columns. unfold has_cols, tf_stack_axis1.
  apply Forall_forall. intros row Hrow.
  apply in_map_iff in Hrow. destruct Hrow as [k [<- _]].
  apply length_map.
Qed.

Lemma length_theta_new : forall (st : train_state F) (delta : tensor F),
    length delta = length (variables st) ->
    length (theta_new st delta) = length (variables st).
Proof.
  intros st delta H. unfold theta_new, tf_subtract.
  rewrite length_tmap2, length_map. lia.
Qed.

Lemma has_cols_theta_new : forall n (st : train_state F) (delta : tensor F),
    has_cols n (variables st) -> has_cols n delta ->
    length (nr_tr_radius st) = n ->
    has_cols n (theta_new st delta).
Proof.
  intros n st delta Hv Hd Hr. unfold theta_new, tf_subtract.
  apply has_cols_tmap2; [assumption|].
  unfold has_cols in *. rewrite Forall_forall in *.
  intros row Hrow. apply in_map_iff in Hrow. destruct Hrow as [drow [<- Hin]].
  rewrite length_map2, Hr, (Hd drow Hin). lia.
Qed.

End TrustRegionFacts.

Lemma theta_new_nr_tr_uniform :
  forall (F : Type) (arith : TfArith F) (cmp : TfCompare F) (n_features : nat)
         (eta0 eta1 : F) (norm_log_likelihood_at : tensor F -> vector F)
         (st : train_state F) (model_ll : vector F)
         (newton_tr_delta : tensor F) (nr_tr_pred_cost_gain : vector F)
         (v : bool),
    has_cols n_features (variables st) ->
    has_cols n_features newton_tr_delta ->
    length newton_tr_delta = length (variables st) ->
    length (nr_tr_radius st) = n_features ->
    length model_ll = n_features ->
    length nr_tr_pred_cost_gain = n_features ->
    length (norm_log_likelihood_at (theta_new st newton_tr_delta))
    = n_features ->
    Forall (fun u => u = v)
           (update_theta eta0 eta1 norm_log_likelihood_at st model_ll
                         newton_tr_delta nr_tr_pred_cost_gain) ->
    theta_new_nr_tr n_features eta0 eta1 norm_log_likelihood_at st model_ll
                    newton_tr_delta nr_tr_pred_cost_gain
    = if v then theta_new st newton_tr_delta else variables st.
Proof.
  intros F arith cmp n eta0 eta1 ll_at st model_ll delta pred v
         Hvars Hdelta Hrows Hrad Hll Hpred Heval Hv.
  set (upd := update_theta eta0 eta1 ll_at st model_ll delta pred) in *.
  assert (Hlen_upd : length upd = n).
  { unfold upd, update_theta, delta_f_ratio, delta_f_actual.
    rewrite length_map2, !length_map, !length_map2. lia. }
  set (t := if v then theta_new st delta else variables st).
  assert (Ht : has_cols n t).
  { unfold t. destruct v; [now apply has_cols_theta_new|assumption]. }
  assert (Hlt : length t = length (variables st)).
  { unfold t. destruct v; [now apply length_theta_new|reflexivity]. }
  unfold theta_new_nr_tr. fold upd.
  rewrite <- (tf_stack_axis1_columns Ht) at 1. rewrite Hlt. f_equal.
  apply map_ext_in. intros i Hi. apply in_seq in Hi.
  assert (E : nth i upd false = v).
  { rewrite Forall_forall in Hv. apply Hv. apply nth_In. lia. }
  rewrite E. unfold t. now destruct v.
Qed.

(** X7.  For every element type: one run of the Newton-Raphson
    trust-region op keeps the shapes of the parameters, of the radius and
    of the update flags; when no feature is accepted the whole parameter
    tensor is unchanged, and when every feature is accepted it is the
    candidate [theta - radius * delta]. *)
Theorem nr_tr_step_keeps_shapes_and_rejected_parameters :
  forall (F : Type) (arith : TfArith F) (cmp : TfCompare F) (n_features : nat)
         (eta0 eta1 eta2 t1 t2 upper_bound : F)
         (norm_log_likelihood_at : tensor F -> vector F)
         (st : train_state F) (model_ll : vector F)
         (newton_tr_delta : tensor F) (nr_tr_pred_cost_gain : vector F),
    has_cols n_features (variables st) ->
    has_cols n_features newton_tr_delta ->
    length newton_tr_delta = length (variables st) ->
    length (nr_tr_radius st) = n_features ->
    length model_ll = n_features ->
    length nr_tr_pred_cost_gain = n_features ->
    length (norm_log_likelihood_at (theta_new st newton_tr_delta))
    = n_features ->
    let st' :=
      train_op_nr_tr n_features eta0 eta1 eta2 t1 t2 upper_bound
                     norm_log_likelihood_at st model_ll newton_tr_delta
                     nr_tr_pred_cost_gain in
    length (variables st') = length (variables st)
    /\ has_cols n_features (variables st')
    /\ length (nr_tr_radius st') = n_features
    /\ length (features_updated st') = n_features
    /\ (Forall (fun u => u = false) (features_updated st') ->
        variables st' = variables st)
    /\ (Forall (fun u => u = true) (features_updated st') ->
        variables st' = theta_new st newton_tr_delta).
Proof.
  intros F arith cmp n eta0 eta1 eta2 t1 t2 ub ll_at st model_ll delta pred
         Hvars Hdelta Hrows Hrad Hll Hpred Heval.
  cbv zeta.
  set (upd := update_theta eta0 eta1 ll_at st model_ll delta pred).
  split; [|split; [|split; [|split; [|split]]]].
  - simpl. unfold theta_new_nr_tr. apply length_tf_stack_axis1.
  - simpl. unfold theta_new_nr_tr.
    pose proof (has_cols_tf_stack_axis1 (length (variables st))
                  (map (fun i => if nth i upd false
                                 then column (theta_new st delta) i
                                 else column (variables st) i)
                       (seq 0 n))) as H.
    now rewrite length_map, length_seq in H.
  - simpl. unfold nr_tr_radius_new. now rewrite length_map, length_seq.
  - unfold upd, update_theta, delta_f_ratio, delta_f_actual. simpl.
    unfold update_theta, delta_f_ratio, delta_f_actual.
    rewrite length_map2, !length_map, !length_map2. lia.
  - intro Hno. simpl.
    now rewrite (@theta_new_nr_tr_uniform F arith cmp n eta0 eta1 ll_at st
                   model_ll delta pred false).
  - intro Hyes. simpl.
    now rewrite (@theta_new_nr_tr_uniform F arith cmp n eta0 eta1 ll_at st
                   model_ll delta pred true).
Qed.

Lemma nr_tr_step_keeps_shapes_and_rejected_parameters_witness :
  has_cols 3 (variables Example.step)
  /\ length (nr_tr_radius Example.step) = 3
  /\ length (features_updated Example.step) = 3.
Proof.
  destruct (@nr_tr_step_keeps_shapes_and_rejected_parameters
              Qc Qc_arith Qc_compare 3 Example.eta0 Example.eta1 Example.eta2
              Example.t1 Example.t2 Example.upper_bound Example.ll_at
              Example.st Example.model_ll Example.delta Example.pred_gain)
    as (_ & Hcols & Hrad & Hupd & _).
  - repeat constructor.
  - repeat constructor.
  - reflexivity.
  - reflexivity.
  - reflexivity.
  - reflexivity.
  - reflexivity.
  - repeat split; assumption.
Defined.







(** X9.  For every element type: the Newton-Raphson op and the IRLS
    op assign [variables - learning_rate * delta] without any test and
    leave the radius and the update flags alone; the candidate of the
    trust-region op with the radius [learning_rate] for every feature is
    that same tensor, so a trust-region run that accepts every feature
    assigns what the plain op assigns. *)
Theorem nr_tr_fully_accepted_step_is_newton_step :
  forall (F : Type) (arith : TfArith F) (cmp : TfCompare F) (n_features : nat)
         (eta0 eta1 eta2 t1 t2 upper_bound learning_rate : F)
         (norm_log_likelihood_at : tensor F -> vector F)
         (st : train_state F) (model_ll : vector F)
         (delta : tensor F) (pred_cost_gain : vector F),
    has_cols n_features (variables st) ->
    has_cols n_features delta ->
    length delta = length (variables st) ->
    nr_tr_radius st = repeat learning_rate n_features ->
    length model_ll = n_features ->
    length pred_cost_gain = n_features ->
    length (norm_log_likelihood_at (theta_new st delta)) = n_features ->
    let tr :=
      train_op_nr_tr n_features eta0 eta1 eta2 t1 t2 upper_bound
                     norm_log_likelihood_at st model_ll delta
                     pred_cost_gain in
    let nr := train_op_nr learning_rate st delta in
    theta_new st delta = variables nr
    /\ variables nr = variables (train_op_irls learning_rate st delta)
    /\ global_step nr = global_step st + 1
    /\ nr_tr_radius nr = nr_tr_radius st
    /\ features_updated nr = features_updated st
    /\ (Forall (fun u => u = true) (features_updated tr) ->
        variables tr = variables nr).
Proof.
  intros F arith cmp n eta0 eta1 eta2 t1 t2 ub lr ll_at st model_ll delta pred
         Hvars Hdelta Hrows Hrad Hll Hpred Heval. cbv zeta.
  assert (Hcand : theta_new st delta = variables (train_op_nr lr st delta)).
  { simpl. unfold theta_new, theta_new_nr. f_equal. unfold tmap.
    apply map_ext_in. intros drow Hin. rewrite Hrad.
    assert (Hl : length drow = n).
    { unfold has_cols in Hdelta. rewrite Forall_forall in Hdelta.
      now apply Hdelta. }
    clear -Hl. revert drow Hl. unfold map2.
    induction n as [|n IH]; intros [|x drow] Hl; simpl in *;
      try reflexivity; try discriminate.
    f_equal. apply IH. lia. }
  split; [exact Hcand|].
  split; [reflexivity|].
  split; [reflexivity|].
  split; [reflexivity|].
  split; [reflexivity|].
  intro Hyes. rewrite <- Hcand. simpl.
  rewrite (@theta_new_nr_tr_uniform F arith cmp n eta0 eta1 ll_at st
             model_ll delta pred true); try assumption; try reflexivity.
  rewrite Hrad. apply repeat_length.
Qed.

Lemma nr_tr_fully_accepted_step_is_newton_step_witness :
  variables
    (train_op_nr_tr 3 Example.eta0 Example.eta1 Example.eta2 Example.t1
                    Example.t2 Example.upper_bound Example.ll_at
                    Sample.unit_state
                    (Example.ll_at (variables Sample.unit_state))
                    Sample.unit_delta Sample.unit_gain)
  = variables (train_op_nr (Sample.qc 1) Sample.unit_state Sample.unit_delta).
Proof.
  destruct (@nr_tr_fully_accepted_step_is_newton_step
              Qc Qc_arith Qc_compare 3 Example.eta0 Example.eta1 Example.eta2
              Example.t1 Example.t2 Example.upper_bound (Sample.qc 1)
              Example.ll_at Sample.unit_state
              (Example.ll_at (variables Sample.unit_state))
              Sample.unit_delta Sample.unit_gain)
    as (_ & _ & _ & _ & _ & Hsame).
  - repeat constructor.
  - repeat constructor.
  - reflexivity.
  - reflexivity.
  - reflexivity.
  - reflexivity.
  - reflexivity.
  - apply Hsame. repeat constructor.
Defined.


(* ----------------------------------------------------------------- *)
(** ** [MultiTrainer]: construction and lookup *)

Lemma bind_ok : forall (A B : Type) (m : result A) (k : A -> result B) b,
    bind m k = Ok b -> exists a, m = Ok a /\ k a = Ok b.
Proof.
  intros A B [a|e] k b H; simpl in H; [eauto|discriminate].
Qed.

Ltac bind_inv H :=
  let a := fresh "v" in
  let Ha := fresh "Hv" in
  apply bind_ok in H; destruct H as (a & Ha & H).

Section TrainerBuildFacts.

Variables Tensor Variable_ Op : Type.
Variable same_object : list Variable_ -> list Variable_ -> bool.
Variable apply_gradients_op :
  string -> list (Tensor * list Variable_) -> result Op.
Variables assign_group nr_tr_group : Tensor -> result Op.
Variable irls_tr_candidate : Tensor -> result Tensor.
Variable irls_tr_group : Tensor -> nat -> result Op.
Variable shape1 : Tensor -> nat.
Variable apply_gradients : TrainerBuild.apply_gradients_arg Tensor Variable_.
Variable provide_optimizers : option (list (string * bool)).
Variables newton_delta irls_delta newton_tr_delta irls_tr_delta
  : option Tensor.
Variable apply_train_ops : option (Op -> result Op).
Variable tf_gradients :
  option Tensor -> list Variable_ -> result (list Tensor).

Local Abbreviation flag_of := (TrainerBuild.getitem provide_optimizers).
Local Abbreviation standard_op :=
  (TrainerBuild.standard apply_gradients_op provide_optimizers
                         apply_train_ops).
Local Abbreviation custom_op :=
  (@TrainerBuild.custom Tensor Op provide_optimizers apply_train_ops).
Local Abbreviation trainer_init :=
  (TrainerBuild.init same_object apply_gradients_op assign_group nr_tr_group
                     irls_tr_candidate irls_tr_group shape1 apply_gradients
                     provide_optimizers newton_delta irls_delta
                     newton_tr_delta irls_tr_delta apply_train_ops
                     tf_gradients).

Lemma getitem_ok : forall key b,
    flag_of key = Ok b ->
    exists items, provide_optimizers = Some items
                  /\ In (key, b) items.
Proof.
  intros key b H. unfold TrainerBuild.getitem in H.
  destruct provide_optimizers as [items|]; [|discriminate].
  exists items. split; [reflexivity|].
  destruct (find _ items) as [kv|] eqn:E; [|discriminate].
  apply find_some in E. destruct E as [Hin Hk].
  apply String.eqb_eq in Hk. destruct kv as [k v]. simpl in *.
  inversion H. subst. exact Hin.
Qed.

Lemma standard_spec : forall key cls gv o,
    standard_op key cls gv = Ok o ->
    exists b, flag_of key = Ok b /\ (o <> None <-> b = true).
Proof.
  intros key cls gv o H. unfold TrainerBuild.standard in H.
  bind_inv H. exists v. split; [exact Hv|].
  destruct v.
  - bind_inv H. bind_inv H. inversion H. split; [reflexivity|discriminate].
  - inversion H. split; [congruence|discriminate].
Qed.

Lemma custom_spec : forall key delta build o,
    custom_op key delta build = Ok o ->
    exists b, flag_of key = Ok b
              /\ (o <> None <-> b = true /\ delta <> None)
              /\ (b = true ->
                  forall d, delta = Some d -> is_ok (build d) = true).
Proof.
  intros key delta build o H. unfold TrainerBuild.custom in H.
  bind_inv H. exists v. split; [exact Hv|].
  destruct v; [destruct delta as [d|]|].
  - bind_inv H. bind_inv H. inversion H. split.
    + split; [split; [reflexivity|discriminate]|discriminate].
    + intros _ d' Hd'. inversion Hd'. subst. now rewrite Hv0.
  - inversion H. split.
    + split; [congruence|]. intros [_ Hd]. congruence.
    + intros _ d Hd. discriminate.
  - inversion H. split.
    + split; [congruence|]. intros [Hb _]. discriminate.
    + intro Hb. discriminate.
Qed.

Lemma init_ok_parts : forall loss variables gradients_ self,
    trainer_init loss variables gradients_ = Ok self ->
    exists g pgv gv,
      gradients_ = Some g
      /\ pgv = [(g, match variables with Some vs => vs | None => [] end)]
      /\ TrainerBuild.gradients_vars_of same_object apply_gradients pgv
         = Ok gv
      /\ TrainerBuild.plain_gradients self = pgv
      /\ TrainerBuild.gradients self = gv
      /\ standard_op "gd" "GradientDescentOptimizer" gv
         = Ok (Trainer.train_op_GD (TrainerBuild.train_ops self))
      /\ standard_op "adam" "AdamOptimizer" gv
         = Ok (Trainer.train_op_Adam (TrainerBuild.train_ops self))
      /\ standard_op "adagrad" "AdagradOptimizer" gv
         = Ok (Trainer.train_op_Adagrad (TrainerBuild.train_ops self))
      /\ standard_op "rmsprop" "RMSPropOptimizer" gv
         = Ok (Trainer.train_op_RMSProp (TrainerBuild.train_ops self))
      /\ custom_op "nr" newton_delta assign_group
         = Ok (Trainer.train_op_nr (TrainerBuild.train_ops self))
      /\ custom_op "nr_tr" newton_tr_delta nr_tr_group
         = Ok (Trainer.train_op_nr_tr (TrainerBuild.train_ops self))
      /\ custom_op "irls" irls_delta assign_group
         = Ok (Trainer.train_op_irls (TrainerBuild.train_ops self))
      /\ custom_op "irls_tr" irls_tr_delta
                (TrainerBuild.irls_tr_build irls_tr_candidate irls_tr_group
                                            shape1 newton_tr_delta)
         = Ok (Trainer.train_op_irls_tr (TrainerBuild.train_ops self)).
Proof.
  intros loss variables gradients_ self H.
  unfold TrainerBuild.init, TrainerInit.init in H.
  bind_inv H. bind_inv H.
  unfold TrainerInit.bind_plain_gradients_vars in Hv.
  destruct gradients_ as [g|].
  2:{ destruct variables as [vs|]; [|discriminate].
      bind_inv Hv. simpl in Hv. discriminate. }
  inversion Hv. subst v. simpl in Hv0. inversion Hv0. subst v0. clear Hv Hv0.
  unfold TrainerBuild.build_train_ops in H.
  do 9 bind_inv H. inversion H. subst self. clear H. simpl.
  exists g. eexists. exists v. repeat split; assumption.
Qed.

(** X11.  The constructor returns only when [gradients] is given and
    [provide_optimizers] is a dictionary that holds all eight keys
    ([gd], [adam], [adagrad], [rmsprop], [nr], [nr_tr], [irls] and
    [irls_tr]): each key is read whether or not its update tensor is
    given, and the default [None] cannot be indexed.  When the IRLS
    trust-region op is asked for and [irls_tr_delta] is given, it also
    needs [newton_tr_delta]. *)
Theorem init_needs_gradients_and_all_eight_flags :
  forall loss variables gradients_ self,
    trainer_init loss variables gradients_ = Ok self ->
    gradients_ <> None
    /\ (exists items,
          provide_optimizers = Some items
          /\ forall key, In key TrainerBuild.optimizer_keys ->
                         In key (map fst items))
    /\ (flag_of "irls_tr" = Ok true -> irls_tr_delta <> None ->
        newton_tr_delta <> None).
Proof.
  intros loss variables gradients_ self H.
  destruct (init_ok_parts _ _ _ H)
    as (g & pgv & gv & Hg & _ & _ & _ & _
        & H1 & H2 & H3 & H4 & H5 & H6 & H7 & H8).
  split; [congruence|].
  apply standard_spec in H1, H2, H3, H4.
  apply custom_spec in H5, H6, H7, H8.
  destruct H1 as (b1 & K1 & _), H2 as (b2 & K2 & _), H3 as (b3 & K3 & _),
           H4 as (b4 & K4 & _), H5 as (b5 & K5 & _), H6 as (b6 & K6 & _),
           H7 as (b7 & K7 & _), H8 as (b8 & K8 & _ & Hbuild).
  split.
  - destruct (getitem_ok _ K1) as (items & Hitems & _).
    exists items. split; [exact Hitems|].
    assert (Hkey : forall key b, flag_of key = Ok b -> In key (map fst items)).
    { intros key b K. destruct (getitem_ok _ K) as (items' & Hitems' & Hin).
      rewrite Hitems in Hitems'. inversion Hitems'. subst items'.
      apply in_map_iff. exists (key, b). now split. }
    intros key Hin. unfold TrainerBuild.optimizer_keys in Hin. simpl in Hin.
    repeat (destruct Hin as [<-|Hin]; [eapply Hkey; eassumption|]).
    contradiction.
  - intros Hflag Hdelta Hnone.
    rewrite Hflag in K8. inversion K8. subst b8.
    destruct irls_tr_delta as [d|]; [|congruence].
    specialize (Hbuild eq_refl d eq_refl).
    unfold TrainerBuild.irls_tr_build in Hbuild. rewrite Hnone in Hbuild.
    destruct (irls_tr_candidate d); simpl in Hbuild; discriminate.
Qed.

Lemma provided_is_ok : forall (attr : option Op) msg,
    is_ok (Trainer.provided attr msg) = true <-> attr <> None.
Proof.
  intros [op|] msg; simpl; split; congruence.
Qed.

Lemma one_of_In : forall s names,
    Trainer.one_of s names = true -> In s names.
Proof.
  intros s names H. unfold Trainer.one_of in H.
  apply existsb_exists in H. destruct H as [x [Hin Hx]].
  apply String.eqb_eq in Hx. now subst.
Qed.

(** X12.  On a trainer that the constructor has returned, a name of an
    optimizer resolves to an op exactly when the flag of that optimizer
    is set and, for the custom optimizers, its update tensor was given;
    the names of the IRLS trust-region optimizer resolve exactly when
    the plain IRLS op was built. *)
Theorem constructed_trainer_resolves_names :
  forall loss variables gradients_ self,
    trainer_init loss variables gradients_ = Ok self ->
    forall name,
      let known := fun names => Trainer.one_of (lower name) names = true in
      let resolves := is_ok (TrainerBuild.train_op_by_name self name) = true in
      let flag := fun key => flag_of key = Ok true in
      (known Trainer.gd_names -> (resolves <-> flag "gd"%string))
      /\ (known ["adam"%string] -> (resolves <-> flag "adam"%string))
      /\ (known ["adagrad"%string] -> (resolves <-> flag "adagrad"%string))
      /\ (known ["rmsprop"%string] -> (resolves <-> flag "rmsprop"%string))
      /\ (known Trainer.newton_names ->
          (resolves <-> flag "nr"%string /\ newton_delta <> None))
      /\ (known Trainer.newton_tr_names ->
          (resolves <-> flag "nr_tr"%string /\ newton_tr_delta <> None))
      /\ (known Trainer.irls_names ->
          (resolves <-> flag "irls"%string /\ irls_delta <> None))
      /\ (known Trainer.irls_tr_names ->
          (resolves <-> flag "irls"%string /\ irls_delta <> None)).
Proof.
  intros loss variables gradients_ self H name known resolves flag.
  destruct (init_ok_parts _ _ _ H)
    as (g & pgv & gv & Hg & _ & _ & _ & _
        & H1 & H2 & H3 & H4 & H5 & H6 & H7 & H8).
  apply standard_spec in H1, H2, H3, H4.
  apply custom_spec in H5, H6, H7.
  destruct H1 as (b1 & K1 & E1), H2 as (b2 & K2 & E2), H3 as (b3 & K3 & E3),
           H4 as (b4 & K4 & E4), H5 as (b5 & K5 & E5 & _),
           H6 as (b6 & K6 & E6 & _), H7 as (b7 & K7 & E7 & _).
  assert (F1 : flag "gd"%string <-> b1 = true)
    by (unfold flag; rewrite K1; split; congruence).
  assert (F2 : flag "adam"%string <-> b2 = true)
    by (unfold flag; rewrite K2; split; congruence).
  assert (F3 : flag "adagrad"%string <-> b3 = true)
    by (unfold flag; rewrite K3; split; congruence).
  assert (F4 : flag "rmsprop"%string <-> b4 = true)
    by (unfold flag; rewrite K4; split; congruence).
  assert (F5 : flag "nr"%string <-> b5 = true)
    by (unfold flag; rewrite K5; split; congruence).
  assert (F6 : flag "nr_tr"%string <-> b6 = true)
    by (unfold flag; rewrite K6; split; congruence).
  assert (F7 : flag "irls"%string <-> b7 = true)
    by (unfold flag; rewrite K7; split; congruence).
  rewrite F1, F2, F3, F4, F5, F6, F7.
  unfold known, resolves, TrainerBuild.train_op_by_name,
    Trainer.train_op_by_name.
  clear F1 F2 F3 F4 F5 F6 F7 known resolves flag.
  repeat match goal with |- _ /\ _ => split end;
    intro Hk; apply one_of_In in Hk; simpl in Hk;
    repeat (destruct Hk as [Hk|Hk]; [rewrite <- Hk; clear Hk|]);
    try contradiction; cbv -[is_ok Trainer.provided not];
    rewrite provided_is_ok; tauto.
Qed.

Lemma lookup_gradient_none :
  forall (pairs : list (Tensor * list Variable_)) variable,
    TrainerBuild.lookup_gradient same_object pairs variable = None
    <-> forall g v, In (g, v) pairs -> same_object v variable = false.
Proof.
  intros pairs variable. induction pairs as [|[g v] rest IH]; simpl.
  - split; [intros _ g v []|reflexivity].
  - destruct (same_object v variable) eqn:E.
    + split; [discriminate|]. intro H.
      specialize (H g v (or_introl eq_refl)). congruence.
    + rewrite IH. split.
      * intros H g' v' [Heq|Hin]; [inversion Heq; now subst|eauto].
      * intros H g' v' Hin. apply (H g' v'). now right.
Qed.

Hypothesis same_object_refl : forall v, same_object v v = true.

(** X13.  On a trainer built from given [gradients], with [is] an
    identity test: [plain_gradient_by_variable] on the [variables]
    object returns the given gradients, [gradient_by_variable] returns
    them as [apply_gradients] has transformed them (the callable, or the
    dictionary's callable for that object, if any), and both return
    [None] for any other object. *)
Theorem gradient_lookup_after_init :
  forall loss variables gradient self,
    trainer_init loss variables (Some gradient) = Ok self ->
    let vs := match variables with Some vs => vs | None => [] end in
    TrainerBuild.plain_gradient_by_variable same_object self vs
    = Some gradient
    /\ (exists g,
          TrainerBuild.gradient_by_variable same_object self vs = Some g
          /\ match apply_gradients with
             | TrainerBuild.ApplyCallable f => f gradient = Ok g
             | TrainerBuild.ApplyDict d =>
                 match TrainerBuild.dict_get same_object d vs with
                 | Some f => f gradient = Ok g
                 | None => g = gradient
                 end
             | TrainerBuild.ApplyNone => g = gradient
             end)
    /\ (forall other,
          same_object vs other = false ->
          TrainerBuild.gradient_by_variable same_object self other = None
          /\ TrainerBuild.plain_gradient_by_variable same_object self other
             = None).
Proof.
  intros loss variables gradient self H vs.
  destruct (init_ok_parts _ _ _ H)
    as (g & pgv & gv & Hg & Hpgv & Hgv & Hplain & Hgrad & _).
  inversion Hg. subst g. fold vs in Hpgv. subst pgv.
  unfold TrainerBuild.plain_gradient_by_variable,
    TrainerBuild.gradient_by_variable.
  rewrite Hplain, Hgrad.
  assert (Hshape : exists g', gv = [(g', vs)]
             /\ match apply_gradients with
                | TrainerBuild.ApplyCallable f => f gradient = Ok g'
                | TrainerBuild.ApplyDict d =>
                    match TrainerBuild.dict_get same_object d vs with
                    | Some f => f gradient = Ok g'
                    | None => g' = gradient
                    end
                | TrainerBuild.ApplyNone => g' = gradient
                end).
  { unfold TrainerBuild.gradients_vars_of in Hgv.
    destruct apply_gradients as [f|d|]; simpl in Hgv.
    - destruct (f gradient) as [g'|e] eqn:E; simpl in Hgv; [|discriminate].
      inversion Hgv. now exists g'.
    - destruct (TrainerBuild.dict_get same_object d vs) as [f|].
      + destruct (f gradient) as [g'|e] eqn:E; simpl in Hgv; [|discriminate].
        inversion Hgv. now exists g'.
      + simpl in Hgv. inversion Hgv. now exists gradient.
    - inversion Hgv. now exists gradient. }
  destruct Hshape as (g' & -> & Hg').
  simpl. rewrite same_object_refl.
  split; [reflexivity|]. split.
  - exists g'. now split.
  - intros other Hother. now rewrite Hother.
Qed.

End TrainerBuildFacts.

Lemma init_needs_gradients_and_all_eight_flags_witness :
  is_ok Sample.trainer = true
  /\ exists items,
       Sample.all_optimizers = Some items
       /\ forall key, In key TrainerBuild.optimizer_keys ->
                      In key (map fst items).
Proof.
  split; [reflexivity|].
  destruct Sample.trainer as [self|e] eqn:E; [|vm_compute in E; discriminate].
  exact (proj1 (proj2 (@init_needs_gradients_and_all_eight_flags
                         _ _ _ _ _ _ _ _ _ _ _ _ _ _ _ _ _ _ _ _ _ _ E))).
Defined.

Lemma constructed_trainer_resolves_names_witness :
  exists self,
    Sample.trainer = Ok self
    /\ is_ok (TrainerBuild.train_op_by_name self "IRLS_TR") = true.
Proof.
  destruct Sample.trainer as [self|e] eqn:E; [|vm_compute in E; discriminate].
  exists self. split; [reflexivity|].
  pose proof (@constructed_trainer_resolves_names
                _ _ _ _ _ _ _ _ _ _ _ _ _ _ _ _ _ _ _ _ _ _ E "IRLS_TR"%string)
    as H.
  cbv zeta in H.
  destruct H as (_ & _ & _ & _ & _ & _ & _ & H).
  apply H; [reflexivity|]. split; [reflexivity|discriminate].
Defined.

Lemma same_variables_refl : forall v, Sample.same_variables v v = true.
Proof.
  intro v. unfold Sample.same_variables.
  destruct (list_eq_dec Nat.eq_dec v v) as [_|H]; [reflexivity|].
  now contradiction H.
Qed.

Lemma gradient_lookup_after_init_witness :
  exists self,
    Sample.trainer = Ok self
    /\ TrainerBuild.plain_gradient_by_variable Sample.same_variables self [0]
       = Some "gradients"%string
    /\ TrainerBuild.gradient_by_variable Sample.same_variables self [1] = None.
Proof.
  destruct Sample.trainer as [self|e] eqn:E; [|vm_compute in E; discriminate].
  exists self. split; [reflexivity|].
  unfold Sample.trainer in E.
  pose proof (@gradient_lookup_after_init
                _ _ _ _ _ _ _ _ _ _ _ _ _ _ _ _ _ _
                same_variables_refl _ _ _ _ E) as H.
  cbv zeta in H. destruct H as (Hplain & _ & Hother).
  split; [exact Hplain|].
  destruct (Hother [1]) as [Hg _]; [reflexivity|exact Hg].
Defined.

Lemma lower_ascii_idempotent : forall c,
    lower_ascii (lower_ascii c) = lower_ascii c.
Proof.
  intro c. destruct c as [[] [] [] [] [] [] [] []]; reflexivity.
Qed.

Lemma lower_idempotent : forall s, lower (lower s) = lower s.
Proof.
  induction s as [|c s IH]; simpl.
  - reflexivity.
  - now rewrite lower_ascii_idempotent, IH.
Qed.

Lemma one_of_app : forall s l1 l2,
    Trainer.one_of s (l1 ++ l2) = Trainer.one_of s l1 || Trainer.one_of s l2.
Proof. intros. unfold Trainer.one_of. apply existsb_app. Qed.

Lemma one_of_In_iff : forall s names,
    Trainer.one_of s names = true <-> In s names.
Proof.
  intros s names. unfold Trainer.one_of. rewrite existsb_exists. split.
  - intros [x [Hin Hx]]. apply String.eqb_eq in Hx. now subst.
  - intro H. exists s. split; [assumption|apply String.eqb_refl].
Qed.

(** X14.  [train_op_by_name] looks at the lowercase of the name only:
    a name whose lowercase is one of the names it tests for gives the
    outcome of that lowercase name, and never the unknown-optimizer
    error; any other name raises [ValueError] with the message
    ["Unknown optimizer "] followed by the name as it was given. *)
Theorem train_op_by_name_ignores_case_and_names_unknown :
  forall (Op : Type) (self : Trainer.MultiTrainer Op) (name : string),
    (Trainer.one_of (lower name) recognised_names = true ->
     Trainer.train_op_by_name self name
     = Trainer.train_op_by_name self (lower name)
     /\ Trainer.train_op_by_name self name
        <> Raise (ValueError ("Unknown optimizer " ++ name)))
    /\ (Trainer.one_of (lower name) recognised_names = false ->
        Trainer.train_op_by_name self name
        = Raise (ValueError ("Unknown optimizer " ++ name))).
Proof.
  intros Op self name. split.
  - intro H. apply one_of_In_iff in H.
    unfold Trainer.train_op_by_name. rewrite !lower_idempotent.
    unfold recognised_names in H. simpl in H.
    repeat (destruct H as [H|H];
            [rewrite <- H; cbv -[append];
             split; [reflexivity|];
             match goal with
             | |- context [match ?x with _ => _ end] =>
                 destruct x; discriminate
             | |- _ => discriminate
             end|]).
    contradiction.
  - intro H. unfold recognised_names in H.
    rewrite !one_of_app in H. repeat rewrite orb_false_iff in H.
    destruct H as (H1 & H2 & H3 & H4 & H5 & H6).
    unfold Trainer.one_of in H2. simpl in H2.
    repeat rewrite orb_false_iff in H2.
    destruct H2 as (Ha & Hb & Hc & Hd & _).
    unfold Trainer.train_op_by_name. rewrite !lower_idempotent.
    now rewrite H1, Ha, Hb, Hc, Hd, H3, H4, H5, H6.
Qed.

(** X15.  Whatever the name, an op that [train_op_by_name] returns is
    one of the seven attributes [train_op_GD], [train_op_Adam],
    [train_op_Adagrad], [train_op_RMSProp], [train_op_nr],
    [train_op_nr_tr] and [train_op_irls]: the attribute
    [train_op_irls_tr] is never what it reads. *)
Theorem train_op_by_name_never_returns_irls_tr_op :
  forall (Op : Type) (self : Trainer.MultiTrainer Op) (name : string)
         (op : Op),
    Trainer.train_op_by_name self name = Ok op ->
    In (Some op)
       [Trainer.train_op_GD self; Trainer.train_op_Adam self;
        Trainer.train_op_Adagrad self; Trainer.train_op_RMSProp self;
        Trainer.train_op_nr self; Trainer.train_op_nr_tr self;
        Trainer.train_op_irls self].
Proof.
  intros Op self name op H. unfold Trainer.train_op_by_name in H.
  repeat match type of H with
         | (if ?c then _ else _) = _ => destruct c
         end;
    try discriminate;
    match type of H with
    | Trainer.provided ?attr _ = _ =>
        destruct attr eqn:E; simpl in H; [|discriminate];
        inversion H; subst; rewrite <- E; simpl; tauto
    end.
Qed.

Lemma train_op_by_name_never_returns_irls_tr_op_witness :
  let self :=
    {| Trainer.train_op_GD := None; Trainer.train_op_Adam := None;
       Trainer.train_op_Adagrad := None; Trainer.train_op_RMSProp := None;
       Trainer.train_op_nr := None; Trainer.train_op_nr_tr := None;
       Trainer.train_op_irls := Some "op_irls"%string;
       Trainer.train_op_irls_tr := Some "op_irls_tr"%string |} in
  In (Some "op_irls"%string)
     [Trainer.train_op_GD self; Trainer.train_op_Adam self;
      Trainer.train_op_Adagrad self; Trainer.train_op_RMSProp self;
      Trainer.train_op_nr self; Trainer.train_op_nr_tr self;
      Trainer.train_op_irls self].
Proof.
  cbv zeta.
  apply (@train_op_by_name_never_returns_irls_tr_op
           string _ "iwls-trust-region"%string "op_irls"%string).
  reflexivity.
Defined.

(* ----------------------------------------------------------------- *)
(** ** [ModelVars] and the callers of [apply_constraints] *)

Section ModelVarsFacts.

Import Vars.

Section CallFacts.
Context {F : Type} {arith : TfArith F} {cmp : TfCompare F}
        {limits : DtypeLimits F}.

Lemma positional_then_keyword_dtype :
  forall (n_features : nat) (dtype : string) (c x : tensor F),
    call_apply_constraints n_features [PyArray c; PyArray x]
                           [("dtype"%string, PyDtype dtype)]
    = Raise (TypeError
               "apply_constraints() got multiple values for argument 'dtype'").
Proof. reflexivity. Qed.

Lemma keyword_call_binds :
  forall (n_features : nat) (dtype : string) (c x : tensor F),
    BasicModelGraph_apply_constraints n_features dtype c x
    = apply_constraints n_features c (Some x) None.
Proof. reflexivity. Qed.

Lemma where_false_is_dep : forall c : tensor F,
    where_false (is_dep c) = idx_indep c.
Proof.
  intro c. unfold where_false, is_dep, idx_indep.
  rewrite length_map, length_seq.
  apply filter_ext_in. intros i Hi. apply in_seq in Hi.
  rewrite (nth_map_lt _ _ 0 true) by (rewrite length_seq; lia).
  rewrite seq_nth by lia. simpl. clear Hi.
  induction c as [|row rest IH]; simpl.
  - reflexivity.
  - destruct (fequal (nth i row fzero) minus_one); simpl; [reflexivity|].
    apply IH.
Qed.
End CallFacts.

Lemma tf_gather_raises : forall (F : Type) (t : tensor F) indices e,
    tf_gather t indices = Raise e ->
    e = InvalidArgumentError "indices out of range".
Proof.
  intros F t indices e. induction indices as [|i rest IH]; simpl.
  - discriminate.
  - destruct (nth_error t i); [|intro H; now inversion H].
    destruct (tf_gather t rest); simpl; [discriminate|].
    intro H. inversion H. subst. now apply IH.
Qed.

(** X16.  [ModelVars.__init__] never returns when a constraint matrix
    is given: it calls [apply_constraints(constraints, a_var,
    dtype=dtype)], which passes the variable in the place of [dtype] and
    then [dtype] again by keyword, so that the call raises [TypeError];
    the only other outcomes are the errors of the gather and of the
    concatenation that come first. *)
Theorem ModelVars_init_with_constraints_raises :
  forall (F : Type) (arith : TfArith F) (cmp : TfCompare F)
         (limits : DtypeLimits F) (n_features : nat) (dtype : string)
         (init_a init_b : tensor F)
         (constraints_loc constraints_scale : option (tensor F)),
    constraints_loc <> None \/ constraints_scale <> None ->
    exists e,
      ModelVars_init n_features dtype init_a init_b
                     constraints_loc constraints_scale = Raise e
      /\ (e = TypeError
                "apply_constraints() got multiple values for argument 'dtype'"
          \/ e = InvalidArgumentError "indices out of range"
          \/ e = ValueError "Dimension 1 in both shapes must be equal").
Proof.
  intros F arith cmp limits nf dtype init_a init_b cl cs H.
  unfold ModelVars_init.
  set (ga := match cl with
             | Some c => tf_gather (tf_clip_param init_a name_a)
                                   (where_false (is_dep c))
             | None => Ok (tf_clip_param init_a name_a)
             end).
  set (gb := match cs with
             | Some c => tf_gather (tf_clip_param init_b name_b)
                                   (where_false (is_dep c))
             | None => Ok (tf_clip_param init_b name_b)
             end).
  assert (Hga : forall e, ga = Raise e ->
                          e = InvalidArgumentError "indices out of range").
  { intros e He. unfold ga in He. destruct cl; [|discriminate].
    now apply tf_gather_raises in He. }
  assert (Hgb : forall e, gb = Raise e ->
                          e = InvalidArgumentError "indices out of range").
  { intros e He. unfold gb in He. destruct cs; [|discriminate].
    now apply tf_gather_raises in He. }
  destruct ga as [ia|e]; cbn [bind].
  2:{ exists e. split; [reflexivity|]. right. left. now apply Hga. }
  destruct gb as [ib|e]; cbn [bind].
  2:{ exists e. split; [reflexivity|]. right. left. now apply Hgb. }
  unfold tf_concat_axis0.
  destruct (has_colsb nf ia && has_colsb nf ib); cbn [bind].
  2:{ eexists. split; [reflexivity|]. right. now right. }
  destruct cl as [c|].
  - rewrite positional_then_keyword_dtype. cbn [bind].
    eexists. split; [reflexivity|]. now left.
  - destruct cs as [c|].
    + cbn [bind]. rewrite positional_then_keyword_dtype. cbn [bind].
      eexists. split; [reflexivity|]. now left.
    + destruct H as [H|H]; now contradiction H.
Qed.

Lemma ModelVars_init_with_constraints_raises_witness :
  ModelVars_init (limits := float64_limits) 2 "float64" Sample.full_a
                 Sample.full_a (Some Example.constraints) None
  = Raise (TypeError
             "apply_constraints() got multiple values for argument 'dtype'").
Proof.
  destruct (@ModelVars_init_with_constraints_raises
              Qc Qc_arith Qc_compare float64_limits 2 "float64"%string
              Sample.full_a Sample.full_a (Some Example.constraints) None)
    as (e & Hrun & _).
  - left. discriminate.
  - rewrite Hrun. vm_compute in Hrun.
    injection Hrun as <-. reflexivity.
Defined.

Lemma has_colsb_tmap : forall (F : Type) (f : F -> F) n (t : tensor F),
    has_colsb n (tmap f t) = has_colsb n t.
Proof.
  intros F f n t. unfold has_colsb, tmap.
  induction t as [|row t IH]; simpl; [reflexivity|].
  now rewrite length_map, IH.
Qed.

(** X17.  Exact rationals, for a dtype whose limits are ordered as those
    of a float type.  Without constraints, for initial values of
    [n_features] columns, [ModelVars.__init__] returns; [a_var] and
    [b_var] are the clipped initial values and together, in this order,
    they are [params]; [a] and [b] are [a_var] and [b_var] (the second
    clip changes nothing); no feature is marked as converged. *)
Theorem ModelVars_init_without_constraints :
  forall (limits : DtypeLimits Qc),
    (0 < ACCURACY_MARGIN_RELATIVE_TO_LIMIT)%Qc ->
    (np_log (np_nextafter 0%Qc pos_inf) <= 0)%Qc ->
    (0 <= np_nextafter (np_log dmax) neg_inf)%Qc ->
    (np_nextafter 0%Qc pos_inf
     <= np_nextafter dmax neg_inf / ACCURACY_MARGIN_RELATIVE_TO_LIMIT)%Qc ->
    forall (n_features : nat) (dtype : string) (init_a init_b : tensor Qc),
      has_cols n_features init_a ->
      has_cols n_features init_b ->
      exists mv,
        ModelVars_init n_features dtype init_a init_b None None = Ok mv
        /\ a_var mv = tf_clip_param init_a name_a
        /\ b_var mv = tf_clip_param init_b name_b
        /\ params mv = a_var mv ++ b_var mv
        /\ a mv = a_var mv
        /\ b mv = b_var mv
        /\ converged mv = repeat false n_features
        /\ mv_n_features mv = n_features.
Proof.
  intros limits Hsf Hlog Hmax Hmu nf dtype init_a init_b Ha Hb.
  unfold ModelVars_init. cbn [bind].
  unfold tf_concat_axis0.
  assert (Hca : has_colsb nf (tf_clip_param init_a name_a) = true).
  { unfold tf_clip_param. rewrite has_colsb_tmap. now apply has_colsb_spec. }
  assert (Hcb : has_colsb nf (tf_clip_param init_b name_b) = true).
  { unfold tf_clip_param. rewrite has_colsb_tmap. now apply has_colsb_spec. }
  rewrite Hca, Hcb. cbn [andb bind].
  eexists. split; [reflexivity|].
  cbn [a b a_var b_var params converged mv_n_features].
  rewrite firstn_app, Nat.sub_diag, firstn_all. cbn [firstn].
  rewrite app_nil_r.
  rewrite skipn_app, Nat.sub_diag, skipn_all. cbn [skipn app].
  assert (Hidem : forall name (t : tensor Qc),
             tf_clip_param (tf_clip_param t name) name = tf_clip_param t name).
  { intros name t. unfold tf_clip_param. apply tmap_idempotent.
    intro x. unfold tf_clip at 1. simpl.
    pose proof (@bounds_ordered limits Hsf Hlog Hmax Hmu name) as Hord.
    destruct (clip_by_value_bounds x Hord) as [Hlo Hhi].
    now apply clip_by_value_id. }
  repeat split; try reflexivity; apply Hidem.
Qed.

Lemma ModelVars_init_without_constraints_witness :
  exists mv,
    ModelVars_init (limits := float64_limits) 2 "float64" Sample.full_a
                   Sample.full_b None None = Ok mv
    /\ a mv = a_var mv
    /\ params mv = a_var mv ++ b_var mv
    /\ converged mv = [false; false].
Proof.
  destruct (@ModelVars_init_without_constraints
              float64_limits float64_margin_positive float64_log_tiny_nonpos
              float64_log_max_nonneg float64_tiny_le_max 2 "float64"%string
              Sample.full_a Sample.full_b)
    as (mv & Hrun & _ & _ & Hparams & Ha & _ & Hconv & _).
  - repeat constructor.
  - repeat constructor.
  - exists mv. repeat split; assumption.
Defined.

(** X18.  Exact comparison.  The rows that [ModelVars.__init__] keeps
    (those of the columns without a [-1]) are the independent columns of
    [apply_constraints].  For a well-formed constraint matrix and initial
    values with one row per column, these rows are what the reducer
    needs as [var_indep]: it returns a tensor [p] with the same
    independent rows, and the keyword call of
    [BasicModelGraph.__init__] on [p] returns [p]. *)
Theorem model_vars_rows_fit_the_reducer :
  forall (F : Type) (arith : TfArith F) (cmp : TfCompare F)
         (fequal_spec : forall x y : F, fequal x y = true <-> x = y)
         (n_features : nat) (dtype : string) (constraints init : tensor F),
    well_formed constraints = true ->
    length init = n_params constraints ->
    where_false (is_dep constraints) = idx_indep constraints
    /\ exists x0 p,
         tf_gather init (where_false (is_dep constraints)) = Ok x0
         /\ apply_constraints n_features constraints None (Some x0) = Ok p
         /\ tf_gather p (where_false (is_dep constraints)) = Ok x0
         /\ BasicModelGraph_apply_constraints n_features dtype constraints p
            = Ok p.
Proof.
  intros F arith cmp fequal_spec nf dtype C init Hwf Hlen.
  rewrite where_false_is_dep. split; [reflexivity|].
  assert (Hin : Forall (fun j => j < length init) (idx_indep C)).
  { apply Forall_forall. intros c Hc.
    apply (idx_indep_spec fequal_spec C) in Hc. lia. }
  pose proof (tf_gather_ok init Hin) as Hg.
  set (x0 := map (fun j => nth j init []) (idx_indep C)) in *.
  assert (Hx0 : length x0 = length (idx_indep C))
    by (unfold x0; apply length_map).
  destruct (apply_constraints_result fequal_spec nf C x0 Hwf Hx0)
    as (p & Hrun & Hp & Hback & _).
  exists x0, p. repeat split; try assumption.
  rewrite keyword_call_binds, <- Hrun.
  apply (@apply_constraints_from_selected F arith cmp nf C (Some p) None x0).
  unfold select_params. now rewrite Hback.
Qed.

Lemma model_vars_rows_fit_the_reducer_witness :
  exists p,
    apply_constraints 2 Example.constraints None (Some Example.var_indep)
    = Ok p
    /\ BasicModelGraph_apply_constraints 2 "float64" Example.constraints p
       = Ok p.
Proof.
  destruct (@model_vars_rows_fit_the_reducer
              Qc Qc_arith Qc_compare Qc_fequal_spec 2 "float64"%string
              Example.constraints Sample.full_a)
    as (_ & x0 & p & Hg & Hrun & _ & Hcall).
  - vm_compute. reflexivity.
  - reflexivity.
  - exists p. split; [|exact Hcall].
    rewrite <- Hrun. f_equal. f_equal.
    vm_compute in Hg. injection Hg as <-. reflexivity.
Defined.

End ModelVarsFacts.

(* ----------------------------------------------------------------- *)
(** ** [StopAtLossHook]: the first windows *)

Import StopAtLossStates.

Lemma length_setitem : forall l i v, length (setitem l i v) = length l.
Proof.
  induction l as [|x l IH]; intros [|i] v; simpl; try reflexivity.
  now rewrite IH.
Qed.

Lemma nth_setitem_other : forall l i j v d,
    i <> j -> nth j (setitem l i v) d = nth j l d.
Proof.
  induction l as [|x l IH]; intros [|i] [|j] v d H; simpl;
    try reflexivity; try contradiction.
  apply IH. lia.
Qed.

Lemma np_sum_with_inf : forall l acc,
    In Inf l \/ unbounded acc ->
    unbounded (fold_left np_add l acc) \/ fold_left np_add l acc = NaN.
Proof.
  induction l as [|x l IH]; intros acc H; simpl.
  - destruct H as [[]|H]. now left.
  - apply IH. destruct H as [[->|Hin]|Hacc].
    + right. destruct acc; simpl; unfold unbounded; auto.
    + now left.
    + right. destruct Hacc as [->| ->]; destruct x; simpl;
        unfold unbounded; auto.
Qed.

Lemma np_mean_with_inf : forall l,
    In Inf l -> unbounded (np_mean l).
Proof.
  intros l H. unfold np_mean, np_sum.
  destruct (@np_sum_with_inf l (Finite 0%Qc) (or_introl H)) as [Hs|Hs].
  - destruct l as [|x l]; [contradiction|].
    destruct Hs as [Hs|Hs]; rewrite Hs; simpl; unfold unbounded; auto.
  - destruct l as [|x l]; [contradiction|].
    rewrite Hs. simpl. now right.
Qed.

Lemma cold_change_never_below : forall self,
    (_last_loss self = None
     \/ exists x, _last_loss self = Some x /\ unbounded x) ->
    np_less (loss_change self) (min_loss_change self) = false.
Proof.
  intros self H. unfold loss_change.
  destruct H as [->|[x [-> Hx]]].
  - now destruct (min_loss_change self).
  - destruct Hx as [->| ->]; unfold np_sub;
      destruct (np_mean (_loss_history self)); simpl;
      now destruct (min_loss_change self).
Qed.

Lemma mod_injective_in_window : forall W s j k,
    0 < W -> k < j -> j < W -> (s + j) mod W <> (s + k) mod W.
Proof.
  intros W s j k HW Hkj Hj H.
  pose proof (Nat.div_mod_eq (s + j) W) as Ej.
  pose proof (Nat.div_mod_eq (s + k) W) as Ek.
  rewrite H in Ej.
  assert (Hq : (s + k) / W <= (s + j) / W) by (apply Nat.Div0.div_le_mono; lia).
  set (qj := (s + j) / W) in *. set (qk := (s + k) / W) in *.
  set (r := (s + k) mod W) in *.
  destruct (Nat.eq_dec qk qj) as [E|E].
  - rewrite E in Ek. lia.
  - assert (Hlt : S qk <= qj) by lia.
    assert (Hm : W * S qk <= W * qj) by (apply Nat.mul_le_mono_l; exact Hlt).
    lia.
Qed.

Lemma mod_size_ok : forall self step,
    0 < length (_loss_history self) ->
    mod_size self step = Ok (step mod length (_loss_history self)).
Proof.
  intros self step H. unfold mod_size.
  destruct (length (_loss_history self)); [lia|reflexivity].
Qed.

Lemma warming_up_step : forall W s k self loss,
    0 < W -> k <= W -> warming_up W s k self ->
    exists self',
      after_run_body self (s + k) loss = Ok (self', false)
      /\ (k < W -> warming_up W s (S k) self').
Proof.
  intros W s k self loss HW Hk (Hlen & (last & Hlast & Hle) & Hcold & Hinf).
  unfold after_run_body. rewrite Hlast.
  apply Nat.leb_le in Hle. rewrite Hle.
  rewrite (@cold_change_never_below self Hcold).
  rewrite mod_size_ok by lia. cbn [bind].
  unfold _update_loss_change.
  rewrite mod_size_ok by (cbn [_loss_history]; lia).
  cbn [bind _loss_history _last_loss _last_step min_loss_change].
  rewrite Hlen.
  eexists. split; [reflexivity|].
  intro HkW. unfold warming_up.
  cbn [_loss_history _last_loss _last_step min_loss_change].
  split; [now rewrite length_setitem|].
  split; [exists (s + k); split; [reflexivity|lia]|].
  split.
  - destruct ((s + k) mod W =? 0) eqn:E; [|exact Hcold].
    right. eexists. split; [reflexivity|].
    apply np_mean_with_inf.
    rewrite <- (Hinf k) by lia. apply nth_In.
    rewrite Hlen. apply Nat.mod_upper_bound. lia.
  - intros j Hj. rewrite nth_setitem_other.
    + apply Hinf. lia.
    + intro E. symmetry in E. revert E.
      apply mod_injective_in_window; lia.
Qed.

Lemma warming_up_start : forall thr W s,
    warming_up W s 0 (after_create_session (init thr W) s).
Proof.
  intros thr W s. unfold warming_up. simpl.
  split; [apply repeat_length|].
  split; [exists s; split; [reflexivity|lia]|].
  split; [now left|].
  intros j Hj. apply nth_repeat_lt.
  apply Nat.mod_upper_bound. lia.
Qed.

Lemma warming_up_run : forall W s losses k self,
    0 < W -> k + length losses <= S W -> warming_up W s k self ->
    exists self', run self (s + k) losses = Ok (self', false).
Proof.
  intros W s losses. induction losses as [|l rest IH];
    intros k self HW Hlen Hwarm.
  - exists self. reflexivity.
  - simpl in Hlen. simpl run.
    destruct (@warming_up_step W s k self l HW) as (self' & Hrun & Hnext);
      [lia|exact Hwarm|].
    rewrite Hrun. cbn [bind snd fst].
    destruct rest as [|l' rest'].
    + exists self'. reflexivity.
    + simpl in Hlen.
      replace (S (s + k)) with (s + S k) by lia.
      apply IH; [exact HW|simpl; lia|apply Hnext; lia].
Qed.

(** X19.  From a hook whose session was created at any step, with a
    window of [W > 0] steps and any threshold, the body of [after_run]
    requests no stop in the first [W + 1] consecutive evaluations,
    whatever the losses: until a full window has been averaged the loss
    change is infinite or not a number. *)
Theorem no_stop_during_first_window :
  forall (min_change : npfloat) (loss_averaging_steps first_step : nat)
         (losses : list npfloat),
    0 < loss_averaging_steps ->
    length losses <= loss_averaging_steps + 1 ->
    exists self',
      run (after_create_session (init min_change loss_averaging_steps)
                                first_step)
          first_step losses
      = Ok (self', false).
Proof.
  intros thr W s losses HW Hlen.
  destruct (@warming_up_run W s losses 0
              (after_create_session (init thr W) s)) as (self' & Hrun).
  - exact HW.
  - simpl. lia.
  - apply warming_up_start.
  - rewrite Nat.add_0_r in Hrun. now exists self'.
Qed.

Lemma no_stop_during_first_window_witness :
  exists self',
    run Example.hook_start 0
        [Finite (Example.qc 5); Finite (Example.qc 5);
         Finite (Example.qc 5); Finite (Example.qc 5)]
    = Ok (self', false).
Proof.
  apply (@no_stop_during_first_window
           (Finite (Q2Qc (1 # 1000))) 3 0
           [Finite (Example.qc 5); Finite (Example.qc 5);
            Finite (Example.qc 5); Finite (Example.qc 5)]).
  - lia.
  - simpl. lia.
Defined.









(** X22.  Over any sequence of evaluations that does not raise, the
    loss history keeps its length and the threshold its value. *)
Theorem run_keeps_window_and_threshold :
  forall (losses : list npfloat) (self self' : StopAtLossHook)
         (step : nat) (stop : bool),
    run self step losses = Ok (self', stop) ->
    length (_loss_history self') = length (_loss_history self)
    /\ min_loss_change self' = min_loss_change self.
Proof.
  assert (Hbody : forall self step loss self' stop,
             after_run_body self step loss = Ok (self', stop) ->
             length (_loss_history self') = length (_loss_history self)
             /\ min_loss_change self' = min_loss_change self).
  { intros self step loss self' stop H. unfold after_run_body in H.
    destruct (_last_step self) as [last|] eqn:E; [|discriminate].
    destruct (last <=? step) eqn:Hle.
    - unfold mod_size in H.
      destruct (length (_loss_history self)) eqn:Hlen; [discriminate|].
      cbn [bind] in H. unfold _update_loss_change, mod_size in H.
      cbn [_loss_history] in H. rewrite Hlen in H. cbn [bind] in H.
      inversion H. subst. cbn [_loss_history min_loss_change].
      rewrite length_setitem. now split.
    - inversion H. subst. now split. }
  induction losses as [|l rest IH]; intros self self' step stop H.
  - simpl in H. inversion H. subst. now split.
  - simpl in H.
    destruct (after_run_body self step l) as [[s1 stop1]|e] eqn:E;
      simpl in H; [|discriminate].
    destruct (Hbody _ _ _ _ _ E) as (H1 & H2).
    destruct stop1.
    + inversion H. subst. now split.
    + destruct (IH _ _ _ _ H) as (K1 & K2). split; congruence.
Qed.

Lemma run_keeps_window_and_threshold_witness :
  length (_loss_history Example.hook) = 3
  /\ min_loss_change Example.hook = Finite (Q2Qc (1 # 1000)).
Proof.
  destruct (run Example.hook_start 0 (repeat (Finite (Example.qc 5)) 4))
    as [[h stop]|e] eqn:E.
  - pose proof (@run_keeps_window_and_threshold _ _ _ _ _ E) as H.
    unfold Example.hook. rewrite E. exact H.
  - vm_compute in E. discriminate.
Defined.

(* ----------------------------------------------------------------- *)
(** ** [TimedRunHook] *)

Lemma fold_left_Qplus : forall l a,
    (fold_left Qplus l a == a + fold_left Qplus l 0)%Q.
Proof.
  induction l as [|x l IH]; intro a; simpl.
  - lra.
  - rewrite IH. rewrite (IH (0 + x)%Q). lra.
Qed.

Lemma np_sum_snoc : forall l d,
    (TimedRun.np_sum (l ++ [d]) == TimedRun.np_sum l + d)%Q.
Proof.
  intros l d. unfold TimedRun.np_sum. rewrite fold_left_app. simpl. lra.
Qed.

Lemma Qgtb_false : forall x y : Q, (x <= y)%Q -> TimedRun.Qgtb x y = false.
Proof.
  intros x y H. unfold TimedRun.Qgtb.
  apply negb_false_iff. now apply Qle_bool_iff.
Qed.

Lemma shall_request_by_seconds : forall self now,
    TimedRun.run_steps self = None ->
    (TimedRun.np_sum (TimedRun._time_measures self) <= now)%Q ->
    TimedRun.shall_request self now = Ok false.
Proof.
  intros self now Hsteps Hsum. unfold TimedRun.shall_request.
  rewrite Hsteps. cbn [bind].
  destruct (TimedRun.run_secs self); [|reflexivity].
  rewrite (Qgtb_false Hsum). now rewrite andb_false_r.
Qed.

Lemma before_run_seconds : forall self session_step t1 t2 b requests,
    TimedRun.run_steps self = None ->
    (TimedRun.np_sum (TimedRun._time_measures self) <= t1)%Q ->
    TimedRun.before_run self session_step t1 t2 = Ok (b, requests) ->
    TimedRun.run_steps b = None
    /\ TimedRun._time_measures b = TimedRun._time_measures self
    /\ TimedRun._start_time b = Some t2
    /\ requests = ["global_step"%string].
Proof.
  intros self s t1 t2 b requests Hsteps Hsum H.
  unfold TimedRun.before_run in H.
  destruct (TimedRun._next_step self) as [next|]; [|discriminate].
  rewrite shall_request_by_seconds in H.
  - cbn [bind] in H. injection H as Hb Hr. subst b requests.
    destruct next; repeat split; assumption.
  - destruct next; assumption.
  - destruct next; assumption.
Qed.

Lemma after_run_seconds : forall self run_values t2 t3 t4 a event,
    TimedRun.run_steps self = None ->
    TimedRun._start_time self = Some t2 ->
    (TimedRun.np_sum (TimedRun._time_measures self) <= t2)%Q ->
    (t2 <= t3)%Q -> (t3 <= t4)%Q ->
    TimedRun.after_run self run_values t3 t4 = Ok (a, event) ->
    event = None
    /\ TimedRun.run_steps a = None
    /\ (TimedRun.np_sum (TimedRun._time_measures a) <= t4)%Q.
Proof.
  intros self rv t2 t3 t4 a event Hsteps Hstart Hsum H23 H34 H.
  unfold TimedRun.after_run in H. rewrite Hstart in H.
  destruct (TimedRunHook_global_step rv) as [step|e]; cbn [bind] in H;
    [|discriminate].
  destruct (TimedRun._next_step self) as [[next|]|]; try discriminate.
  destruct (Z.of_nat step <? next)%Z.
  - injection H as Ha He. subst a event.
    repeat split; try assumption. lra.
  - rewrite shall_request_by_seconds in H.
    + cbn [bind fst snd] in H. injection H as Ha He. subst a event.
      repeat split; try assumption.
      unfold TimedRun.set_next_step, TimedRun.set_measures.
      cbn [TimedRun._time_measures fst]. rewrite np_sum_snoc. lra.
    + exact Hsteps.
    + unfold TimedRun.set_measures. cbn [TimedRun._time_measures].
      rewrite np_sum_snoc. lra.
Qed.

Lemma seconds_mode_run : forall runs self t self' calls,
    TimedRun.run_steps self = None ->
    (TimedRun.np_sum (TimedRun._time_measures self) <= t)%Q ->
    TimedRun.chronological t runs ->
    TimedRun.run_loop self runs = Ok (self', calls) ->
    calls = [].
Proof.
  induction runs as [|r rest IH];
    intros self t self' calls Hsteps Hsum Hchron H.
  - simpl in H. now inversion H.
  - destruct Hchron as (H1 & H2 & H3 & H4 & Hrest).
    cbn [TimedRun.run_loop] in H.
    destruct (TimedRun.before_run self (TimedRun.session_step r)
                (TimedRun.t_request r) (TimedRun.t_start r))
      as [[self1 requests]|e] eqn:Eb; cbn [bind fst] in H; [|discriminate].
    destruct (TimedRun.after_run self1 (TimedRun.run_values r)
                (TimedRun.t_end r) (TimedRun.t_call r))
      as [[self2 event]|e] eqn:Ea; cbn [bind fst snd] in H; [|discriminate].
    destruct (TimedRun.run_loop self2 rest) as [[self3 calls3]|e] eqn:El;
      cbn [bind fst snd] in H; [|discriminate].
    injection H as Hs Hc. subst self' calls.
    apply before_run_seconds in Eb; [|assumption|lra].
    destruct Eb as (B1 & B2 & B3 & _).
    apply (@after_run_seconds self1 _ (TimedRun.t_start r)) in Ea;
      try assumption; [|rewrite B2; lra].
    destruct Ea as (-> & A2 & A3).
    now apply (IH self2 (TimedRun.t_call r) self3 calls3).
Qed.

(** X23.  Exact times.  A hook that is to fire every [run_secs] seconds
    ([run_steps] is [None]) compares the sum of the measured run times
    with the clock itself.  With a clock that starts at or after 0 and
    never goes back, that sum never exceeds the clock, so that over any
    sequence of monitored runs the hook never calls [call_fn]. *)
Theorem timed_hook_never_fires_by_seconds :
  forall (step_offset : Z) (run_secs : Q)
         (call_request_tensors : option (list string))
         (call_fn asynchronous : bool)
         (runs : list TimedRun.session_run)
         (self' : TimedRun.TimedRunHook) (calls : list TimedRun.call),
    TimedRun.chronological 0%Q runs ->
    TimedRun.run_loop
      (TimedRun.begin
         (TimedRun.init None step_offset (Some run_secs)
                        call_request_tensors call_fn asynchronous))
      runs
    = Ok (self', calls) ->
    calls = [].
Proof.
  intros offset secs crt fn async runs self' calls Hchron H.
  apply (@seconds_mode_run runs _ 0%Q self' calls) in H; try assumption.
  - reflexivity.
  - cbn. lra.
Qed.

Lemma timed_hook_never_fires_by_seconds_witness :
  exists self',
    TimedRun.run_loop
      (TimedRun.begin (TimedRun.init None 1 (Some 1%Q) None true false))
      Sample.three_runs
    = Ok (self', []).
Proof.
  destruct (TimedRun.run_loop
              (TimedRun.begin
                 (TimedRun.init None 1 (Some 1%Q) None true false))
              Sample.three_runs) as [[self' calls]|e] eqn:E.
  - exists self'.
    rewrite (@timed_hook_never_fires_by_seconds
               1%Z 1%Q None true false Sample.three_runs self' calls);
      [reflexivity| |exact E].
    vm_compute. intuition discriminate.
  - vm_compute in E. discriminate.
Defined.





(* ----------------------------------------------------------------- *)
(** ** [generate_sample_description] *)

Section SimulatorFacts.

Import Simulator.

Lemma ceil_div_covers : forall n d, 0 < d -> n <= d * ceil_div n d.
Proof.
  intros n d Hd. unfold ceil_div.
  pose proof (Nat.div_mod_eq (n + d - 1) d) as E.
  pose proof (Nat.mod_upper_bound (n + d - 1) d) as B.
  lia.
Qed.

Lemma map_div_block : forall reps k,
    0 < reps ->
    map (fun i => i / reps) (seq (k * reps) reps) = repeat k reps.
Proof.
  intros reps k Hr.
  apply (nth_ext _ _ 0 0).
  - now rewrite length_map, length_seq, repeat_length.
  - intros j Hj. rewrite length_map, length_seq in Hj.
    rewrite (nth_map_lt _ _ 0 0) by (rewrite length_seq; exact Hj).
    rewrite seq_nth by exact Hj. rewrite nth_repeat_lt by exact Hj.
    rewrite Nat.add_comm, Nat.div_add by lia.
    rewrite Nat.div_small by exact Hj. reflexivity.
Qed.

Lemma np_repeat_range_as_map : forall k reps,
    np_repeat_range k reps = map (fun i => i / reps) (seq 0 (k * reps)).
Proof.
  intros k reps. unfold np_repeat_range.
  destruct (Nat.eq_dec reps 0) as [->|Hr].
  - rewrite Nat.mul_0_r. simpl.
    induction (seq 0 k) as [|x l IH]; simpl; [reflexivity|exact IH].
  - induction k as [|k IH].
    + reflexivity.
    + rewrite seq_S, flat_map_app, IH. simpl flat_map. rewrite app_nil_r.
      replace (S k * reps) with (k * reps + reps) by lia.
      rewrite seq_app, map_app. f_equal.
      simpl. symmetry. apply map_div_block. lia.
Qed.

Lemma map_mod_block : forall k j,
    0 < k -> map (fun i => i mod k) (seq (j * k) k) = seq 0 k.
Proof.
  intros k j Hk.
  apply (nth_ext _ _ 0 0).
  - now rewrite length_map, !length_seq.
  - intros i Hi. rewrite length_map, length_seq in Hi.
    rewrite (nth_map_lt _ _ 0 0) by (rewrite length_seq; exact Hi).
    rewrite !seq_nth by exact Hi.
    rewrite Nat.add_comm, Nat.Div0.mod_add. simpl.
    apply Nat.mod_small. exact Hi.
Qed.

Lemma np_tile_row_as_map : forall k reps,
    0 < k ->
    np_tile_row k reps = map (fun i => i mod k) (seq 0 (reps * k)).
Proof.
  intros k reps Hk. unfold np_tile_row.
  induction reps as [|reps IH].
  - reflexivity.
  - replace (S reps) with (reps + 1) by lia.
    rewrite repeat_app, concat_app, IH. simpl concat. rewrite app_nil_r.
    replace ((reps + 1) * k) with (reps * k + k) by lia.
    rewrite seq_app, map_app. f_equal.
    simpl. symmetry. now apply map_mod_block.
Qed.

Lemma index_range_batches : forall n k,
    0 < k ->
    index_range (Array1d (np_repeat_range k (ceil_div n k))) n
    = Returns (map (fun i => i / ceil_div n k) (seq 0 n)).
Proof.
  intros n k Hk. unfold index_range.
  rewrite np_repeat_range_as_map, length_map, length_seq.
  pose proof (ceil_div_covers n Hk) as Hc.
  assert (E : (n <=? k * ceil_div n k) = true) by (apply Nat.leb_le; lia).
  rewrite E. f_equal. apply firstn_map_seq. lia.
Qed.

Lemma index_range_conditions : forall n k,
    0 < k -> ~ (n = 1 /\ k = 1) ->
    index_range (np_squeeze (np_tile_row k (ceil_div n k))) n
    = Returns (map (fun i => i mod k) (seq 0 n)).
Proof.
  intros n k Hk Hne.
  pose proof (ceil_div_covers n Hk) as Hc.
  rewrite np_tile_row_as_map by exact Hk.
  set (m := ceil_div n k * k) in *.
  assert (Hm : n <= m) by (unfold m; lia).
  assert (Hm1 : m <> 1).
  { unfold m. intro E. apply Nat.eq_mul_1 in E. destruct E as [E1 E2].
    apply Hne. split; [|exact E2]. subst k. unfold ceil_div in E1.
    rewrite Nat.div_1_r in E1. lia. }
  assert (Hsq : np_squeeze (map (fun i => i mod k) (seq 0 m))
                = Array1d (map (fun i => i mod k) (seq 0 m))).
  { destruct m as [|[|m']]; [reflexivity|contradiction|reflexivity]. }
  rewrite Hsq. unfold index_range. rewrite length_map, length_seq.
  apply Nat.leb_le in Hm. rewrite Hm. f_equal.
  apply firstn_map_seq. now apply Nat.leb_le.
Qed.

Lemma index_range_single : 
    index_range (np_squeeze (np_tile_row 1 (ceil_div 1 1))) 1
    = Fails (IndexError "too many indices for array").
Proof. reflexivity. Qed.

(** X25.  [generate_sample_description] raises for a negative number of
    observations, and, with one observation and one condition, on the
    index into the condition column, which [np.squeeze] has turned into
    an array without axes; for every other input it returns. *)
Theorem generate_sample_description_fails_iff :
  forall (num_observations num_batches num_conditions : Z),
    let result := generate_sample_description num_observations num_batches
                                              num_conditions in
    ((num_observations < 0)%Z -> result = Fails NegativeRepeats)
    /\ (num_observations = 1%Z -> num_conditions = 1%Z ->
        result = Fails (IndexError "too many indices for array"))
    /\ ((0 <= num_observations)%Z ->
        ~ (num_observations = 1%Z /\ num_conditions = 1%Z) ->
        exists d, result = Returns d).
Proof.
  intros n nb nc result. unfold result, generate_sample_description.
  split; [|split].
  - intro H. apply Z.ltb_lt in H. now rewrite H.
  - intros -> ->. simpl (1 <? 0)%Z. cbv iota.
    destruct (0 <? nb)%Z eqn:Hb.
    + rewrite index_range_batches by (apply Z.ltb_lt in Hb; lia).
      reflexivity.
    + reflexivity.
  - intros Hn Hne.
    assert (E : (n <? 0)%Z = false) by (apply Z.ltb_ge; lia).
    rewrite E.
    destruct (0 <? nb)%Z eqn:Hb.
    + rewrite index_range_batches by (apply Z.ltb_lt in Hb; lia).
      cbn [and_then snd fst].
      destruct (0 <? nc)%Z eqn:Hc.
      * rewrite index_range_conditions.
        -- cbn [and_then]. eexists. reflexivity.
        -- apply Z.ltb_lt in Hc. lia.
        -- intros [H1 H2]. apply Hne. apply Z.ltb_lt in Hc. lia.
      * cbn [and_then]. eexists. reflexivity.
    + cbn [and_then snd fst].
      destruct (0 <? nc)%Z eqn:Hc.
      * rewrite index_range_conditions.
        -- cbn [and_then]. eexists. reflexivity.
        -- apply Z.ltb_lt in Hc. lia.
        -- intros [H1 H2]. apply Hne. apply Z.ltb_lt in Hc. lia.
      * cbn [and_then]. eexists. reflexivity.
Qed.

(** X26.  When [generate_sample_description] returns, with [n]
    observations: the intercept is [n] ones; with [num_batches > 0]
    observation [i] is in batch [i // ceil(n / num_batches)], which is
    below [num_batches]; with [num_conditions > 0] observation [i] has
    condition [i mod num_conditions]; a column is absent when its count
    is not positive; and the formula names the columns that are
    present. *)
Theorem generate_sample_description_columns :
  forall (num_observations num_batches num_conditions : Z)
         (d : sample_description),
    generate_sample_description num_observations num_batches num_conditions
    = Returns d ->
    let n := Z.to_nat num_observations in
    let reps := ceil_div n (Z.to_nat num_batches) in
    intercept d = repeat 1%Z n
    /\ batch d
       = (if (0 <? num_batches)%Z
          then Some (map (fun i => str (i / reps)) (seq 0 n))
          else None)
    /\ ((0 < num_batches)%Z ->
        forall i, i < n -> i / reps < Z.to_nat num_batches)
    /\ condition d
       = (if (0 <? num_conditions)%Z
          then Some (map (fun i => str (i mod Z.to_nat num_conditions))
                         (seq 0 n))
          else None)
    /\ formula d
       = ("~ 1" ++ (if (0 <? num_batches)%Z then " + batch" else "")
               ++ (if (0 <? num_conditions)%Z then " + condition" else ""))
         %string.
Proof.
  intros n nb nc d H. cbv zeta.
  unfold generate_sample_description in H.
  destruct (n <? 0)%Z eqn:En; [discriminate|].
  apply Z.ltb_ge in En.
  assert (Hbound : (0 < nb)%Z -> forall i, i < Z.to_nat n ->
             i / ceil_div (Z.to_nat n) (Z.to_nat nb) < Z.to_nat nb).
  { intros Hb i Hi.
    assert (Hk : 0 < Z.to_nat nb) by lia.
    pose proof (ceil_div_covers (Z.to_nat n) Hk) as Hc.
    apply Nat.Div0.div_lt_upper_bound. lia. }
  assert (Hcond : (0 < nc)%Z ->
             index_range (np_squeeze (np_tile_row (Z.to_nat nc)
                            (ceil_div (Z.to_nat n) (Z.to_nat nc))))
                         (Z.to_nat n)
             = Fails (IndexError "too many indices for array")
             \/ index_range (np_squeeze (np_tile_row (Z.to_nat nc)
                              (ceil_div (Z.to_nat n) (Z.to_nat nc))))
                            (Z.to_nat n)
                = Returns (map (fun i => i mod Z.to_nat nc)
                               (seq 0 (Z.to_nat n)))).
  { intro Hc.
    destruct (Nat.eq_dec (Z.to_nat n) 1) as [E1|E1];
      [destruct (Nat.eq_dec (Z.to_nat nc) 1) as [E2|E2]|].
    - left. rewrite E1, E2. reflexivity.
    - right. apply index_range_conditions; lia.
    - right. apply index_range_conditions; lia. }
  destruct (0 <? nb)%Z eqn:Hb.
  - rewrite index_range_batches in H by (apply Z.ltb_lt in Hb; lia).
    cbn [and_then snd fst] in H.
    destruct (0 <? nc)%Z eqn:Hc.
    + destruct Hcond as [E|E]; [apply Z.ltb_lt in Hc; lia| |];
        rewrite E in H; cbn [and_then] in H; [discriminate|].
      inversion H. subst d. cbn.
      rewrite !map_map. repeat split; try reflexivity.
      apply Hbound.
    + cbn [and_then] in H. inversion H. subst d. cbn.
      rewrite !map_map. repeat split; try reflexivity.
      apply Hbound.
  - cbn [and_then snd fst] in H.
    destruct (0 <? nc)%Z eqn:Hc.
    + destruct Hcond as [E|E]; [apply Z.ltb_lt in Hc; lia| |];
        rewrite E in H; cbn [and_then] in H; [discriminate|].
      inversion H. subst d. cbn.
      rewrite !map_map. repeat split; try reflexivity.
      apply Hbound.
    + cbn [and_then] in H. inversion H. subst d. cbn.
      repeat split; try reflexivity. apply Hbound.
Qed.

Lemma generate_sample_description_columns_witness :
  exists d,
    Simulator.generate_sample_description 7 4 2 = Simulator.Returns d
    /\ Simulator.batch d
       = Some ["0"; "0"; "1"; "1"; "2"; "2"; "3"]%string
    /\ Simulator.condition d
       = Some ["0"; "1"; "0"; "1"; "0"; "1"; "0"]%string
    /\ Simulator.formula d = "~ 1 + batch + condition"%string.
Proof.
  destruct (Simulator.generate_sample_description 7 4 2) as [d|e] eqn:E.
  - exists d. split; [reflexivity|].
    pose proof (@generate_sample_description_columns 7 4 2 d E) as H.
    cbv zeta in H. destruct H as (_ & Hb & _ & Hc & Hf).
    repeat split; assumption.
  - vm_compute in E. discriminate.
Defined.

End SimulatorFacts.

(* ----------------------------------------------------------------- *)
(** ** [GLM.setMethod] *)

(** X27.  [setMethod] looks at the lowercase of the optimizer only.  A
    name outside its ten names raises nothing and leaves [_calc] as it
    was; a name among them sets [_calc] whatever it was before.  Each of
    its names other than ["irls_gd"] and ["irls_gd_tr"] is also a name
    that [MultiTrainer.train_op_by_name] tests for. *)
Theorem setMethod_ignores_case_and_unknown_names :
  forall (_calc : option GLMModel.calc_method) (optimizer : string),
    let known :=
      GLMModel.jacobian_optimizers ++ GLMModel.hessian_optimizers
      ++ GLMModel.fim_optimizers in
    GLMModel.setMethod _calc (lower optimizer)
    = GLMModel.setMethod _calc optimizer
    /\ (Trainer.one_of (lower optimizer) known = false ->
        GLMModel.setMethod _calc optimizer = _calc)
    /\ (Trainer.one_of (lower optimizer) known = true ->
        forall other,
          GLMModel.setMethod _calc optimizer
          = GLMModel.setMethod other optimizer
          /\ GLMModel.setMethod _calc optimizer <> None)
    /\ (Trainer.one_of (lower optimizer) known = true ->
        Trainer.one_of (lower optimizer) recognised_names = false ->
        lower optimizer = "irls_gd"%string
        \/ lower optimizer = "irls_gd_tr"%string).
Proof.
  intros c s known. split; [|split; [|split]].
  - unfold GLMModel.setMethod. now rewrite lower_idempotent.
  - intro H. unfold known in H. rewrite !one_of_app in H.
    repeat rewrite orb_false_iff in H. destruct H as (H1 & H2 & H3).
    unfold GLMModel.setMethod. now rewrite H1, H2, H3.
  - intros H other. unfold known in H. rewrite !one_of_app in H.
    unfold GLMModel.setMethod.
    destruct (Trainer.one_of (lower s) GLMModel.jacobian_optimizers);
      [split; [reflexivity|discriminate]|].
    destruct (Trainer.one_of (lower s) GLMModel.hessian_optimizers);
      [split; [reflexivity|discriminate]|].
    destruct (Trainer.one_of (lower s) GLMModel.fim_optimizers);
      [split; [reflexivity|discriminate]|].
    discriminate.
  - intros H Hn. apply one_of_In_iff in H. unfold known in H. simpl in H.
    repeat (destruct H as [H|H];
            [rewrite <- H in Hn |- *;
             first [discriminate Hn | now left | now right]|]).
    contradiction.
Qed.
